(** * Hologram: gesture-driven shape selection, orbit smoothing and the
      per-hand particle morph engine

    A shallow embedding of [src/App.tsx], [src/components/HandTracker.tsx]
    and [src/components/HologramScene.tsx].

    Numbers.  A JavaScript [number] holding a count or an index is modelled as
    an integer of [Z] or [nat] (exact below 2^53).  [%] on integers is the
    truncating remainder [Z.rem].

    A [number] holding a coordinate, a time or a factor is embedded twice.
    In [App], [Tracker], [Scene], [Overlay] and [Group] it is a real of [R]
    and the arithmetic is exact: what is stated there is the rule a statement
    of the source computes, and the bounds and orderings that rounding to the
    nearest number keeps.  In [Ieee] it is the binary64 number the machine
    holds, rounded to binary32 where the source stores into a
    [Float32Array]: there the update rules are evaluated as the code
    evaluates them, which shows where a particle, an anchor or the orbit
    stops moving.

    The shape generators, whose buffers are to hold no [NaN] and no
    [Infinity], compute on reals extended by these special values
    ([Library.num]). *)

From Stdlib Require Import String ZArith List Bool Reals Lra Lia Psatz.
From Stdlib Require PrimFloat SpecFloat FloatOps.
Import ListNotations.

Open Scope R_scope.

(** ** [src/types.ts] *)

Record Vec3 : Type := mkVec3 { vx : R; vy : R; vz : R }.
Record Vec2 : Type := mkVec2 { ux : R; uy : R }.

Record HandState : Type := mkHand {
  isActive : bool;
  isFist : bool;
  position : Vec3;
  velocity : Vec2;
  shapeIndex : Z
}.

Record AppState : Type := mkApp {
  leftHand : HandState;
  rightHand : HandState;
  cameraOrbit : R
}.

(** ** [src/App.tsx] *)

Module App.

Definition INITIAL_HAND_STATE : HandState :=
  {| isActive := false;
     isFist := false;
     position := mkVec3 0 0 0;
     velocity := mkVec2 0 0;
     shapeIndex := 0%Z |}.

(** The literal of [(fistCount.current - 1) % 65]; the comment on the line
    above it reads "Now 65 unique shapes available". *)
Definition librarySize : Z := 65.

(** The component's state: the React state [appState] and the ref
    [fistCount], one counter for both hands. *)
Record Session : Type := mkSession {
  appState : AppState;
  fistCount : Z
}.

Definition initialSession : Session :=
  {| appState := mkApp INITIAL_HAND_STATE INITIAL_HAND_STATE 0;
     fistCount := 0%Z |}.

(** [current.shapeIndex = v] on the tracker's fresh object. *)
Definition setShapeIndex (h : HandState) (v : Z) : HandState :=
  {| isActive := isActive h;
     isFist := isFist h;
     position := position h;
     velocity := velocity h;
     shapeIndex := v |}.

(** The inner [updateHand]; [None] is the tracker's [null].  The counter is
    threaded through, as the closure mutates [fistCount.current]. *)
Definition updateHand (current : option HandState) (prevHand : HandState)
    (count : Z) : HandState * Z :=
  match current with
  | Some cur =>
      if isFist cur && negb (isFist prevHand) then
        let count' := (count + 1)%Z in
        (setShapeIndex cur (Z.rem (count' - 1) librarySize), count')
      else
        (setShapeIndex cur (shapeIndex prevHand), count)
  | None => (INITIAL_HAND_STATE, count)
  end.

(** The orbit part of the updater, on the two hands just computed, in exact
    arithmetic; [Ieee.nextOrbit] is the same lines on binary64 numbers. *)
Definition nextOrbit (l r : HandState) (prevOrbit : R) : R :=
  let targetOrbit0 := 0 in
  let activeCount0 := 0%nat in
  let '(targetOrbit1, activeCount1) :=
    if isActive l then (targetOrbit0 + vx (position l), S activeCount0)
    else (targetOrbit0, activeCount0) in
  let '(targetOrbit2, activeCount2) :=
    if isActive r then (targetOrbit1 + vx (position r), S activeCount1)
    else (targetOrbit1, activeCount1) in
  if (0 <? activeCount2)%nat then
    let targetOrbit3 := targetOrbit2 / INR activeCount2 in
    prevOrbit * 0.94 + (targetOrbit3 * 0.4) * 0.06
  else
    prevOrbit * 0.96.

(** One tracker callback: [handleHandUpdate(left, right)], its updater run
    once on the previous state.  The left hand is updated first. *)
Definition handleHandUpdate (left right : option HandState) (s : Session)
    : Session :=
  let prev := appState s in
  let '(newLeft, c1) := updateHand left (leftHand prev) (fistCount s) in
  let '(newRight, c2) := updateHand right (rightHand prev) c1 in
  {| appState := mkApp newLeft newRight (nextOrbit newLeft newRight (cameraOrbit prev));
     fistCount := c2 |}.

Definition Update : Type := (option HandState * option HandState)%type.

Definition step (s : Session) (u : Update) : Session :=
  handleHandUpdate (fst u) (snd u) s.

(** The session after a sequence of tracker callbacks. *)
Definition run (us : list Update) (s : Session) : Session :=
  fold_left step us s.

(** *** Observing the selector *)

Inductive Hand : Type := LeftH | RightH.

Definition handOf (h : Hand) (a : AppState) : HandState :=
  match h with LeftH => leftHand a | RightH => rightHand a end.

Definition sampleOf (h : Hand) (u : Update) : option HandState :=
  match h with LeftH => fst u | RightH => snd u end.

(** The test of [updateHand]: the hand is present, reported as a fist, and the
    stored state of that hand is not a fist. *)
Definition isTransition (current : option HandState) (prevHand : HandState) : bool :=
  match current with
  | Some cur => isFist cur && negb (isFist prevHand)
  | None => false
  end.

(** The open-to-fist transitions of one callback, in the order the updater
    handles them, each with the index the hand holds afterwards. *)
Definition transitionsOf (u : Update) (s : Session) : list (Hand * Z) :=
  let s' := step s u in
  (if isTransition (fst u) (leftHand (appState s))
   then [(LeftH, shapeIndex (leftHand (appState s')))] else [])
  ++
  (if isTransition (snd u) (rightHand (appState s))
   then [(RightH, shapeIndex (rightHand (appState s')))] else []).

(** All transitions of a sequence of callbacks, both hands combined. *)
Fixpoint transitionLog (us : list Update) (s : Session) : list (Hand * Z) :=
  match us with
  | [] => []
  | u :: rest => transitionsOf u s ++ transitionLog rest (step s u)
  end.

(** *** Observing the counter and the orbit *)

(** One for a transition, as the counter counts it. *)
Definition bump (b : bool) : Z := if b then 1%Z else 0%Z.

Definition noActiveHand (s : Session) (u : Update) : Prop :=
  isActive (leftHand (appState (step s u))) = false
  /\ isActive (rightHand (appState (step s u))) = false.

(** Every callback of [us], run from [s], leaves both hands inactive. *)
Fixpoint allInactive (us : list Update) (s : Session) : Prop :=
  match us with
  | [] => True
  | u :: rest => noActiveHand s u /\ allInactive rest (step s u)
  end.

(** What the selector keeps true of a session: a counter that is not
    negative, and for either hand an index of [0, librarySize) that the
    counter has already passed. *)
Definition indexed (s : Session) : Prop :=
  (0 <= fistCount s)%Z
  /\ forall h : Hand,
       (0 <= shapeIndex (handOf h (appState s)) < librarySize)%Z
       /\ (shapeIndex (handOf h (appState s)) <= Z.max 0 (fistCount s - 1))%Z.

(** The average of a list of numbers. *)
Definition average (xs : list R) : R :=
  fold_right Rplus 0 xs / INR (length xs).

(** The x-positions of the hands that are active. *)
Definition activeXs (a : AppState) : list R :=
  map (fun h => vx (position h)) (filter isActive [leftHand a; rightHand a]).

End App.

(** ** [src/components/HandTracker.tsx] *)

(** *** The results callback

    What [hands.onResults] is given and what it hands to [onUpdate].  A
    landmark is an object of which the callback reads [x] and [y]; an entry of
    [multiHandedness] is an object of which it reads [label].  The callback
    throws when it reads a property of [undefined] (an index outside an
    array): it then never reaches [onUpdate]. *)

Module Tracker.

Record Landmark : Type := mkLandmark { lx : R; ly : R }.

Record Results : Type := mkResults {
  multiHandLandmarks : option (list (list Landmark));
  multiHandedness : option (list string)
}.

(** [a[i]] followed by a property access: [None] when [a[i]] is undefined. *)
Definition item {A : Type} (a : list A) (i : nat) : option A := nth_error a i.

Definition andThen {A B : Type} (m : option A) (k : A -> option B) : option B :=
  match m with
  | Some a => k a
  | None => None
  end.

Notation "x <- m ;; k" := (andThen m (fun x => k))
  (at level 61, m at next level, right associativity).

(** [Math.sqrt(Math.pow(tip.x - palmCenter.x, 2) + Math.pow(tip.y - palmCenter.y, 2))] *)
Definition tipDistance (tip palmCenter : Landmark) : R :=
  sqrt ((lx tip - lx palmCenter) ^ 2 + (ly tip - ly palmCenter) ^ 2).

(** [tips.reduce((acc, tip) => acc + ..., 0) / 4] *)
Definition avgDist (tips : list Landmark) (palmCenter : Landmark) : R :=
  fold_left (fun acc tip => acc + tipDistance tip palmCenter) tips 0 / 4.

(** The body of the [forEach] up to the object [handState]. *)
Definition handStateOf (landmarks : list Landmark) : option HandState :=
  wrist <- item landmarks 0 ;;
  palmCenter <- item landmarks 9 ;;
  tip8 <- item landmarks 8 ;;
  tip12 <- item landmarks 12 ;;
  tip16 <- item landmarks 16 ;;
  tip20 <- item landmarks 20 ;;
  let tips := [tip8; tip12; tip16; tip20] in
  let isFist := if Rlt_dec (avgDist tips palmCenter) 0.11 then true else false in
  Some {| isActive := true;
          isFist := isFist;
          position := mkVec3 ((0.5 - lx wrist) * 8.5)
                             ((0.5 - ly wrist) * 6)
                             (if isFist then 0.5 else 0);
          velocity := mkVec2 0 0;
          shapeIndex := 0%Z |}.

(** [results.multiHandLandmarks.forEach((landmarks, index) => ...)] on the
    two variables [leftHand] and [rightHand]. *)
Fixpoint forEachHand (hands : list (list Landmark)) (index : nat)
    (handednesses : list string) (found : option HandState * option HandState)
    : option (option HandState * option HandState) :=
  match hands with
  | [] => Some found
  | landmarks :: rest =>
      handedness <- item handednesses index ;;
      handState <- handStateOf landmarks ;;
      forEachHand rest (S index) handednesses
        (if String.eqb handedness "Left"
         then (Some handState, snd found)
         else (fst found, Some handState))
  end.

(** The callback: the arguments of [onUpdate], or [None] when it throws. *)
Definition onResults (results : Results) : option App.Update :=
  match multiHandLandmarks results, multiHandedness results with
  | Some hands, Some handednesses => forEachHand hands 0 handednesses (None, None)
  | _, _ => Some (None, None)
  end.

(** *** The tracker wired to the application

    [<HandTracker onUpdate={handleHandUpdate} />]: a callback that throws
    leaves the state as it was. *)
Definition deliver (s : App.Session) (results : Results) : App.Session :=
  match onResults results with
  | Some u => App.step s u
  | None => s
  end.

Definition track (rs : list Results) (s : App.Session) : App.Session :=
  fold_left deliver rs s.

(** *** Observing the tracker *)

(** The landmarks the callback reads: 0 the wrist, 9 the palm centre, 8, 12,
    16 and 20 the fingertips. *)
Definition complete (landmarks : list Landmark) : Prop := (21 <= length landmarks)%nat.

(** The hands whose label is ["Left"] ([left = true]), or is not, in the
    order of the results. *)
Definition labelled (left : bool) (hands : list (list Landmark))
    (handednesses : list string) : list (list Landmark) :=
  map snd (filter (fun p => Bool.eqb (String.eqb (fst p) "Left") left)
             (combine handednesses hands)).

(** The same hand elsewhere in the image, and at another size in it. *)
Definition translate (dx dy : R) (landmarks : list Landmark) : list Landmark :=
  map (fun p => mkLandmark (lx p + dx) (ly p + dy)) landmarks.

Definition scale (k : R) (landmarks : list Landmark) : list Landmark :=
  map (fun p => mkLandmark (k * lx p) (k * ly p)) landmarks.

(** The four fingertips and the palm centre of a complete hand. *)
Definition tipsOf (landmarks : list Landmark) : list Landmark :=
  map (fun i => nth i landmarks (mkLandmark 0 0)) [8; 12; 16; 20]%nat.

Definition palmOf (landmarks : list Landmark) : Landmark :=
  nth 9 landmarks (mkLandmark 0 0).

Definition wristOf (landmarks : list Landmark) : Landmark :=
  nth 0 landmarks (mkLandmark 0 0).

(** Whether the callback takes a complete hand for a fist. *)
Definition detectsFist (landmarks : list Landmark) : bool :=
  if Rlt_dec (avgDist (tipsOf landmarks) (palmOf landmarks)) 0.11 then true else false.

(** The hand state of the last hand of a list, [found] if the list is empty. *)
Definition lastHand (found : option HandState) (hands : list (list Landmark))
    : option HandState :=
  fold_left (fun _ landmarks => handStateOf landmarks) hands found.

(** Every wrist of the results lies in the image: MediaPipe's normalized
    coordinates within [0, 1]. *)
Definition wristsInImage (results : Results) : Prop :=
  forall hands landmarks,
    multiHandLandmarks results = Some hands -> In landmarks hands ->
    0 <= lx (wristOf landmarks) <= 1 /\ 0 <= ly (wristOf landmarks) <= 1.

End Tracker.

(** ** [src/components/HologramScene.tsx] *)

Definition PARTICLE_COUNT : nat := 4000.

(** *** The per-hand morph engine *)

Module Scene.

(** *** Typed arrays

    A [Float32Array] is a list of fixed length.  A read [a[i]] and a write
    [a[i] = v] inside the array are [get] and [set]; a write outside the array
    is ignored, as JavaScript does for typed arrays.  A read outside the array
    ([undefined] in JavaScript) has no counterpart among the reals: the
    engine is given buffers of [PARTICLE_COUNT * 3] numbers, and the loops
    stay inside them. *)

Definition get (a : list R) (i : nat) : R := nth i a 0.

Fixpoint set (a : list R) (i : nat) (v : R) : list R :=
  match a, i with
  | [], _ => []
  | _ :: rest, O => v :: rest
  | x :: rest, S j => x :: set rest j v
  end.

(** [for (let i = 0; i < n; i++) body(i)] on the state the body mutates. *)
Fixpoint forLoop {A : Type} (n : nat) (body : nat -> A -> A) (a : A) : A :=
  match n with
  | O => a
  | S m => body m (forLoop m body a)
  end.

(** *** The update rule

    [pos[k] += (target - pos[k]) * s] for one coordinate, in exact
    arithmetic; [Ieee.lerpToward] is the same statement on the numbers of
    the buffer. *)

Definition lerpToward (p t s : R) : R := p + (t - p) * s.

(** The three statements of a loop body, for particle [i]; [target k] is the
    target of coordinate [k] of the buffer. *)
Definition moveParticle (target : nat -> R) (s : R) (i : nat) (pos : list R)
    : list R :=
  let pos1 := set pos (i * 3) (lerpToward (get pos (i * 3)) (target (i * 3)%nat) s) in
  let pos2 := set pos1 (i * 3 + 1) (lerpToward (get pos1 (i * 3 + 1)) (target (i * 3 + 1)%nat) s) in
  set pos2 (i * 3 + 2) (lerpToward (get pos2 (i * 3 + 2)) (target (i * 3 + 2)%nat) s).

(** Locked-shape branch: every particle moves toward its slot of the shape at
    its own speed [lerpSpeeds[i]]. *)
Definition morphToShape (target lerpSpeeds : list R) (pos : list R) : list R :=
  forLoop PARTICLE_COUNT
    (fun i p => moveParticle (get target) (get lerpSpeeds i) i p) pos.

(** Overlay branch: the same toward [textShape], at [lerpSpeeds[i] * 1.5]. *)
Definition morphToText (textShape lerpSpeeds : list R) (pos : list R) : list R :=
  forLoop PARTICLE_COUNT
    (fun i p => moveParticle (get textShape) (get lerpSpeeds i * 1.5) i p) pos.

(** *** The ambient cloud *)

(** [Math.sqrt(Math.pow(dx, 2) + Math.pow(dy, 2))] of the two hand positions:
    the x and y components only. *)
Definition interHandDistance (hand otherHand : HandState) : R :=
  sqrt ((vx (position hand) - vx (position otherHand)) ^ 2
        + (vy (position hand) - vy (position otherHand)) ^ 2).

(** [otherHand.isActive && !otherHand.isFist ? 1.0 + Math.min(dist * 0.5, 3.0) : 1.0] *)
Definition spread (hand otherHand : HandState) : R :=
  let dist := interHandDistance hand otherHand in
  if isActive otherHand && negb (isFist otherHand)
  then 1.0 + Rmin (dist * 0.5) 3.0
  else 1.0.

(** The three statements of the ambient loop body: the live target of
    particle [i] at [time], then a step of factor 0.05 toward it. *)
Definition driftParticle (time spread : R) (i : nat) (pos : list R) : list R :=
  let seed := INR i * 0.42 in
  let tx := sin (seed + time * 0.35) * 1.8 * spread in
  let ty := cos (seed * 0.85 + time * 0.45) * 1.8 * spread in
  let tz := sin (seed * 1.15 + time * 0.25) * 1.2 in
  let driftX := sin (time * 0.15 + seed * 2) * 0.15 in
  let driftY := cos (time * 0.2 + seed * 3) * 0.15 in
  let driftZ := sin (time * 0.1 + seed * 1.5) * 0.15 in
  let pos1 := set pos (i * 3) (get pos (i * 3) + (tx + driftX - get pos (i * 3)) * 0.05) in
  let pos2 := set pos1 (i * 3 + 1)
                (get pos1 (i * 3 + 1) + (ty + driftY - get pos1 (i * 3 + 1)) * 0.05) in
  set pos2 (i * 3 + 2)
    (get pos2 (i * 3 + 2) + (tz + driftZ - get pos2 (i * 3 + 2)) * 0.05).

Definition ambientCloud (time : R) (hand otherHand : HandState) (pos : list R)
    : list R :=
  let spread := spread hand otherHand in
  forLoop PARTICLE_COUNT (fun i p => driftParticle time spread i p) pos.

(** *** The target lookup

    [shapes[hand.shapeIndex % shapes.length]]: [undefined] ([None]) when the
    remainder is negative or the library is empty. *)
Definition lookupShape (shapes : list (list R)) (idx : Z) : option (list R) :=
  match shapes with
  | [] => None
  | _ =>
      let k := Z.rem idx (Z.of_nat (length shapes)) in
      if (k <? 0)%Z then None else nth_error shapes (Z.to_nat k)
  end.

(** *** One hand's engine state

    What [HandParticles] keeps between frames: the position buffer of the
    geometry, the mesh transform and visibility, the material's size and
    opacity, and the two refs. *)
Record Particles : Type := mkParticles {
  pos : list R;
  needsUpdate : bool;
  meshPosition : Vec3;
  rotationY : R;
  visible : bool;
  size : R;
  opacity : R;
  shimmerValue : R;
  prevIsFist : bool
}.

(** The state at mount: a zeroed buffer, the mesh at the origin, the material
    as the JSX gives it, [shimmerValue = 0], [prevIsFist = false]. *)
Definition initialParticles : Particles :=
  {| pos := repeat 0 (PARTICLE_COUNT * 3);
     needsUpdate := false;
     meshPosition := mkVec3 0 0 0;
     rotationY := 0;
     visible := true;
     size := 0.014;
     opacity := 0.85;
     shimmerValue := 0;
     prevIsFist := false |}.

(** What a frame reads: the props and the frame clock.  [refsMounted] is
    [meshRef.current && matRef.current]. *)
Record Frame : Type := mkFrame {
  refsMounted : bool;
  hand : HandState;
  otherHand : HandState;
  isShowingText : bool;
  time : R;
  delta : R
}.

Section HandParticles.

Variable shapes : list (list R).
Variable textShape : list R.
Variable lerpSpeeds : list R.

(** The body of [useFrame] in [HandParticles]. *)
Definition useFrame (f : Frame) (st : Particles) : Particles :=
  if negb (refsMounted f) then st
  else
    let h := hand f in
    let shimmer1 :=
      if isFist h && negb (prevIsFist st) then 1.0 else shimmerValue st in
    let prevIsFist' := isFist h in
    let shimmer2 := Rmax 0 (shimmer1 - delta f * 2.5) in
    let size' := 0.014 * (1.0 + shimmer2 * 1.5) in
    let opacity' := 0.85 + shimmer2 * 0.15 in
    let m := meshPosition st in
    let meshPosition' :=
      mkVec3 (vx m + (vx (position h) - vx m) * 0.15)
             (vy m + (vy (position h) - vy m) * 0.15)
             (vz m + (vz (position h) - vz m) * 0.15) in
    let rotationY' := rotationY st + delta f * 0.4 in
    if negb (isActive h) then
      {| pos := pos st; needsUpdate := needsUpdate st;
         meshPosition := meshPosition'; rotationY := rotationY';
         visible := false;
         size := size'; opacity := opacity';
         shimmerValue := shimmer2; prevIsFist := prevIsFist' |}
    else
      let pos' :=
        if isFist h then
          match lookupShape shapes (shapeIndex h) with
          | Some target => morphToShape target lerpSpeeds (pos st)
          | None => pos st
          end
        else if isShowingText f then morphToText textShape lerpSpeeds (pos st)
        else ambientCloud (time f) h (otherHand f) (pos st) in
      {| pos := pos'; needsUpdate := true;
         meshPosition := meshPosition'; rotationY := rotationY';
         visible := true;
         size := size'; opacity := opacity';
         shimmerValue := shimmer2; prevIsFist := prevIsFist' |}.

(** The engine after a sequence of frames. *)
Definition frames (fs : list Frame) (st : Particles) : Particles :=
  fold_left (fun s f => useFrame f s) fs st.

(** The shimmer a frame leaves, from the shimmer and the fist flag before. *)
Definition nextShimmer (f : Frame) (st : Particles) : R :=
  Rmax 0 ((if isFist (hand f) && negb (prevIsFist st) then 1.0 else shimmerValue st)
          - delta f * 2.5).

(** Frames that run, with no open-to-fist flip of the hand among them. *)
Fixpoint quiet (fs : list Frame) (st : Particles) : Prop :=
  match fs with
  | [] => True
  | f :: rest =>
      refsMounted f = true /\ 0 <= delta f
      /\ isFist (hand f) && negb (prevIsFist st) = false
      /\ quiet rest (useFrame f st)
  end.

End HandParticles.

(** The time the frames of [fs] took. *)
Definition elapsed (fs : list Frame) : R :=
  fold_right (fun f acc => delta f + acc) 0 fs.

(** What the renderer reads is in range whenever the shimmer is. *)
Definition materialInRange (st : Particles) : Prop :=
  0 <= shimmerValue st <= 1
  /\ 0.014 <= size st <= 0.014 * 2.5
  /\ 0.85 <= opacity st <= 1.0.

(** *** One particle, as the update rule sees it *)

(** A step of the rule on the three coordinates of a particle, one factor. *)
Definition stepParticle (p t : Vec3) (s : R) : Vec3 :=
  mkVec3 (lerpToward (vx p) (vx t) s)
         (lerpToward (vy p) (vy t) s)
         (lerpToward (vz p) (vz t) s).

(** Repeated application toward a fixed target. *)
Fixpoint iterParticle (n : nat) (p t : Vec3) (s : R) : Vec3 :=
  match n with
  | O => p
  | S m => stepParticle (iterParticle m p t s) t s
  end.

Definition distance (p q : Vec3) : R :=
  sqrt ((vx p - vx q) ^ 2 + (vy p - vy q) ^ 2 + (vz p - vz q) ^ 2).

(** [x] lies between [a] and [b], whichever is the larger. *)
Definition between (a b x : R) : Prop := Rmin a b <= x <= Rmax a b.

(** Particle [i] of a position buffer. *)
Definition particleAt (buf : list R) (i : nat) : Vec3 :=
  mkVec3 (get buf (i * 3)) (get buf (i * 3 + 1)) (get buf (i * 3 + 2)).

(** *** Observing runs of frames *)

(** Frames that run while the hand keeps one state. *)
Definition heldAt (h : HandState) (fs : list Frame) : Prop :=
  Forall (fun f => refsMounted f = true /\ hand f = h) fs.

(** Two frames that differ at most in [isShowingText], for a hand that is
    out of view or a fist. *)
Definition sameButOverlay (f f' : Frame) : Prop :=
  refsMounted f' = refsMounted f /\ hand f' = hand f /\ otherHand f' = otherHand f
  /\ time f' = time f /\ delta f' = delta f
  /\ (isActive (hand f) = false \/ isFist (hand f) = true).

(** The live target of particle [i] of the ambient cloud: [tx + driftX],
    [ty + driftY], [tz + driftZ]. *)
Definition ambientTarget (time spread : R) (i : nat) : Vec3 :=
  let seed := INR i * 0.42 in
  mkVec3 (sin (seed + time * 0.35) * 1.8 * spread + sin (time * 0.15 + seed * 2) * 0.15)
         (cos (seed * 0.85 + time * 0.45) * 1.8 * spread + cos (time * 0.2 + seed * 3) * 0.15)
         (sin (seed * 1.15 + time * 0.25) * 1.2 + sin (time * 0.1 + seed * 1.5) * 0.15).

(** Every particle of a buffer within the box of half-widths [b]. *)
Definition withinBox (b : Vec3) (buf : list R) : Prop :=
  forall j : nat, (j < PARTICLE_COUNT)%nat ->
    Rabs (vx (particleAt buf j)) <= vx b
    /\ Rabs (vy (particleAt buf j)) <= vy b
    /\ Rabs (vz (particleAt buf j)) <= vz b.

End Scene.

(** *** The overlay timer

    The effect of [HologramScene] and the timers it sets, on a virtual clock
    in milliseconds: the host keeps a queue of timers and runs the callback
    of a timer at the instant the timer is due. *)

Module Overlay.

(** The two functions handed to [setTimeout]: the one that shows the text and
    the one that hides it and calls [trigger]. *)
Inductive Callback : Type := ShowText | HideText.

Record Host : Type := mkHost {
  now : R;
  isShowingText : bool;
  timers : list (R * Callback);
  drawn : nat
}.

Section Scheduler.

(** The numbers [Math.random()] gives, in the order of the calls. *)
Variable rnd : nat -> R.

Definition setTimeout (cb : Callback) (delay : R) (h : Host) : Host :=
  {| now := now h;
     isShowingText := isShowingText h;
     timers := timers h ++ [(now h + delay, cb)];
     drawn := drawn h |}.

Definition setIsShowingText (b : bool) (h : Host) : Host :=
  {| now := now h; isShowingText := b; timers := timers h; drawn := drawn h |}.

(** [15000 + Math.random() * 30000] *)
Definition delayOf (r : R) : R := 15000 + r * 30000.

Definition trigger (h : Host) : Host :=
  let delay := delayOf (rnd (drawn h)) in
  setTimeout ShowText delay
    {| now := now h; isShowingText := isShowingText h; timers := timers h;
       drawn := S (drawn h) |}.

Definition runCallback (cb : Callback) (h : Host) : Host :=
  match cb with
  | ShowText => setTimeout HideText 3000 (setIsShowingText true h)
  | HideText => trigger (setIsShowingText false h)
  end.

(** The timer that is due first (the one set first, among equals) and the
    others. *)
Fixpoint nextTimer (ts : list (R * Callback))
    : option ((R * Callback) * list (R * Callback)) :=
  match ts with
  | [] => None
  | t :: rest =>
      match nextTimer rest with
      | None => Some (t, [])
      | Some (u, others) =>
          if Rle_dec (fst t) (fst u) then Some (t, rest)
          else Some (u, t :: others)
      end
  end.

(** The host runs the next timer: the clock moves to the instant it is due. *)
Definition fire (h : Host) : Host :=
  match nextTimer (timers h) with
  | None => h
  | Some ((due, cb), others) =>
      runCallback cb
        {| now := Rmax (now h) due; isShowingText := isShowingText h;
           timers := others; drawn := drawn h |}
  end.

(** The effect, run once at the instant [t0] of the mount. *)
Definition mount (t0 : R) : Host :=
  trigger {| now := t0; isShowingText := false; timers := []; drawn := 0 |}.

(** The host after [n] timers have run. *)
Fixpoint after (n : nat) (t0 : R) : Host :=
  match n with
  | O => mount t0
  | S m => fire (after m t0)
  end.

(** The instants at which the text is shown for the k-th time (from 0) and
    hidden again. *)
Definition shownAt (k : nat) (t0 : R) : R := now (after (2 * k + 1) t0).
Definition hiddenAt (k : nat) (t0 : R) : R := now (after (2 * k + 2) t0).

(** The instant at which the timer of the k-th wait is set: the mount, or
    the end of the window before. *)
Definition armedAt (k : nat) (t0 : R) : R := now (after (2 * k) t0).

(** The host between two windows: the text hidden, one timer, which will
    show it. *)
Definition idle (k : nat) (h : Host) : Prop :=
  isShowingText h = false
  /\ timers h = [(now h + delayOf (rnd k), ShowText)]
  /\ drawn h = S k.

(** The host during a window: the text shown, one timer, which will hide
    it. *)
Definition showing (k : nat) (h : Host) : Prop :=
  isShowingText h = true
  /\ timers h = [(now h + 3000, HideText)]
  /\ drawn h = S k.

End Scheduler.

End Overlay.

(** ** The update rules on the machine's numbers

    The statements of [App.tsx] and [HologramScene.tsx] that move the orbit,
    an anchor and a particle, on binary64 numbers as JavaScript evaluates
    them: every operation rounds to the nearest number, ties to even, and a
    decimal literal is the binary64 number nearest to it. *)

Set Warnings "-inexact-float".

Module Ieee.

Import PrimFloat.
#[local] Open Scope float_scope.

(** A store into a [Float32Array], [Math.fround]: the binary32 number
    nearest to a binary64 number, ties to even. *)
Definition fround (x : float) : float :=
  match FloatOps.Prim2SF x with
  | SpecFloat.S754_finite s m e =>
      FloatOps.SF2Prim (SpecFloat.binary_round 24 128 s m e)
  | _ => x
  end.

(** A read [a[i]] of a typed array; outside it, [undefined], which
    arithmetic turns into [NaN]. *)
Definition get (a : list float) (i : nat) : float := nth i a nan.

Fixpoint set (a : list float) (i : nat) (v : float) : list float :=
  match a, i with
  | [], _ => []
  | _ :: rest, O => v :: rest
  | x :: rest, S j => x :: set rest j v
  end.

(** [pos[k] += (target - pos[k]) * s] on a [Float32Array]: the right-hand
    side in binary64, the store in binary32. *)
Definition lerpToward (p t s : float) : float := fround (p + (t - p) * s).

(** The three statements of the loop body of the locked-shape branch. *)
Definition moveParticle (target : nat -> float) (s : float) (i : nat)
    (pos : list float) : list float :=
  let pos1 := set pos (i * 3) (lerpToward (get pos (i * 3)) (target (i * 3)%nat) s) in
  let pos2 := set pos1 (i * 3 + 1) (lerpToward (get pos1 (i * 3 + 1)) (target (i * 3 + 1)%nat) s) in
  set pos2 (i * 3 + 2) (lerpToward (get pos2 (i * 3 + 2)) (target (i * 3 + 2)%nat) s).

(** The loop of the locked-shape branch. *)
Definition morphToShape (target lerpSpeeds : list float) (pos : list float)
    : list float :=
  Scene.forLoop PARTICLE_COUNT
    (fun i p => moveParticle (get target) (get lerpSpeeds i) i p) pos.

(** [meshRef.current.position.x += (hand.position.x - meshRef.current.position.x) * 0.15]:
    a coordinate of the anchor, a binary64 field of a three.js vector. *)
Definition follow (m h : float) : float := m + (h - m) * 0.15.

(** The orbit part of the updater of [handleHandUpdate]; a hand is given by
    its [isActive] and its [position.x]. *)
Definition nextOrbit (leftActive : bool) (leftX : float)
    (rightActive : bool) (rightX : float) (prevOrbit : float) : float :=
  let targetOrbit0 := 0 in
  let activeCount0 := 0 in
  let '(targetOrbit1, activeCount1) :=
    if leftActive then (targetOrbit0 + leftX, activeCount0 + 1)
    else (targetOrbit0, activeCount0) in
  let '(targetOrbit2, activeCount2) :=
    if rightActive then (targetOrbit1 + rightX, activeCount1 + 1)
    else (targetOrbit1, activeCount1) in
  if 0 <? activeCount2 then
    let targetOrbit3 := targetOrbit2 / activeCount2 in
    prevOrbit * 0.94 + (targetOrbit3 * 0.4) * 0.06
  else
    prevOrbit * 0.96.

(** A callback that finds no hand, and one that finds the left hand at [x]. *)
Definition idle (prevOrbit : float) : float := nextOrbit false 0 false 0 prevOrbit.

Definition leftAt (x : float) (prevOrbit : float) : float :=
  nextOrbit true x false 0 prevOrbit.

(** [n] runs of a statement. *)
Definition times {A : Type} (n : N) (f : A -> A) (a : A) : A := N.iter n f a.

(** Whether each of [n] runs of [f], from [a] on, gives a larger number;
    a smaller one. *)
Definition rising (n : N) (f : float -> float) (a : float) : bool :=
  snd (N.iter n (fun '(x, ok) => (f x, ok && (x <? f x))) (a, true)).

Definition falling (n : N) (f : float -> float) (a : float) : bool :=
  snd (N.iter n (fun '(x, ok) => (f x, ok && (f x <? x))) (a, true)).

(** Particle [i] of a position buffer. *)
Definition particleAt (buf : list float) (i : nat) : float * float * float :=
  (get buf (i * 3), get buf (i * 3 + 1), get buf (i * 3 + 2)).

End Ieee.

Set Warnings "inexact-float".

(** *** The scene group

    The [useFrame] of [HologramScene]: the rotation of the group that holds
    the two particle systems, set from the orbit on every frame once
    [groupRef.current] is there. *)

Module Group.

Record Rotation : Type := mkRotation { rotX : R; rotY : R }.

Definition useFrame (mounted : bool) (appState : AppState) (rotation : Rotation)
    : Rotation :=
  if mounted then
    let rotation1 := mkRotation (rotX rotation) (cameraOrbit appState * 0.5) in
    mkRotation (- Rabs (cameraOrbit appState) * 0.1) (rotY rotation1)
  else rotation.

(** What the scene holds between frames: the two particle systems and the
    rotation of the group. *)
Record Stage : Type := mkStage {
  leftParticles : Scene.Particles;
  rightParticles : Scene.Particles;
  rotation : Rotation
}.

(** One rendered frame of [HologramScene], every ref in place: the left
    system is given the left hand as [hand] and the right hand as
    [otherHand], the right system the two the other way round; both are
    given the same library, glyph shape and overlay flag, and each has the
    speeds of its own memo. *)
Definition renderFrame (shapes : list (list R)) (textShape : list R)
    (leftSpeeds rightSpeeds : list R) (appState : AppState)
    (isShowingText : bool) (time delta : R) (stage : Stage) : Stage :=
  {| leftParticles :=
       Scene.useFrame shapes textShape leftSpeeds
         (Scene.mkFrame true (leftHand appState) (rightHand appState)
            isShowingText time delta)
         (leftParticles stage);
     rightParticles :=
       Scene.useFrame shapes textShape rightSpeeds
         (Scene.mkFrame true (rightHand appState) (leftHand appState)
            isShowingText time delta)
         (rightParticles stage);
     rotation := useFrame true appState (rotation stage) |}.

End Group.

(** *** The shape library

    The generators fill a [Float32Array] with what JavaScript arithmetic
    gives, so a number here is a real or one of the three special values.
    The operations are exact on reals and follow IEEE-754 where a special
    value comes in or goes out (a division by zero, a square root of a
    negative number, [undefined] stored in a typed array).  Rounding, overflow
    and the sign of zero are not modelled. *)

Module Library.

Inductive num : Type :=
| Fin (r : R)
| PosInf
| NegInf
| NaN.

Declare Scope js_scope.
Delimit Scope js_scope with js.
Bind Scope js_scope with num.

Coercion Fin : R >-> num.

Definition ofNat (n : nat) : num := Fin (INR n).
Coercion ofNat : nat >-> num.

Definition infinity (positive : bool) : num := if positive then PosInf else NegInf.

Definition isPositive (a : R) : bool := if Rlt_dec 0 a then true else false.

Definition neg (x : num) : num :=
  match x with
  | Fin a => Fin (- a)
  | PosInf => NegInf
  | NegInf => PosInf
  | NaN => NaN
  end.

Definition add (x y : num) : num :=
  match x, y with
  | Fin a, Fin b => Fin (a + b)
  | NaN, _ | _, NaN => NaN
  | PosInf, NegInf | NegInf, PosInf => NaN
  | PosInf, _ | _, PosInf => PosInf
  | NegInf, _ | _, NegInf => NegInf
  end.

Definition sub (x y : num) : num := add x (neg y).

(** The sign of a nonzero number: [None] for zero and for [NaN]. *)
Definition signOf (x : num) : option bool :=
  match x with
  | Fin a => if Req_dec_T a 0 then None else Some (isPositive a)
  | PosInf => Some true
  | NegInf => Some false
  | NaN => None
  end.

Definition mul (x y : num) : num :=
  match x, y with
  | Fin a, Fin b => Fin (a * b)
  | NaN, _ | _, NaN => NaN
  | _, _ =>
      match signOf x, signOf y with
      | Some s, Some t => infinity (Bool.eqb s t)
      | _, _ => NaN
      end
  end.

Definition div (x y : num) : num :=
  match x, y with
  | NaN, _ | _, NaN => NaN
  | Fin a, Fin b =>
      if Req_dec_T b 0 then
        match signOf x with Some s => infinity s | None => NaN end
      else Fin (a / b)
  | Fin _, _ => Fin 0
  | _, Fin b =>
      match signOf x with
      | Some s => infinity (Bool.eqb s (if Req_dec_T b 0 then true else isPositive b))
      | None => NaN
      end
  | _, _ => NaN
  end.

Definition ltb (x y : num) : bool :=
  match x, y with
  | Fin a, Fin b => if Rlt_dec a b then true else false
  | NaN, _ | _, NaN => false
  | PosInf, _ | _, NegInf => false
  | NegInf, _ | _, PosInf => true
  end.

Definition gtb (x y : num) : bool := ltb y x.

(** [===] on numbers. *)
Definition eqb (x y : num) : bool :=
  match x, y with
  | Fin a, Fin b => if Req_dec_T a b then true else false
  | PosInf, PosInf | NegInf, NegInf => true
  | _, _ => false
  end.

Notation "x + y" := (add x y) : js_scope.
Notation "x - y" := (sub x y) : js_scope.
Notation "x * y" := (mul x y) : js_scope.
Notation "x / y" := (div x y) : js_scope.
Notation "- x" := (neg x) : js_scope.
Notation "x < y" := (ltb x y) : js_scope.
Notation "x > y" := (gtb x y) : js_scope.
Notation "x === y" := (eqb x y) (at level 70, no associativity) : js_scope.

(** *** [Math] *)

Module Math.

Definition PI : num := Fin Rtrigo1.PI.

Definition sin (x : num) : num :=
  match x with Fin a => Fin (Rtrigo_def.sin a) | _ => NaN end.

Definition cos (x : num) : num :=
  match x with Fin a => Fin (Rtrigo_def.cos a) | _ => NaN end.

Definition exp (x : num) : num :=
  match x with
  | Fin a => Fin (Rtrigo_def.exp a)
  | PosInf => PosInf
  | NegInf => Fin 0
  | NaN => NaN
  end.

Definition sqrt (x : num) : num :=
  match x with
  | Fin a => if Rlt_dec a 0 then NaN else Fin (R_sqrt.sqrt a)
  | PosInf => PosInf
  | _ => NaN
  end.

Definition abs (x : num) : num :=
  match x with
  | Fin a => Fin (Rabs a)
  | NaN => NaN
  | _ => PosInf
  end.

Definition max (x y : num) : num :=
  match x, y with
  | NaN, _ | _, NaN => NaN
  | _, _ => if ltb x y then y else x
  end.

Definition floor (x : num) : num :=
  match x with
  | Fin a => Fin (IZR (Zfloor a))
  | _ => x
  end.

(** [Math.pow(x, n)] for a literal exponent [n] that is a natural number. *)
Fixpoint pow (x : num) (n : nat) : num :=
  match n with
  | O => Fin 1
  | S m => mul x (pow x m)
  end.

End Math.

(** A number used as an array index or compared with a loop counter: the
    natural number it is, if it is one. *)
Definition asIndex (x : num) : option nat :=
  match x with
  | Fin a =>
      if Req_dec_T a (IZR (Zfloor a)) then
        if (0 <=? Zfloor a)%Z then Some (Z.to_nat (Zfloor a)) else None
      else None
  | _ => None
  end.

(** *** Typed arrays of numbers *)

Definition Float32Array (n : nat) : list num := repeat (Fin 0) n.

(** A read outside the array is [undefined], which arithmetic and typed-array
    stores turn into [NaN]. *)
Definition get (a : list num) (i : nat) : num := nth i a NaN.

Fixpoint set (a : list num) (i : nat) (v : num) : list num :=
  match a, i with
  | [], _ => []
  | _ :: rest, O => v :: rest
  | x :: rest, S j => x :: set rest j v
  end.

(** *** Computations that draw random numbers

    A computation reads [Math.random()] from a stream of draws, counting how
    many it has taken; it returns a value or it does not return ([None]): it
    throws (a property of [undefined] is read) or it runs out of the steps it
    was given. *)

Definition Gen (A : Type) : Type := (nat -> R) -> nat -> option (A * nat).

Definition ret {A : Type} (a : A) : Gen A := fun _ c => Some (a, c).

Definition bind {A B : Type} (m : Gen A) (k : A -> Gen B) : Gen B :=
  fun rnd c =>
    match m rnd c with
    | Some (a, c') => k a rnd c'
    | None => None
    end.

Definition noReturn {A : Type} : Gen A := fun _ _ => None.

Notation "x <- m ;; k" := (bind m (fun x => k))
  (at level 61, m at next level, right associativity).
Notation "' pat <- m ;; k" := (bind m (fun x => match x with pat => k end))
  (at level 61, pat pattern, m at next level, right associativity).

Module MathRandom.
(** [Math.random()] *)
Definition random : Gen num := fun rnd c => Some (Fin (rnd c), S c).
End MathRandom.

(** [a[i]] followed by a property access: throws when [a[i]] is undefined. *)
Definition item {A : Type} (a : list A) (i : nat) : Gen A :=
  match nth_error a i with
  | Some v => ret v
  | None => noReturn
  end.

(** [for (let i = 0; i < n; i++) body(i)] on the state the body mutates. *)
Fixpoint forLoop {S : Type} (n : nat) (body : nat -> S -> Gen S) (s : S) : Gen S :=
  match n with
  | O => ret s
  | Datatypes.S m => s' <- forLoop m body s ;; body m s'
  end.

(** [while (cond) body], cut off after [fuel] tests of the condition. *)
Fixpoint whileLoop {S : Type} (fuel : nat) (cond : S -> bool) (body : S -> Gen S)
    (s : S) : Gen S :=
  match fuel with
  | O => noReturn
  | Datatypes.S f =>
      if cond s then s' <- body s ;; whileLoop f cond body s'
      else ret s
  end.

(** [Array.from({ length: n }, f)] *)
Fixpoint arrayFrom {A : Type} (n : nat) (f : Gen A) : Gen (list A) :=
  match n with
  | O => ret []
  | Datatypes.S m => a <- f ;; rest <- arrayFrom m f ;; ret (a :: rest)
  end.

(** *** three.js, as far as the generators use it

    The library is not part of the repository: its geometries, rotations and
    vector operations are an interface. *)

Record Vector3 : Type := mkVector3 { x3 : num; y3 : num; z3 : num }.

Inductive Geometry : Type :=
| IcosahedronGeometry (radius : num) (detail : nat)
| TorusGeometry (radius tube : num) (radialSegments tubularSegments : nat)
| BoxGeometry (width height depth : num) (widthSegments heightSegments depthSegments : nat)
| DodecahedronGeometry (radius : num) (detail : nat)
| TorusKnotGeometry (radius tube : num) (tubularSegments radialSegments : nat)
| SphereGeometry (radius : num) (widthSegments heightSegments : nat)
| CapsuleGeometry (radius height : num) (capSegments radialSegments : nat)
| OctahedronGeometry (radius : num) (detail : nat).

Class Three : Type := {
  (** [geometry.attributes.position.array] *)
  positionArray : Geometry -> list num;
  (** [v.applyEuler(new THREE.Euler(a, b, c))] *)
  applyEuler : Vector3 -> num -> num -> num -> Vector3;
  (** [v.applyAxisAngle(axis, angle)] *)
  applyAxisAngle : Vector3 -> Vector3 -> num -> Vector3;
  (** [v.normalize()] *)
  normalize : Vector3 -> Vector3;
  (** [v.add(w)] *)
  addVectors : Vector3 -> Vector3 -> Vector3;
  (** [v.multiplyScalar(s)] *)
  multiplyScalar : Vector3 -> num -> Vector3;
  (** [THREE.MathUtils.lerp(x, y, t)] *)
  lerp : num -> num -> num -> num
}.

(** *** What the generators promise of a buffer *)

Definition isFinite (v : num) : Prop := exists r : R, v = Fin r.

Definition finiteVector (v : Vector3) : Prop :=
  isFinite (x3 v) /\ isFinite (y3 v) /\ isFinite (z3 v).

(** *** The generators *)

(** Three stores in a row: [pts[idx] = a; pts[idx + 1] = b; pts[idx + 2] = c]. *)
Definition store3 (pts : list num) (idx : nat) (a b c : num) : list num :=
  set (set (set pts idx a) (idx + 1) b) (idx + 2) c.

Section Generators.

Context {three : Three}.

Local Open Scope js_scope.

Import Math MathRandom.

Definition getMeshPoints (geometry : Geometry) : Gen (list num) :=
  let pos := positionArray geometry in
  let count := (length pos / 3)%nat in
  let result := Float32Array (PARTICLE_COUNT * 3) in
  forLoop PARTICLE_COUNT (fun i result =>
    let idx := ((i mod count) * 3)%nat in
    ret (store3 result (i * 3) (get pos idx) (get pos (idx + 1)) (get pos (idx + 2))))
    result.

Definition generateCrystalline : Gen (list num) :=
  let pts := Float32Array (PARTICLE_COUNT * 3) in
  let layers := 3%nat in
  forLoop layers (fun l pts =>
    let scale := 0.4 + l * 0.25 in
    let geom := IcosahedronGeometry scale 1 in
    let layerPts := positionArray geom in
    forLoop (PARTICLE_COUNT / layers) (fun p pts =>
      let idx := ((l * (PARTICLE_COUNT / layers) + p) * 3)%nat in
      let srcIdx := ((p mod (length layerPts / 3)) * 3)%nat in
      ret (store3 pts idx (get layerPts srcIdx) (get layerPts (srcIdx + 1))
             (get layerPts (srcIdx + 2))))
      pts)
    pts.

Definition generateOrbitingRings : Gen (list num) :=
  let pts := Float32Array (PARTICLE_COUNT * 3) in
  forLoop 5 (fun r pts =>
    let radius := 0.3 + r * 0.15 in
    let tilt := r * (PI / 5) in
    let per := (PARTICLE_COUNT / 5)%nat in
    forLoop per (fun p pts =>
      let idx := ((r * per + p) * 3)%nat in
      let t := (p / per) * PI * 2 in
      let vec := applyEuler (mkVector3 (cos t * radius) (sin t * radius) 0)
                   tilt (tilt * 0.5) 0 in
      ret (store3 pts idx (x3 vec) (y3 vec) (z3 vec)))
      pts)
    pts.

Definition generateDoubleHelix : Gen (list num) :=
  let pts := Float32Array (PARTICLE_COUNT * 3) in
  forLoop PARTICLE_COUNT (fun i pts =>
    let t := (i / PARTICLE_COUNT) * PI * 10 in
    let strand : num := if (i mod 2 =? 0)%nat then 1 else -1 in
    ret (store3 pts (i * 3)
           (cos (t + (if strand === 1 then 0 else PI)) * 0.4)
           ((i / PARTICLE_COUNT) * 1.6 - 0.8)
           (sin (t + (if strand === 1 then 0 else PI)) * 0.4)))
    pts.

Definition generateMechanical : Gen (list num) :=
  let pts := Float32Array (PARTICLE_COUNT * 3) in
  forLoop 3 (fun g pts =>
    let r := 0.4 + g * 0.1 in
    let per := (PARTICLE_COUNT / 3)%nat in
    forLoop per (fun p pts =>
      let idx := ((g * per + p) * 3)%nat in
      let t := (p / per) * PI * 2 in
      let cog : num := if sin (t * 12) > 0 then 0.05 else 0 in
      ret (store3 pts idx (cos t * (r + cog)) (sin t * (r + cog)) ((g - 1) * 0.2)))
      pts)
    pts.

(** The loop over [z] is left by [break] once the buffer is full, and the
    innermost loop runs while [count < PARTICLE_COUNT]: a body that finds the
    buffer full does nothing. *)
Definition generateFractalLattice : Gen (list num) :=
  let pts := Float32Array (PARTICLE_COUNT * 3) in
  let count := 0%nat in
  '(pts, _) <-
    forLoop 6 (fun x st =>
      forLoop 6 (fun y st =>
        forLoop 6 (fun z st =>
          forLoop 18 (fun k '(pts, count) =>
            if (count <? PARTICLE_COUNT)%nat then
              r1 <- random ;;
              let pts := set pts (count * 3) ((x - 3) * 0.3 + (r1 - 0.5) * 0.05) in
              r2 <- random ;;
              let pts := set pts (count * 3 + 1) ((y - 3) * 0.3 + (r2 - 0.5) * 0.05) in
              r3 <- random ;;
              let pts := set pts (count * 3 + 2) ((z - 3) * 0.3 + (r3 - 0.5) * 0.05) in
              ret (pts, S count)
            else ret (pts, count))
            st)
          st)
        st)
      (pts, count) ;;
  ret pts.

Definition generateVortex : Gen (list num) :=
  let pts := Float32Array (PARTICLE_COUNT * 3) in
  forLoop PARTICLE_COUNT (fun i pts =>
    let t := (i / PARTICLE_COUNT) * PI * 40 in
    let r := (i / PARTICLE_COUNT) * 0.8 in
    ret (store3 pts (i * 3) (cos t * r) (sin t * r) ((i / PARTICLE_COUNT) * 1.8 - 0.9)))
    pts.

(** [new THREE.Vector3((Math.random() - 0.5) * a, (Math.random() - 0.5) * b,
    (Math.random() - 0.5) * c)] *)
Definition randomVector (a b c : num) : Gen Vector3 :=
  r1 <- random ;;
  r2 <- random ;;
  r3 <- random ;;
  ret (mkVector3 ((r1 - 0.5) * a) ((r2 - 0.5) * b) ((r3 - 0.5) * c)).

Definition generateMolecule : Gen (list num) :=
  let pts := Float32Array (PARTICLE_COUNT * 3) in
  centers <- arrayFrom 15 (randomVector 1.5 1.5 1.5) ;;
  forLoop 15 (fun a pts =>
    let per := (PARTICLE_COUNT / 15)%nat in
    forLoop per (fun p pts =>
      let idx := ((a * per + p) * 3)%nat in
      let r : num := 0.12 in
      r1 <- random ;;
      let phi := r1 * PI * 2 in
      r2 <- random ;;
      let theta := r2 * PI in
      c <- item centers a ;;
      ret (store3 pts idx
             (x3 c + r * sin theta * cos phi)
             (y3 c + r * sin theta * sin phi)
             (z3 c + r * cos theta)))
      pts)
    pts.

Definition generateCityscape : Gen (list num) :=
  let pts := Float32Array (PARTICLE_COUNT * 3) in
  forLoop 25 (fun b pts =>
    r1 <- random ;;
    let bx := (r1 - 0.5) * 1.4 in
    r2 <- random ;;
    let bz := (r2 - 0.5) * 1.4 in
    r3 <- random ;;
    let h := 0.3 + r3 * 1.2 in
    r4 <- random ;;
    let w := 0.1 + r4 * 0.15 in
    let per := (PARTICLE_COUNT / 25)%nat in
    forLoop per (fun p pts =>
      let idx := ((b * per + p) * 3)%nat in
      r5 <- random ;;
      let pts := set pts (idx + 1) (r5 * h - 0.8) in
      r6 <- random ;;
      let side := floor (r6 * 4) in
      if side === 0 then
        let pts := set pts idx (bx - w / 2) in
        r7 <- random ;;
        ret (set pts (idx + 2) (bz + (r7 - 0.5) * w))
      else if side === 1 then
        let pts := set pts idx (bx + w / 2) in
        r7 <- random ;;
        ret (set pts (idx + 2) (bz + (r7 - 0.5) * w))
      else if side === 2 then
        r7 <- random ;;
        let pts := set pts idx (bx + (r7 - 0.5) * w) in
        ret (set pts (idx + 2) (bz - w / 2))
      else
        r7 <- random ;;
        let pts := set pts idx (bx + (r7 - 0.5) * w) in
        ret (set pts (idx + 2) (bz + w / 2)))
      pts)
    pts.

Definition generateSacredGeometry : Gen (list num) :=
  let pts := Float32Array (PARTICLE_COUNT * 3) in
  forLoop 12 (fun n pts =>
    let angle := (n / 12) * PI * 2 in
    let r : num := 0.6 in
    let per := (PARTICLE_COUNT / 12)%nat in
    forLoop per (fun p pts =>
      let idx := ((n * per + p) * 3)%nat in
      let t := (p / per) * PI * 2 in
      ret (store3 pts idx
             (cos angle * r + cos t * 0.2)
             (sin angle * r + sin t * 0.2)
             (sin (t * 3) * 0.1)))
      pts)
    pts.

(** The corners of a cube, as the arrays of three numbers of the source. *)
Definition cubeCorners : list (list num) :=
  [ [Fin (-1); Fin (-1); Fin (-1)]; [Fin 1; Fin (-1); Fin (-1)];
    [Fin 1; Fin 1; Fin (-1)]; [Fin (-1); Fin 1; Fin (-1)];
    [Fin (-1); Fin (-1); Fin 1]; [Fin 1; Fin (-1); Fin 1];
    [Fin 1; Fin 1; Fin 1]; [Fin (-1); Fin 1; Fin 1] ].

(** The [break] leaves the loop over [p]: a body that finds the buffer full
    does nothing. *)
Definition generateTesseract : Gen (list num) :=
  let pts := Float32Array (PARTICLE_COUNT * 3) in
  let v := cubeCorners in
  let count := 0%nat in
  '(pts, _) <-
    forLoop 8 (fun i st =>
      let per := (PARTICLE_COUNT / 8)%nat in
      forLoop per (fun p '(pts, count) =>
        if (PARTICLE_COUNT <=? count)%nat then ret (pts, count)
        else
          let t := p / per in
          vi <- item v i ;;
          ret (store3 pts (count * 3)
                 (lerp (get vi 0 * 0.3) (get vi 0 * 0.7) t)
                 (lerp (get vi 1 * 0.3) (get vi 1 * 0.7) t)
                 (lerp (get vi 2 * 0.3) (get vi 2 * 0.7) t),
               S count))
        st)
      (pts, count) ;;
  ret pts.

Definition generateNeuralNetwork : Gen (list num) :=
  let pts := Float32Array (PARTICLE_COUNT * 3) in
  nodes <- arrayFrom 25 (randomVector 1.6 1.6 1.6) ;;
  forLoop PARTICLE_COUNT (fun i pts =>
    n1 <- item nodes (i mod length nodes) ;;
    n2 <- item nodes ((i + 3) mod length nodes) ;;
    t <- random ;;
    ret (store3 pts (i * 3)
           (lerp (x3 n1) (x3 n2) t)
           (lerp (y3 n1) (y3 n2) t)
           (lerp (z3 n1) (z3 n2) t)))
    pts.

Definition generateDigitalSingularity : Gen (list num) :=
  let pts := Float32Array (PARTICLE_COUNT * 3) in
  forLoop PARTICLE_COUNT (fun i pts =>
    if i < PARTICLE_COUNT * 0.7 then
      r1 <- random ;;
      let r := 0.05 + r1 * 0.1 in
      r2 <- random ;;
      let phi := r2 * PI * 2 in
      r3 <- random ;;
      let theta := r3 * PI in
      ret (store3 pts (i * 3)
             (r * sin theta * cos phi)
             (r * sin theta * sin phi)
             (r * cos theta))
    else
      r1 <- random ;;
      let r := 0.2 + r1 * 1.2 in
      r2 <- random ;;
      let angle := r2 * PI * 2 in
      r3 <- random ;;
      ret (store3 pts (i * 3) (cos angle * r) (sin angle * r) ((r3 - 0.5) * 0.05)))
    pts.

Definition generateCyberEye : Gen (list num) :=
  let pts := Float32Array (PARTICLE_COUNT * 3) in
  forLoop PARTICLE_COUNT (fun i pts =>
    let layer := (i mod 3)%nat in
    if (layer =? 0)%nat then
      r1 <- random ;;
      let r := 0.4 + r1 * 0.2 in
      r2 <- random ;;
      let t := r2 * PI * 2 in
      ret (store3 pts (i * 3)
             (cos t * r) (sin t * r) (sqrt (max 0 (0.64 - r * r)) - 0.4))
    else
      r1 <- random ;;
      let phi := r1 * PI * 2 in
      r2 <- random ;;
      let theta := r2 * PI * 0.5 in
      let r : num := 0.8 in
      ret (store3 pts (i * 3)
             (r * sin theta * cos phi)
             (r * sin theta * sin phi)
             (r * cos theta - 0.4)))
    pts.

Definition generateCrystallineFlower : Gen (list num) :=
  let pts := Float32Array (PARTICLE_COUNT * 3) in
  forLoop PARTICLE_COUNT (fun i pts =>
    let t := (i / PARTICLE_COUNT) * PI * 2 in
    let petals : num := 6 in
    let r := 0.3 + 0.5 * abs (cos (t * petals / 2)) in
    ret (store3 pts (i * 3) (cos t * r) (sin t * r) (sin (t * petals) * 0.1)))
    pts.

Definition generateInterferenceWave : Gen (list num) :=
  let pts := Float32Array (PARTICLE_COUNT * 3) in
  forLoop PARTICLE_COUNT (fun i pts =>
    r1 <- random ;;
    let x := (r1 - 0.5) * 2 in
    r2 <- random ;;
    let z := (r2 - 0.5) * 2 in
    let r := sqrt (x * x + z * z) in
    let y := sin (r * 10) * 0.3 * exp (- r) in
    ret (store3 pts (i * 3) x y z))
    pts.

Definition generateVoxelMonolith : Gen (list num) :=
  let pts := Float32Array (PARTICLE_COUNT * 3) in
  forLoop PARTICLE_COUNT (fun i pts =>
    r1 <- random ;;
    r2 <- random ;;
    r3 <- random ;;
    ret (store3 pts (i * 3) ((r1 - 0.5) * 0.6) ((r2 - 0.5) * 1.4) ((r3 - 0.5) * 0.3)))
    pts.

Definition generateRibbonSpiral : Gen (list num) :=
  let pts := Float32Array (PARTICLE_COUNT * 3) in
  forLoop PARTICLE_COUNT (fun i pts =>
    let t := (i / PARTICLE_COUNT) * PI * 8 in
    let r : num := 0.5 in
    r1 <- random ;;
    let off := (r1 - 0.5) * 0.2 in
    ret (store3 pts (i * 3) (cos t * (r + off)) (t * 0.1 - 1.2) (sin t * (r + off))))
    pts.

Definition generateGeometricGeode : Gen (list num) :=
  let pts := Float32Array (PARTICLE_COUNT * 3) in
  forLoop PARTICLE_COUNT (fun i pts =>
    r <- (if i < PARTICLE_COUNT * 0.5 then ret (Fin 0.8)
          else r0 <- random ;; ret (0.4 + r0 * 0.2)) ;;
    r1 <- random ;;
    let phi := r1 * PI * 2 in
    r2 <- random ;;
    let theta := r2 * PI in
    ret (store3 pts (i * 3)
           (r * sin theta * cos phi)
           (r * sin theta * sin phi)
           (r * cos theta)))
    pts.

Definition generateQuantumEntanglement : Gen (list num) :=
  let pts := Float32Array (PARTICLE_COUNT * 3) in
  forLoop PARTICLE_COUNT (fun i pts =>
    let side : num :=
      if i < PARTICLE_COUNT * 0.4 then -1
      else if i < PARTICLE_COUNT * 0.8 then 1 else 0 in
    if negb (side === 0) then
      r1 <- random ;;
      let r := r1 * 0.3 in
      r2 <- random ;;
      let p := r2 * PI * 2 in
      r3 <- random ;;
      let t := r3 * PI in
      ret (store3 pts (i * 3)
             (side * 0.7 + r * sin t * cos p)
             (r * sin t * sin p)
             (r * cos t))
    else
      r1 <- random ;;
      let t := (r1 - 0.5) * 1.4 in
      ret (store3 pts (i * 3) t (sin (t * 10) * 0.1) (cos (t * 10) * 0.1)))
    pts.

Definition generateStarGate : Gen (list num) :=
  let pts := Float32Array (PARTICLE_COUNT * 3) in
  forLoop PARTICLE_COUNT (fun i pts =>
    let r : num := if i < PARTICLE_COUNT * 0.8 then 0.9 else 0.8 in
    r1 <- random ;;
    let t := r1 * PI * 2 in
    r2 <- random ;;
    ret (store3 pts (i * 3) (cos t * r) (sin t * r) ((r2 - 0.5) * 0.1)))
    pts.

(** The apex and the base of a pyramid. *)
Definition pyramidCorners : list (list num) :=
  [ [Fin 0; Fin 1; Fin 0]; [Fin 1; Fin (-1); Fin 1]; [Fin (-1); Fin (-1); Fin 1];
    [Fin (-1); Fin (-1); Fin (-1)]; [Fin 1; Fin (-1); Fin (-1)] ].

Definition generatePyramidFractal : Gen (list num) :=
  let pts := Float32Array (PARTICLE_COUNT * 3) in
  let v := pyramidCorners in
  forLoop PARTICLE_COUNT (fun i pts =>
    let edge := (i mod 8)%nat in
    t <- random ;;
    '(p1, p2) <-
      (if (edge <? 4)%nat then
         p1 <- item v 0 ;; p2 <- item v (edge + 1) ;; ret (p1, p2)
       else
         p1 <- item v (edge - 3) ;;
         p2 <- item v (if (edge =? 7)%nat then 1 else edge - 2)%nat ;;
         ret (p1, p2)) ;;
    ret (store3 pts (i * 3)
           (lerp (get p1 0) (get p2 0) t * 0.6)
           (lerp (get p1 1) (get p2 1) t * 0.6)
           (lerp (get p1 2) (get p2 2) t * 0.6)))
    pts.

Definition generateDNALattice : Gen (list num) :=
  let pts := Float32Array (PARTICLE_COUNT * 3) in
  forLoop PARTICLE_COUNT (fun i pts =>
    let t := (i / PARTICLE_COUNT) * PI * 10 in
    let strand := (i mod 3)%nat in
    if (strand <? 2)%nat then
      let s : num := if (strand =? 0)%nat then 1 else -1 in
      ret (store3 pts (i * 3)
             (cos (t + (if s === 1 then 0 else PI)) * 0.4)
             ((i / PARTICLE_COUNT) * 1.6 - 0.8)
             (sin (t + (if s === 1 then 0 else PI)) * 0.4))
    else
      lerpT <- random ;;
      ret (store3 pts (i * 3)
             (lerp (cos t * 0.4) (cos (t + PI) * 0.4) lerpT)
             ((i / PARTICLE_COUNT) * 1.6 - 0.8)
             (lerp (sin t * 0.4) (sin (t + PI) * 0.4) lerpT)))
    pts.

Definition generateSupernova : Gen (list num) :=
  let pts := Float32Array (PARTICLE_COUNT * 3) in
  forLoop PARTICLE_COUNT (fun i pts =>
    r1 <- random ;;
    let r := pow r1 2 * 1.5 in
    r2 <- random ;;
    let p := r2 * PI * 2 in
    r3 <- random ;;
    let t := r3 * PI in
    ret (store3 pts (i * 3) (r * sin t * cos p) (r * sin t * sin p) (r * cos t)))
    pts.

Definition generateHyperCore : Gen (list num) :=
  let pts := Float32Array (PARTICLE_COUNT * 3) in
  forLoop PARTICLE_COUNT (fun i pts =>
    let r := (i mod 3 + 1)%nat * 0.25 in
    r1 <- random ;;
    let p := r1 * PI * 2 in
    r2 <- random ;;
    let t := r2 * PI in
    ret (store3 pts (i * 3) (r * sin t * cos p) (r * sin t * sin p) (r * cos t)))
    pts.

Definition generateSpikyUrchin : Gen (list num) :=
  let pts := Float32Array (PARTICLE_COUNT * 3) in
  forLoop PARTICLE_COUNT (fun i pts =>
    r1 <- random ;;
    let p := r1 * PI * 2 in
    r2 <- random ;;
    let t := r2 * PI in
    let isSpike := (i mod 10 =? 0)%nat in
    r <- (if isSpike then r3 <- random ;; ret (0.3 + r3 * 0.7) else ret (Fin 0.3)) ;;
    ret (store3 pts (i * 3) (r * sin t * cos p) (r * sin t * sin p) (r * cos t)))
    pts.

Definition generateDataStream : Gen (list num) :=
  let pts := Float32Array (PARTICLE_COUNT * 3) in
  forLoop PARTICLE_COUNT (fun i pts =>
    let col := (i mod 10)%nat in
    r1 <- random ;;
    r2 <- random ;;
    ret (store3 pts (i * 3) ((col - 5) * 0.2) ((r1 * 2) - 1) ((r2 - 0.5) * 0.1)))
    pts.

Definition generateWarpTunnel : Gen (list num) :=
  let pts := Float32Array (PARTICLE_COUNT * 3) in
  forLoop PARTICLE_COUNT (fun i pts =>
    let z := (i / PARTICLE_COUNT) * 4 - 2 in
    let r := 0.5 + abs z * 0.2 in
    r1 <- random ;;
    let t := r1 * PI * 2 in
    ret (store3 pts (i * 3) (cos t * r) (sin t * r) z))
    pts.

Definition generateFloatingIslands : Gen (list num) :=
  let pts := Float32Array (PARTICLE_COUNT * 3) in
  centers <- arrayFrom 5 (randomVector 1.8 1.2 1.2) ;;
  forLoop PARTICLE_COUNT (fun i pts =>
    c <- item centers (i mod 5) ;;
    r1 <- random ;;
    r2 <- random ;;
    r3 <- random ;;
    ret (store3 pts (i * 3)
           (x3 c + (r1 - 0.5) * 0.4)
           (y3 c + (r2 - 0.5) * 0.2)
           (z3 c + (r3 - 0.5) * 0.4)))
    pts.

Definition generateAuraShield : Gen (list num) :=
  let pts := Float32Array (PARTICLE_COUNT * 3) in
  forLoop PARTICLE_COUNT (fun i pts =>
    let r := 0.8 + (i mod 2)%nat * 0.05 in
    r1 <- random ;;
    let p := r1 * PI * 2 in
    r2 <- random ;;
    let t := r2 * PI in
    ret (store3 pts (i * 3) (r * sin t * cos p) (r * sin t * sin p) (r * cos t)))
    pts.

Definition generateCyberDisc : Gen (list num) :=
  let pts := Float32Array (PARTICLE_COUNT * 3) in
  forLoop PARTICLE_COUNT (fun i pts =>
    let layer := (i mod 4)%nat in
    let r := 0.3 + layer * 0.15 in
    let t := (i / PARTICLE_COUNT) * PI * 2 * 4 in
    r1 <- random ;;
    ret (store3 pts (i * 3) (cos t * r) (sin t * r) ((r1 - 0.5) * 0.05)))
    pts.

Definition generateMobiusStrip : Gen (list num) :=
  let pts := Float32Array (PARTICLE_COUNT * 3) in
  forLoop PARTICLE_COUNT (fun i pts =>
    let u := (i / PARTICLE_COUNT) * PI * 2 in
    r1 <- random ;;
    let v := (r1 - 0.5) * 0.4 in
    ret (store3 pts (i * 3)
           ((1 + v * cos (u / 2)) * cos u * 0.8)
           ((1 + v * cos (u / 2)) * sin u * 0.8)
           (v * sin (u / 2) * 0.8)))
    pts.

Definition generateVoronoiShell : Gen (list num) :=
  let pts := Float32Array (PARTICLE_COUNT * 3) in
  forLoop PARTICLE_COUNT (fun i pts =>
    r1 <- random ;;
    let phi := r1 * PI * 2 in
    r2 <- random ;;
    let theta := r2 * PI in
    let r := 0.7 + sin (phi * 5) * cos (theta * 5) * 0.1 in
    ret (store3 pts (i * 3)
           (r * sin theta * cos phi)
           (r * sin theta * sin phi)
           (r * cos theta)))
    pts.

Definition generateBinaryPillar : Gen (list num) :=
  let pts := Float32Array (PARTICLE_COUNT * 3) in
  forLoop PARTICLE_COUNT (fun i pts =>
    let col := (i mod 8)%nat in
    r1 <- random ;;
    r2 <- random ;;
    let pts := store3 pts (i * 3) ((col - 4) * 0.18) ((r1 * 1.6) - 0.8) ((r2 - 0.5) * 0.2) in
    r3 <- random ;;
    if r3 > 0.95 then ret (set pts (i * 3 + 1) 100) else ret pts)
    pts.

Definition generateMagneticField : Gen (list num) :=
  let pts := Float32Array (PARTICLE_COUNT * 3) in
  forLoop PARTICLE_COUNT (fun i pts =>
    let t := i / PARTICLE_COUNT in
    let angle := t * PI * 2 in
    let loop := (i mod 5)%nat * 0.2 in
    ret (store3 pts (i * 3)
           (sin angle * (0.3 + loop))
           (cos angle * (0.6 + loop))
           (sin (angle * 2) * 0.3)))
    pts.

Definition generateHelixSphere : Gen (list num) :=
  let pts := Float32Array (PARTICLE_COUNT * 3) in
  forLoop PARTICLE_COUNT (fun i pts =>
    let t := i / PARTICLE_COUNT in
    let phi := t * PI * 20 in
    let theta := t * PI in
    let r : num := 0.7 in
    ret (store3 pts (i * 3)
           (r * sin theta * cos phi)
           (r * sin theta * sin phi)
           (r * cos theta)))
    pts.

Definition generatePulsarCore : Gen (list num) :=
  let pts := Float32Array (PARTICLE_COUNT * 3) in
  forLoop PARTICLE_COUNT (fun i pts =>
    if i < PARTICLE_COUNT * 0.4 then
      r1 <- random ;;
      let r := r1 * 0.2 in
      r2 <- random ;;
      let p := r2 * PI * 2 in
      r3 <- random ;;
      ret (store3 pts (i * 3) (cos p * r) (sin p * r) ((r3 - 0.5) * 0.2))
    else
      let jet : num := if (i mod 2 =? 0)%nat then 1 else -1 in
      r1 <- random ;;
      let t := r1 * 1.5 in
      r2 <- random ;;
      r3 <- random ;;
      ret (store3 pts (i * 3) ((r2 - 0.5) * 0.05) (jet * t) ((r3 - 0.5) * 0.05)))
    pts.

Definition generateDigitalWeb : Gen (list num) :=
  let pts := Float32Array (PARTICLE_COUNT * 3) in
  nodes <- arrayFrom 20 (randomVector 1.5 1.2 1.2) ;;
  forLoop PARTICLE_COUNT (fun i pts =>
    n1 <- item nodes (i mod length nodes) ;;
    n2 <- item nodes ((i + 1) mod length nodes) ;;
    t <- random ;;
    ret (store3 pts (i * 3)
           (lerp (x3 n1) (x3 n2) t)
           (lerp (y3 n1) (y3 n2) t)
           (lerp (z3 n1) (z3 n2) t)))
    pts.

Definition generateExplodedCube : Gen (list num) :=
  let pts := Float32Array (PARTICLE_COUNT * 3) in
  forLoop PARTICLE_COUNT (fun i pts =>
    let face := (i mod 6)%nat in
    r0 <- random ;;
    let r := 0.6 + r0 * 0.4 in
    '(x, y, z) <-
      (if (face =? 0)%nat then
         r1 <- random ;; r2 <- random ;; ret (r, r1 - 0.5, r2 - 0.5)
       else if (face =? 1)%nat then
         r1 <- random ;; r2 <- random ;; ret (- r, r1 - 0.5, r2 - 0.5)
       else if (face =? 2)%nat then
         r1 <- random ;; r2 <- random ;; ret (r1 - 0.5, r, r2 - 0.5)
       else if (face =? 3)%nat then
         r1 <- random ;; r2 <- random ;; ret (r1 - 0.5, - r, r2 - 0.5)
       else if (face =? 4)%nat then
         r1 <- random ;; r2 <- random ;; ret (r1 - 0.5, r2 - 0.5, r)
       else
         r1 <- random ;; r2 <- random ;; ret (r1 - 0.5, r2 - 0.5, - r)) ;;
    ret (store3 pts (i * 3) x y z))
    pts.

Definition generateCloverKnot : Gen (list num) :=
  let pts := Float32Array (PARTICLE_COUNT * 3) in
  forLoop PARTICLE_COUNT (fun i pts =>
    let t := (i / PARTICLE_COUNT) * PI * 2 in
    ret (store3 pts (i * 3)
           ((sin t + 2 * sin (2 * t)) * 0.3)
           ((cos t - 2 * cos (2 * t)) * 0.3)
           (- sin (3 * t) * 0.3)))
    pts.

Definition generateKleinBottle : Gen (list num) :=
  let pts := Float32Array (PARTICLE_COUNT * 3) in
  forLoop PARTICLE_COUNT (fun i pts =>
    let u := (i / PARTICLE_COUNT) * PI * 2 in
    r1 <- random ;;
    let v := r1 * PI * 2 in
    let '(x, y) :=
      if u < PI then
        (6 * cos u * (1 + sin u) + 4 * (1 - cos u / 2) * cos u * cos v,
         16 * sin u + 4 * (1 - cos u / 2) * sin u * cos v)
      else
        (6 * cos u * (1 + sin u) + 4 * (1 - cos u / 2) * cos (v + PI),
         16 * sin u) in
    let z := 4 * (1 - cos u / 2) * sin v in
    ret (store3 pts (i * 3) (x * 0.05) (y * 0.05) (z * 0.05)))
    pts.

Definition generateHyperboloid : Gen (list num) :=
  let pts := Float32Array (PARTICLE_COUNT * 3) in
  forLoop PARTICLE_COUNT (fun i pts =>
    let z := (i / PARTICLE_COUNT) * 2 - 1 in
    r1 <- random ;;
    let theta := r1 * PI * 2 in
    let r := 0.4 * sqrt (1 + z * z) in
    ret (store3 pts (i * 3) (r * cos theta) (z * 0.8) (r * sin theta)))
    pts.

(** An entry of the stack of [generateFractalTree]. *)
Record Branch : Type := mkBranch {
  branchP : Vector3;
  branchDir : Vector3;
  branchLen : num;
  branchDepth : nat
}.

(** How often the body of [for (let j = 0; j < count; j++)] runs: never ends
    for an infinite bound. *)
Definition iterations (count : num) : Gen nat :=
  match count with
  | Fin r => ret (Z.to_nat (Zceil r))
  | PosInf => noReturn
  | _ => ret 0%nat
  end.

(** The body of the [while] loop of [generateFractalTree], on the node list
    and the stack (its top first). *)
Definition growBranch (st : list Vector3 * list Branch) : Gen (list Vector3 * list Branch) :=
  let '(nodes, stack) := st in
  match stack with
  | [] => noReturn
  | b :: stack =>
      if (5 <? branchDepth b)%nat then ret (nodes, stack)
      else
        let nextP := addVectors (branchP b) (multiplyScalar (branchDir b) (branchLen b)) in
        let nodes := nodes ++ [nextP] in
        r0 <- random ;;
        let count := 2 + floor (r0 * 2) in
        n <- iterations count ;;
        stack <-
          forLoop n (fun j stack =>
            r1 <- random ;;
            r2 <- random ;;
            r3 <- random ;;
            r4 <- random ;;
            let nextDir :=
              applyAxisAngle (branchDir b) (normalize (mkVector3 r1 r2 r3))
                (0.5 + r4 * 0.5) in
            ret (mkBranch nextP nextDir (branchLen b * 0.7) (branchDepth b + 1) :: stack))
            stack ;;
        ret (nodes, stack)
  end.

(** The loop of [generateFractalTree] stops when the stack is empty or a
    hundred nodes exist; the rounds it is given here are more than it can use
    ([LibraryFacts.growBranch_loop]). *)
Definition treeRounds : nat := 400.

Definition generateFractalTree : Gen (list num) :=
  let pts := Float32Array (PARTICLE_COUNT * 3) in
  let nodes := [mkVector3 0 (-0.8) 0] in
  let stack := [mkBranch (mkVector3 0 (-0.8) 0) (mkVector3 0 1 0) 0.4 0] in
  '(nodes, _) <-
    whileLoop treeRounds
      (fun '(nodes, stack) => (0 <? length stack)%nat && (length nodes <? 100)%nat)
      growBranch (nodes, stack) ;;
  forLoop PARTICLE_COUNT (fun i pts =>
    n1 <- item nodes (i mod length nodes) ;;
    n2 <- item nodes ((i + 1) mod length nodes) ;;
    t <- random ;;
    ret (store3 pts (i * 3)
           (lerp (x3 n1) (x3 n2) t)
           (lerp (y3 n1) (y3 n2) t)
           (lerp (z3 n1) (z3 n2) t)))
    pts.

Definition generateGalacticSpiral : Gen (list num) :=
  let pts := Float32Array (PARTICLE_COUNT * 3) in
  let arms := 4%nat in
  forLoop PARTICLE_COUNT (fun i pts =>
    let arm := (i mod arms)%nat in
    t <- random ;;
    let angle := t * PI * 4 + (arm * PI * 2) / arms in
    let r := t * 1.2 in
    let spread := (1 - t) * 0.2 in
    r1 <- random ;;
    r2 <- random ;;
    r3 <- random ;;
    ret (store3 pts (i * 3)
           (cos angle * r + (r1 - 0.5) * spread)
           ((r2 - 0.5) * 0.1 * (1 - t))
           (sin angle * r + (r3 - 0.5) * spread)))
    pts.

Definition generateCalyx : Gen (list num) :=
  let pts := Float32Array (PARTICLE_COUNT * 3) in
  forLoop PARTICLE_COUNT (fun i pts =>
    let t := (i / PARTICLE_COUNT) * PI * 2 in
    let petals : num := 5 in
    let r := sin (t * petals) * 0.4 + 0.5 in
    let h := cos (t * petals) * 0.2 + t * 0.1 in
    ret (store3 pts (i * 3) (cos t * r) (h - 0.4) (sin t * r)))
    pts.

(** The value the rejection test of [generateGyroid] looks at. *)
Definition gyroidValue (x y z : num) : num :=
  sin x * cos y + sin y * cos z + sin z * cos x.

(** The body of the [while] loop of [generateGyroid]: three draws, and a
    point stored if they pass the test. *)
Definition gyroidSample (st : list num * nat) : Gen (list num * nat) :=
  let '(pts, count) := st in
  r1 <- random ;;
  let x := (r1 - 0.5) * PI * 2 in
  r2 <- random ;;
  let y := (r2 - 0.5) * PI * 2 in
  r3 <- random ;;
  let z := (r3 - 0.5) * PI * 2 in
  let val := gyroidValue x y z in
  if abs val < 0.1 then
    ret (store3 pts (count * 3) (x * 0.25) (y * 0.25) (z * 0.25), S count)
  else ret (pts, count).

Definition generateGyroid (fuel : nat) : Gen (list num) :=
  let pts := Float32Array (PARTICLE_COUNT * 3) in
  let count := 0%nat in
  '(pts, _) <-
    whileLoop fuel (fun '(_, count) => (count <? PARTICLE_COUNT)%nat)
      gyroidSample (pts, count) ;;
  ret pts.

(** [corners[k]] followed by [target[0]]: throws unless [k] is an index of
    the array. *)
Definition itemAt {A : Type} (a : list A) (k : num) : Gen A :=
  match asIndex k with
  | Some n => item a n
  | None => noReturn
  end.

Definition generateSierpinskiCube : Gen (list num) :=
  let pts := Float32Array (PARTICLE_COUNT * 3) in
  let corners := cubeCorners in
  let curr := [Fin 0; Fin 0; Fin 0] in
  '(pts, _) <-
    forLoop PARTICLE_COUNT (fun i '(pts, curr) =>
      r1 <- random ;;
      target <- itemAt corners (floor (r1 * 8)) ;;
      let curr := set curr 0 ((get curr 0 + get target 0) / 3) in
      let curr := set curr 1 ((get curr 1 + get target 1) / 3) in
      let curr := set curr 2 ((get curr 2 + get target 2) / 3) in
      ret (store3 pts (i * 3) (get curr 0 * 1.5) (get curr 1 * 1.5) (get curr 2 * 1.5),
           curr))
      (pts, curr) ;;
  ret pts.

Definition generateNautilusShell : Gen (list num) :=
  let pts := Float32Array (PARTICLE_COUNT * 3) in
  forLoop PARTICLE_COUNT (fun i pts =>
    let t := (i / PARTICLE_COUNT) * PI * 8 in
    let r := 0.1 * exp (0.15 * t) in
    r1 <- random ;;
    let theta := r1 * PI * 2 in
    let ringR := r * 0.2 in
    ret (store3 pts (i * 3)
           ((r + ringR * cos theta) * cos t * 0.4)
           (ringR * sin theta * 0.4)
           ((r + ringR * cos theta) * sin t * 0.4)))
    pts.

Definition generateRibbonKnot : Gen (list num) :=
  let pts := Float32Array (PARTICLE_COUNT * 3) in
  forLoop PARTICLE_COUNT (fun i pts =>
    let t := (i / PARTICLE_COUNT) * PI * 2 in
    let x := sin t + 2 * sin (2 * t) in
    let y := cos t - 2 * cos (2 * t) in
    let z := - sin (3 * t) in
    r1 <- random ;;
    let off := (r1 - 0.5) * 0.15 in
    ret (store3 pts (i * 3) ((x + off) * 0.3) ((y + off) * 0.3) ((z + off) * 0.3)))
    pts.

Definition generateDataFountain : Gen (list num) :=
  let pts := Float32Array (PARTICLE_COUNT * 3) in
  forLoop PARTICLE_COUNT (fun i pts =>
    t <- random ;;
    r1 <- random ;;
    let angle := r1 * PI * 2 in
    let r := sin (t * PI) * 0.4 in
    ret (store3 pts (i * 3) (cos angle * r) ((t * 2 - 1) * 0.8) (sin angle * r)))
    pts.

(** *** The glyph shape *)

(** A stroke of the glyph: a straight segment, or an arc ([isCurve]). *)
Inductive Segment : Type :=
| Line (start finish : Vector3)
| Curve (center : Vector3) (radius startA endA : num).

Definition lordxSegments : list Segment :=
  [ Line (mkVector3 (-1.4) 0.5 0) (mkVector3 (-1.4) (-0.5) 0);
    Line (mkVector3 (-1.4) (-0.5) 0) (mkVector3 (-1.0) (-0.5) 0);
    Curve (mkVector3 (-0.5) 0 0) 0.4 0 (PI * 2);
    Line (mkVector3 0.2 0.5 0) (mkVector3 0.2 (-0.5) 0);
    Curve (mkVector3 0.2 0.25 0) 0.25 (- PI / 2) (PI / 2);
    Line (mkVector3 0.2 0 0) (mkVector3 0.6 (-0.5) 0);
    Line (mkVector3 0.9 0.5 0) (mkVector3 0.9 (-0.5) 0);
    Curve (mkVector3 0.9 0 0) 0.5 (- PI / 2) (PI / 2);
    Line (mkVector3 1.6 0.2 0) (mkVector3 2.0 (-0.2) 0);
    Line (mkVector3 2.0 0.2 0) (mkVector3 1.6 (-0.2) 0) ].

(** [a.forEach(body)] on the state the body mutates. *)
Fixpoint forEach {A S : Type} (a : list A) (body : A -> S -> Gen S) (s : S) : Gen S :=
  match a with
  | [] => ret s
  | v :: rest => s' <- body v s ;; forEach rest body s'
  end.

(** The [break] leaves the loop over [i]: a body that finds the buffer full
    does nothing. *)
Definition generateLORDx : Gen (list num) :=
  let pts := Float32Array (PARTICLE_COUNT * 3) in
  let s := lordxSegments in
  let per := (PARTICLE_COUNT / length s)%nat in
  let count := 0%nat in
  '(pts, _) <-
    forEach s (fun seg st =>
      forLoop per (fun i '(pts, count) =>
        if (PARTICLE_COUNT <=? count)%nat then ret (pts, count)
        else
          let t := i / per in
          r1 <- random ;;
          let zDepth := (r1 - 0.5) * 0.25 in
          match seg with
          | Curve center radius startA endA =>
              let a := startA + t * (endA - startA) in
              ret (store3 pts (count * 3)
                     (x3 center + cos a * radius)
                     (y3 center + sin a * radius)
                     zDepth,
                   S count)
          | Line start finish =>
              ret (store3 pts (count * 3)
                     (lerp (x3 start) (x3 finish) t)
                     (lerp (y3 start) (y3 finish) t)
                     zDepth,
                   S count)
          end)
        st)
      (pts, count) ;;
  ret pts.

(** *** The library

    The [list.push] calls of the [shapes] memo of [HologramScene], in order;
    [fuel] bounds the rounds of the loop of [generateGyroid]. *)
Definition shapeGenerators (fuel : nat) : list (Gen (list num)) :=
  [ getMeshPoints (IcosahedronGeometry 0.7 1);
    getMeshPoints (TorusGeometry 0.6 0.1 8 32);
    getMeshPoints (BoxGeometry 0.8 0.8 0.8 6 6 6);
    getMeshPoints (DodecahedronGeometry 0.8 0);
    generateCrystalline;
    generateOrbitingRings;
    getMeshPoints (TorusKnotGeometry 0.5 0.12 128 16);
    generateDoubleHelix;
    generateMechanical;
    generateFractalLattice;
    generateSacredGeometry;
    getMeshPoints (SphereGeometry 0.7 32 32);
    generateVortex;
    generateMolecule;
    generateCityscape;
    getMeshPoints (CapsuleGeometry 0.4 0.8 8 32);
    getMeshPoints (OctahedronGeometry 0.8 2);
    generateTesseract;
    generateNeuralNetwork;
    generateDigitalSingularity;
    generateCyberEye;
    generateCrystallineFlower;
    generateInterferenceWave;
    generateVoxelMonolith;
    generateRibbonSpiral;
    generateGeometricGeode;
    generateQuantumEntanglement;
    generateStarGate;
    generatePyramidFractal;
    generateDNALattice;
    generateSupernova;
    generateHyperCore;
    generateSpikyUrchin;
    generateDataStream;
    generateWarpTunnel;
    generateFloatingIslands;
    generateAuraShield;
    (* "40-44 Re-use or variations" *)
    generateCrystalline;
    generateOrbitingRings;
    generateDoubleHelix;
    generateMechanical;
    generateFractalLattice;
    (* "45-54" *)
    generateCyberDisc;
    generateMobiusStrip;
    generateVoronoiShell;
    generateBinaryPillar;
    generateMagneticField;
    generateHelixSphere;
    generatePulsarCore;
    generateDigitalWeb;
    generateExplodedCube;
    generateCloverKnot;
    (* "55-64 NEW 3D SHAPES" *)
    generateKleinBottle;
    generateHyperboloid;
    generateFractalTree;
    generateGalacticSpiral;
    generateCalyx;
    generateGyroid fuel;
    generateSierpinskiCube;
    generateNautilusShell;
    generateRibbonKnot;
    generateDataFountain ].

(** Running a list of computations one after the other. *)
Fixpoint sequence {A : Type} (ms : list (Gen A)) : Gen (list A) :=
  match ms with
  | [] => ret []
  | m :: rest => a <- m ;; others <- sequence rest ;; ret (a :: others)
  end.

(** The two memos of [HologramScene]: the library, then the glyph shape. *)
Definition shapes (fuel : nat) : Gen (list (list num)) :=
  sequence (shapeGenerators fuel).

Definition textShape : Gen (list num) := generateLORDx.

(** The memo [lerpSpeeds] of [HandParticles]:
    [new Float32Array(PARTICLE_COUNT).map(() => 0.07 + Math.random() * 0.08)]. *)
Definition lerpSpeeds : Gen (list num) :=
  arrayFrom PARTICLE_COUNT (r <- random ;; ret (0.07 + r * 0.08)).

(** Where [generateGyroid] stands in the library, and the generators of the
    library whose loops are all bounded: the others. *)
Definition gyroidSlot : nat := 57.

Definition boundedGenerators : list (Gen (list num)) :=
  firstn gyroidSlot (shapeGenerators 0) ++ skipn (S gyroidSlot) (shapeGenerators 0).

(** The geometries the scene builds: those handed to [getMeshPoints] and the
    three layers of [generateCrystalline]. *)
Definition sceneGeometries : list Geometry :=
  [ IcosahedronGeometry 0.7 1;
    TorusGeometry 0.6 0.1 8 32;
    BoxGeometry 0.8 0.8 0.8 6 6 6;
    DodecahedronGeometry 0.8 0;
    TorusKnotGeometry 0.5 0.12 128 16;
    SphereGeometry 0.7 32 32;
    CapsuleGeometry 0.4 0.8 8 32;
    OctahedronGeometry 0.8 2;
    IcosahedronGeometry (0.4 + 0%nat * 0.25) 1;
    IcosahedronGeometry (0.4 + 1%nat * 0.25) 1;
    IcosahedronGeometry (0.4 + 2%nat * 0.25) 1 ].

End Generators.

(** *** What is asked of three.js

    A geometry of the scene has at least one vertex, three finite numbers per
    vertex; rotations and vector arithmetic give finite vectors from finite
    ones. *)
Class ThreeFinite (three : Three) : Prop := {
  positionArray_finite :
    forall g : Geometry, In g sceneGeometries ->
      exists n : nat, (0 < n)%nat
        /\ length (positionArray g) = (n * 3)%nat
        /\ Forall isFinite (positionArray g);
  applyEuler_finite :
    forall (v : Vector3) (a b c : num),
      finiteVector v -> isFinite a -> isFinite b -> isFinite c ->
      finiteVector (applyEuler v a b c);
  applyAxisAngle_finite :
    forall (v axis : Vector3) (angle : num),
      finiteVector v -> finiteVector axis -> isFinite angle ->
      finiteVector (applyAxisAngle v axis angle);
  normalize_finite :
    forall v : Vector3, finiteVector v -> finiteVector (normalize v);
  addVectors_finite :
    forall v w : Vector3, finiteVector v -> finiteVector w ->
      finiteVector (addVectors v w);
  multiplyScalar_finite :
    forall (v : Vector3) (s : num), finiteVector v -> isFinite s ->
      finiteVector (multiplyScalar v s);
  lerp_finite :
    forall x y t : num, isFinite x -> isFinite y -> isFinite t ->
      isFinite (lerp x y t)
}.

(** *** What is asked of the draws, and what the buffers are to be *)

(** [Math.random()] gives a number in [0, 1). *)
Definition unitDraw (v : num) : Prop := exists r : R, v = Fin r /\ 0 <= r < 1.

Definition unitStream (rnd : nat -> R) : Prop := forall n : nat, 0 <= rnd n < 1.

(** A buffer of [PARTICLE_COUNT * 3] finite numbers. *)
Definition goodBuffer (b : list num) : Prop :=
  length b = (PARTICLE_COUNT * 3)%nat /\ Forall isFinite b.

(** The computation returns, whatever was drawn before, a value that
    satisfies [P]. *)
Definition returns {A : Type} (rnd : nat -> R) (m : Gen A) (P : A -> Prop) : Prop :=
  forall c : nat, exists (a : A) (c' : nat), m rnd c = Some (a, c') /\ P a.

(** A computation given [fuel] steps that returns for no [fuel]. *)
Definition neverReturns {A : Type} (m : nat -> Gen A) (rnd : nat -> R) (c : nat) : Prop :=
  forall fuel : nat, m fuel rnd c = None.

(** Whether the three draws at [c] pass the test of [generateGyroid]. *)
Definition gyroidAccepts (rnd : nat -> R) (c : nat) : bool :=
  let x := ((Fin (rnd c) - 0.5) * Math.PI * 2)%js in
  let y := ((Fin (rnd (c + 1)%nat) - 0.5) * Math.PI * 2)%js in
  let z := ((Fin (rnd (c + 2)%nat) - 0.5) * Math.PI * 2)%js in
  (Math.abs (gyroidValue x y z) < 0.1)%js.

(** The samples accepted among the [n] triples of draws from [c] on. *)
Fixpoint acceptedAmong (rnd : nat -> R) (c n : nat) : nat :=
  match n with
  | O => O
  | S m => (if gyroidAccepts rnd c then 1 else 0) + acceptedAmong rnd (c + 3) m
  end.

(** From any point on, the draws come to hold [PARTICLE_COUNT] accepted
    samples. *)
Definition gyroidFed (rnd : nat -> R) : Prop :=
  forall c : nat, exists n : nat, (PARTICLE_COUNT <= acceptedAmong rnd c n)%nat.

(** A buffer of finite numbers, as the morph engine reads it. *)
Definition asReals (b : list num) : list R :=
  map (fun v => match v with Fin r => r | _ => 0 end) b.

(** *** What the proofs say of the parts of a generator *)

(** A finite number that is not zero: what a divisor has to be. *)
Definition nonzero (y : num) : Prop := exists b : R, y = Fin b /\ b <> 0.

(** A finite number that is not negative: what a square root is taken of. *)
Definition nonneg (x : num) : Prop := exists a : R, x = Fin a /\ 0 <= a.

(** A corner: three finite numbers. *)
Definition finiteRow (row : list num) : Prop :=
  length row = 3%nat /\ Forall isFinite row.

Definition finiteBranch (b : Branch) : Prop :=
  finiteVector (branchP b) /\ finiteVector (branchDir b) /\ isFinite (branchLen b).

(** What the loop keeps true of the nodes and the stack. *)
Definition treeInvariant (st : list Vector3 * list Branch) : Prop :=
  Forall finiteVector (fst st) /\ Forall finiteBranch (snd st)
  /\ (1 <= length (fst st))%nat.

(** What a round of the loop lowers. *)
Definition treeMeasure (st : list Vector3 * list Branch) : nat :=
  (3 * (100 - length (fst st)) + length (snd st))%nat.

Definition treeCondition (st : list Vector3 * list Branch) : bool :=
  let '(nodes, stack) := st in (0 <? length stack)%nat && (length nodes <? 100)%nat.

Definition finiteSegment (seg : Segment) : Prop :=
  match seg with
  | Line start finish => finiteVector start /\ finiteVector finish
  | Curve center radius startA endA =>
      finiteVector center /\ isFinite radius /\ isFinite startA /\ isFinite endA
  end.

Definition gyroidCondition (st : list num * nat) : bool :=
  let '(_, count) := st in (count <? PARTICLE_COUNT)%nat.

(** *** Observing the points of a buffer *)

(** Particle [i] of a buffer. *)
Definition pointAt (b : list num) (i : nat) : Vector3 :=
  mkVector3 (get b (i * 3)) (get b (i * 3 + 1)) (get b (i * 3 + 2)).

Definition origin : Vector3 := mkVector3 (Fin 0) (Fin 0) (Fin 0).

(** A point of three real coordinates that satisfy [P]. *)
Definition realPoint (P : R -> R -> R -> Prop) (v : Vector3) : Prop :=
  exists x y z : R, v = mkVector3 (Fin x) (Fin y) (Fin z) /\ P x y z.

(** A buffer of [PARTICLE_COUNT] particles, all of which satisfy [P]. *)
Definition everyPoint (P : Vector3 -> Prop) (b : list num) : Prop :=
  length b = (PARTICLE_COUNT * 3)%nat
  /\ forall i : nat, (i < PARTICLE_COUNT)%nat -> P (pointAt b i).

(** The cube of half-width [h] about the origin. *)
Definition inCube (h : R) (x y z : R) : Prop :=
  Rabs x <= h /\ Rabs y <= h /\ Rabs z <= h.

(** A row of three reals of magnitude at most [h]. *)
Definition boundedRow (h : R) (row : list num) : Prop :=
  exists x y z : R, row = [Fin x; Fin y; Fin z] /\ inCube h x y z.

(** The node of the lattice at which [generateFractalLattice] puts its
    [n]-th particle: 18 particles to a node, the nodes in the order of the
    loops over [x], [y] and [z]. *)
Definition latticeNode (n : nat) : R * R * R :=
  ((INR (n / 648) - 3) * 0.3,
   (INR (n / 108 mod 6) - 3) * 0.3,
   (INR (n / 18 mod 6) - 3) * 0.3).

(** Within [d] of a node on every axis. *)
Definition nearBy (d : R) (node : R * R * R) (x y z : R) : Prop :=
  Rabs (x - fst (fst node)) <= d
  /\ Rabs (y - snd (fst node)) <= d
  /\ Rabs (z - snd node) <= d.

(** What a generator that fills the buffer from the front has done once it
    has stored [count] particles: these satisfy [P], by their number, and
    the others are still at the origin. *)
Definition filledTo (P : nat -> Vector3 -> Prop) (count : nat) (pts : list num) : Prop :=
  length pts = (PARTICLE_COUNT * 3)%nat
  /\ (forall n : nat, (n < count)%nat -> P n (pointAt pts n))
  /\ (forall n : nat, (count <= n < PARTICLE_COUNT)%nat -> pointAt pts n = origin).

(** Gear [g] of [generateMechanical]: the circle of radius 0.4 + g * 0.1
    about the z axis, or of 0.05 more where a cog stands, in the plane
    z = (g - 1) * 0.2. *)
Definition onGear (g : nat) (x y z : R) : Prop :=
  z = (INR g - 1) * 0.2
  /\ (x * x + y * y = (0.4 + INR g * 0.1) * (0.4 + INR g * 0.1)
      \/ x * x + y * y = (0.45 + INR g * 0.1) * (0.45 + INR g * 0.1)).

(** A point as [generateGyroid] stores it: a quarter of a sample of the cube
    of half-width pi that passes the test. *)
Definition onGyroid (x y z : R) : Prop :=
  inCube (PI / 4) x y z
  /\ Rabs (sin (x * 4) * cos (y * 4) + sin (y * 4) * cos (z * 4)
           + sin (z * 4) * cos (x * 4)) < 0.1.

(** What [generateLORDx] makes of its [n]-th particle: a depth drawn from
    [-0.125, 0.125), and a place on stroke [n / 400] of the glyph, the
    particle being number [n mod 400] of the 400 of that stroke: on the
    segment at that fraction of it, or on the arc's circle. *)
Definition onStroke {three : Three} (n : nat) (v : Vector3) : Prop :=
  (exists d : R, z3 v = Fin d /\ - 0.125 <= d < 0.125)
  /\ match nth_error lordxSegments (n / 400) with
     | Some (Line start finish) =>
         let t := (ofNat (n mod 400) / ofNat 400)%js in
         x3 v = lerp (x3 start) (x3 finish) t
         /\ y3 v = lerp (y3 start) (y3 finish) t
     | Some (Curve center radius _ _) =>
         exists a : R,
           x3 v = (x3 center + Math.cos (Fin a) * radius)%js
           /\ y3 v = (y3 center + Math.sin (Fin a) * radius)%js
     | None => False
     end.

(** What a store of [undefined] leaves in a typed array, three times. *)
Definition notANumber : Vector3 := mkVector3 NaN NaN NaN.

(** A computation that takes no draw and always returns [v]. *)
Definition alwaysReturns {A : Type} (m : Gen A) (v : A) : Prop :=
  forall (rnd : nat -> R) (c : nat), m rnd c = Some (v, c).

(** A loop body that takes no draw. *)
Definition silent {S : Type} (body : S -> Gen S) : Prop :=
  exists f : S -> S, forall s : S, alwaysReturns (body s) (f s).

End Library.

(** ** Sample inputs

    Hands as [HandTracker] builds them ([isActive: true], [z] 0.5 for a fist
    and 0 otherwise, [shapeIndex: 0]) and a few callbacks and frames. *)

Module Demo.

Definition openHand (x y : R) : HandState :=
  mkHand true false (mkVec3 x y 0) (mkVec2 0 0) 0%Z.

Definition fistHand (x y : R) : HandState :=
  mkHand true true (mkVec3 x y 0.5) (mkVec2 0 0) 0%Z.

(** The left hand closes, opens while the right hand closes. *)
Definition twoHands : list App.Update :=
  [ (Some (fistHand 1 0), None);
    (Some (openHand 1 0), Some (fistHand (-1) 0)) ].

(** The left hand closes, opens, closes again. *)
Definition closeTwice : list App.Update :=
  [ (Some (fistHand 1 0), None);
    (Some (openHand 1 0), None);
    (Some (fistHand 1 0), None) ].

(** Both hands out of view. *)
Definition nobody : App.Update := (None, None).

(** One hand closing and opening [n] times: [2 * n] callbacks. *)
Fixpoint fistCloses (n : nat) : list App.Update :=
  match n with
  | O => []
  | S m => (Some (fistHand 0 0), None) :: (Some (openHand 0 0), None) :: fistCloses m
  end.

(** A hand of 21 landmarks: the wrist at (wx, wy), the palm centre at
    (0.5, 0.5) and every other landmark [d] to the right of the palm centre. *)
Definition handAt (wx wy d : R) : list Tracker.Landmark :=
  Tracker.mkLandmark wx wy
  :: repeat (Tracker.mkLandmark (0.5 + d) 0.5) 8
  ++ Tracker.mkLandmark 0.5 0.5
  :: repeat (Tracker.mkLandmark (0.5 + d) 0.5) 11.

(** Results that hold one hand. *)
Definition seen (label : string) (landmarks : list Tracker.Landmark)
    : Tracker.Results :=
  Tracker.mkResults (Some [landmarks]) (Some [label]).

(** A frame a tenth of a second long in which the hand is a fist at (1, 0). *)
Definition fistFrame : Scene.Frame :=
  Scene.mkFrame true (fistHand 1 0) App.INITIAL_HAND_STATE false 0 0.1.

(** A frame a tenth of a second long in which the hand is out of view. *)
Definition absentFrame : Scene.Frame :=
  Scene.mkFrame true App.INITIAL_HAND_STATE App.INITIAL_HAND_STATE false 0.1 0.1.

(** A stand-in for three.js: one vertex per geometry, rotations that do
    nothing, and the usual vector arithmetic. *)
Definition standIn : Library.Three :=
  {| Library.positionArray := fun _ => [Library.Fin 0; Library.Fin 0; Library.Fin 0];
     Library.applyEuler := fun v _ _ _ => v;
     Library.applyAxisAngle := fun v _ _ => v;
     Library.normalize := fun v => v;
     Library.addVectors := fun v w =>
       Library.mkVector3
         (Library.add (Library.x3 v) (Library.x3 w))
         (Library.add (Library.y3 v) (Library.y3 w))
         (Library.add (Library.z3 v) (Library.z3 w));
     Library.multiplyScalar := fun v s =>
       Library.mkVector3
         (Library.mul (Library.x3 v) s)
         (Library.mul (Library.y3 v) s)
         (Library.mul (Library.z3 v) s);
     Library.lerp := fun x y t =>
       Library.add (Library.mul (Library.sub (Library.Fin 1) t) x) (Library.mul t y) |}.

(** The stream on which [Math.random()] is always 0.5: every sample of the
    gyroid is the origin, and passes. *)
Definition evenDraws : nat -> R := fun _ => 0.5.

(** The stream on which [Math.random()] is always 0.625: every sample of the
    gyroid is (pi/4, pi/4, pi/4), and fails. *)
Definition stuckDraws : nat -> R := fun _ => 0.625.

End Demo.

(** * Properties of the selector and of the orbit smoother *)

Module AppFacts.
Import App.

(** ** The counter and the index it assigns *)

Lemma updateHand_count (current : option HandState) (prevHand : HandState) (c : Z) :
  snd (updateHand current prevHand c) = (c + bump (isTransition current prevHand))%Z.
Proof.
  unfold updateHand, isTransition, bump.
  destruct current as [cur|]; simpl.
  - destruct (isFist cur && negb (isFist prevHand)); simpl; lia.
  - lia.
Qed.

Lemma updateHand_transition (cur prevHand : HandState) (c : Z) :
  isTransition (Some cur) prevHand = true ->
  shapeIndex (fst (updateHand (Some cur) prevHand c)) = Z.rem c librarySize.
Proof.
  unfold updateHand, isTransition. intros ->. simpl.
  f_equal. lia.
Qed.

Lemma updateHand_carry (cur prevHand : HandState) (c : Z) :
  isTransition (Some cur) prevHand = false ->
  shapeIndex (fst (updateHand (Some cur) prevHand c)) = shapeIndex prevHand.
Proof.
  unfold updateHand, isTransition. intros ->. reflexivity.
Qed.

Lemma updateHand_absent (prevHand : HandState) (c : Z) :
  updateHand None prevHand c = (INITIAL_HAND_STATE, c).
Proof. reflexivity. Qed.

Lemma step_hands (s : Session) (u : Update) :
  leftHand (appState (step s u))
    = fst (updateHand (fst u) (leftHand (appState s)) (fistCount s))
  /\ rightHand (appState (step s u))
    = fst (updateHand (snd u) (rightHand (appState s))
             (snd (updateHand (fst u) (leftHand (appState s)) (fistCount s))))
  /\ fistCount (step s u)
    = snd (updateHand (snd u) (rightHand (appState s))
             (snd (updateHand (fst u) (leftHand (appState s)) (fistCount s)))).
Proof.
  unfold step, handleHandUpdate.
  destruct (updateHand (fst u) (leftHand (appState s)) (fistCount s)) as [nl c1].
  simpl.
  destruct (updateHand (snd u) (rightHand (appState s)) c1) as [nr c2].
  simpl. auto.
Qed.

Lemma step_count (s : Session) (u : Update) :
  fistCount (step s u)
  = (fistCount s + bump (isTransition (fst u) (leftHand (appState s)))
               + bump (isTransition (snd u) (rightHand (appState s))))%Z.
Proof.
  destruct (step_hands s u) as (_ & _ & ->).
  now rewrite !updateHand_count.
Qed.

(** The global counter never decreases, and stays a count. *)
Lemma step_count_mono (s : Session) (u : Update) :
  (fistCount s <= fistCount (step s u))%Z.
Proof.
  rewrite step_count. unfold bump.
  destruct (isTransition _ _), (isTransition _ _); lia.
Qed.

Lemma rem_is_mod (c : Z) : (0 <= c)%Z -> Z.rem c librarySize = (c mod librarySize)%Z.
Proof. intros H. apply Z.rem_mod_nonneg; [exact H | unfold librarySize; lia]. Qed.

(** The transitions of one callback, spelled out from the counter. *)
Lemma transitionsOf_spec (u : Update) (s : Session) :
  let tl := isTransition (fst u) (leftHand (appState s)) in
  let tr := isTransition (snd u) (rightHand (appState s)) in
  transitionsOf u s
  = (if tl then [(LeftH, Z.rem (fistCount s) librarySize)] else [])
    ++ (if tr then [(RightH, Z.rem (fistCount s + bump tl) librarySize)] else []).
Proof.
  intros tl tr. unfold transitionsOf.
  destruct (step_hands s u) as (HL & HR & _). rewrite HL, HR.
  rewrite updateHand_count. fold tl. fold tr.
  f_equal.
  - destruct tl eqn:E; [|reflexivity].
    destruct (fst u) as [cur|]; [|discriminate E].
    now rewrite updateHand_transition.
  - destruct tr eqn:E; [|reflexivity].
    destruct (snd u) as [cur|]; [|discriminate E].
    now rewrite updateHand_transition.
Qed.

Lemma transitionsOf_length (u : Update) (s : Session) :
  Z.of_nat (length (transitionsOf u s))
  = (bump (isTransition (fst u) (leftHand (appState s)))
     + bump (isTransition (snd u) (rightHand (appState s))))%Z.
Proof.
  rewrite transitionsOf_spec. cbv zeta.
  destruct (isTransition _ _), (isTransition _ _); reflexivity.
Qed.

(** Position [k] of the log of a session whose counter is [c] holds [c + k]
    reduced by the selector's modulus. *)
Lemma transitionLog_nth (us : list Update) :
  forall (s : Session) (k : nat) (h : Hand) (idx : Z),
    (0 <= fistCount s)%Z ->
    nth_error (transitionLog us s) k = Some (h, idx) ->
    idx = ((fistCount s + Z.of_nat k) mod librarySize)%Z.
Proof.
  induction us as [|u rest IH]; intros s k h idx Hc Hk.
  - destruct k; discriminate Hk.
  - simpl in Hk.
    destruct (Nat.lt_ge_cases k (length (transitionsOf u s))) as [Hlt|Hge].
    + rewrite nth_error_app1 in Hk by exact Hlt.
      rewrite transitionsOf_spec in Hk. cbv zeta in Hk.
      pose proof (transitionsOf_length u s) as HL.
      destruct (isTransition (fst u) (leftHand (appState s))) eqn:El,
               (isTransition (snd u) (rightHand (appState s))) eqn:Er;
        simpl in Hk, HL.
      * destruct k as [|[|k]]; simpl in Hk.
        -- injection Hk as _ <-; rewrite rem_is_mod by lia; f_equal; lia.
        -- injection Hk as _ <-; rewrite rem_is_mod by lia; f_equal; lia.
        -- destruct k; discriminate Hk.
      * destruct k as [|k]; simpl in Hk.
        -- injection Hk as _ <-; rewrite rem_is_mod by lia; f_equal; lia.
        -- destruct k; discriminate Hk.
      * destruct k as [|k]; simpl in Hk.
        -- injection Hk as _ <-; rewrite rem_is_mod by lia; f_equal; lia.
        -- destruct k; discriminate Hk.
      * destruct k; discriminate Hk.
    + rewrite nth_error_app2 in Hk by exact Hge.
      apply IH in Hk.
      * rewrite Hk. f_equal.
        pose proof (transitionsOf_length u s) as HL.
        rewrite step_count. lia.
      * pose proof (step_count_mono s u). lia.
Qed.

(** ** The orbit scalar *)

Lemma step_orbit (s : Session) (u : Update) :
  cameraOrbit (appState (step s u))
  = nextOrbit (leftHand (appState (step s u))) (rightHand (appState (step s u)))
      (cameraOrbit (appState s)).
Proof.
  unfold step, handleHandUpdate.
  destruct (updateHand (fst u) (leftHand (appState s)) (fistCount s)) as [nl c1].
  destruct (updateHand (snd u) (rightHand (appState s)) c1) as [nr c2].
  reflexivity.
Qed.

Lemma nextOrbit_inactive (l r : HandState) (o : R) :
  isActive l = false -> isActive r = false -> nextOrbit l r o = o * 0.96.
Proof. unfold nextOrbit. intros -> ->. reflexivity. Qed.

Lemma nextOrbit_active (l r : HandState) (o : R) :
  isActive l || isActive r = true ->
  nextOrbit l r o
  = o * 0.94
    + (average (map (fun h => vx (position h)) (filter isActive [l; r])) * 0.4) * 0.06.
Proof.
  unfold nextOrbit, average.
  destruct (isActive l) eqn:El, (isActive r) eqn:Er; simpl;
    rewrite ?El, ?Er; simpl; intros H; try discriminate H; field.
Qed.

(** A run of callbacks that leave no hand active scales the orbit by a
    factor of (0, 1]. *)
Lemma run_inactive_orbit (us : list Update) :
  forall s, allInactive us s ->
    exists k : R,
      0 < k <= 1
      /\ cameraOrbit (appState (run us s)) = k * cameraOrbit (appState s).
Proof.
  induction us as [|u rest IH]; intros s H.
  - exists 1. split; [lra|]. simpl. lra.
  - destruct H as [[Hl Hr] Hrest].
    destruct (IH (step s u) Hrest) as (k & Hk & E).
    exists (k * 0.96). split; [nra|].
    change (run (u :: rest) s) with (run rest (step s u)).
    rewrite E, step_orbit, nextOrbit_inactive by assumption. ring.
Qed.

Lemma run_app (us vs : list Update) (s : Session) :
  run (us ++ vs) s = run vs (run us s).
Proof. unfold run. apply fold_left_app. Qed.

(** ** The claims on [App.tsx] *)

(** C2, amended.  A callback in which a hand is absent replaces that hand's
    state by the initial one: its shapeIndex becomes 0, whatever index it was
    last assigned.  When the hand comes back open it carries 0.  When it
    comes back as a fist the selector handles an open-to-fist transition: the
    counter rises and the hand gets the next index, the number of
    transitions counted before it reduced by the selector's modulus. *)
Theorem C2_absent_hand_resets :
  forall (s : Session) (u : Update) (h : Hand),
    sampleOf h u = None ->
    handOf h (appState (step s u)) = INITIAL_HAND_STATE
    /\ shapeIndex (handOf h (appState (step s u))) = 0%Z
    /\ (forall (u' : Update) (cur : HandState),
          sampleOf h u' = Some cur ->
          let s1 := step s u in
          let s2 := step s1 u' in
          if isFist cur
          then isTransition (Some cur) (handOf h (appState s1)) = true
               /\ In (h, shapeIndex (handOf h (appState s2))) (transitionsOf u' s1)
               /\ shapeIndex (handOf h (appState s2))
                  = Z.rem (fistCount s1
                           + match h with
                             | LeftH => 0
                             | RightH =>
                                 bump (isTransition (fst u') (leftHand (appState s1)))
                             end) librarySize
               /\ (fistCount s1 < fistCount s2)%Z
          else shapeIndex (handOf h (appState s2)) = 0%Z).
Proof.
  intros s u h Habs.
  assert (Hinit : handOf h (appState (step s u)) = INITIAL_HAND_STATE).
  { destruct (step_hands s u) as (HL & HR & _).
    destruct h; simpl in *.
    - rewrite HL, Habs. reflexivity.
    - rewrite HR, Habs. reflexivity. }
  split; [exact Hinit|]. split; [rewrite Hinit; reflexivity|].
  intros u' cur Hs s1 s2. destruct (isFist cur) eqn:Ef.
  - assert (Ht : isTransition (Some cur) (handOf h (appState s1)) = true).
    { subst s1. rewrite Hinit. simpl. rewrite Ef. reflexivity. }
    split; [exact Ht|].
    destruct (step_hands s1 u') as (HL & HR & _).
    pose proof (step_count s1 u') as Hc. fold s2 in HL, HR, Hc.
    destruct h; cbn [handOf sampleOf] in *.
    + split; [|split].
      * unfold transitionsOf. fold s2. rewrite Hs, Ht.
        apply in_or_app. left. left. reflexivity.
      * rewrite HL, Hs, updateHand_transition by exact Ht. f_equal. lia.
      * rewrite Hs, Ht in Hc. unfold bump in Hc.
        destruct (isTransition (snd u') _); simpl in Hc; lia.
    + split; [|split].
      * unfold transitionsOf. fold s2. rewrite Hs, Ht.
        apply in_or_app. right. left. reflexivity.
      * rewrite HR, Hs, updateHand_transition by exact Ht.
        now rewrite updateHand_count.
      * rewrite Hs, Ht in Hc. unfold bump in Hc.
        destruct (isTransition (fst u') _); simpl in Hc; lia.
  - assert (Ht : isTransition (Some cur) (handOf h (appState s1)) = false)
      by (simpl; rewrite Ef; reflexivity).
    destruct (step_hands s1 u') as (HL & HR & _). fold s2 in HL, HR.
    destruct h; cbn [handOf sampleOf] in *.
    + rewrite HL, Hs, updateHand_carry by exact Ht.
      subst s1. rewrite Hinit. reflexivity.
    + rewrite HR, Hs, updateHand_carry by exact Ht.
      subst s1. rewrite Hinit. reflexivity.
Qed.

(** C7, amended.  A callback that leaves no hand active sets the orbit to
    orbit * 0.96.  Over any number of such callbacks in a row the magnitude
    of the orbit never increases, the orbit keeps its sign, and it is never
    0 when it starts nonzero.  A callback that leaves a hand active sets the
    orbit to orbit * 0.94 + (average x of the active hands * 0.4) * 0.06. *)
Theorem C7_orbit_rules :
  (forall (s : Session) (u : Update),
      noActiveHand s u ->
      cameraOrbit (appState (step s u)) = cameraOrbit (appState s) * 0.96)
  /\ (forall (us : list Update) (s : Session),
      allInactive us s ->
      Rabs (cameraOrbit (appState (run us s))) <= Rabs (cameraOrbit (appState s))
      /\ (0 <= cameraOrbit (appState s) -> 0 <= cameraOrbit (appState (run us s)))
      /\ (cameraOrbit (appState s) <= 0 -> cameraOrbit (appState (run us s)) <= 0)
      /\ (cameraOrbit (appState s) <> 0 -> cameraOrbit (appState (run us s)) <> 0))
  /\ (forall (s : Session) (u : Update),
      isActive (leftHand (appState (step s u)))
        || isActive (rightHand (appState (step s u))) = true ->
      cameraOrbit (appState (step s u))
      = cameraOrbit (appState s) * 0.94
        + (average (activeXs (appState (step s u))) * 0.4) * 0.06).
Proof.
  split.
  { intros s u [Hl Hr]. now rewrite step_orbit, nextOrbit_inactive. }
  split.
  { intros us s Hin.
    destruct (run_inactive_orbit us s Hin) as (k & Hk & E). rewrite E.
    split; [|split; [|split]].
    - rewrite Rabs_mult, (Rabs_pos_eq k) by lra.
      pose proof (Rabs_pos (cameraOrbit (appState s))). nra.
    - intros H. nra.
    - intros H. nra.
    - intros H. apply Rmult_integral_contrapositive_currified; [lra | exact H]. }
  intros s u Hact. rewrite step_orbit. unfold activeXs.
  now apply nextOrbit_active.
Qed.

(** ** The claims at sample inputs *)

(** C2 as stated fails: the left hand is assigned index 1 by its second
    fist-close; one callback without it and its index is 0, and it is still 0
    when the hand is back, open. *)
Lemma C2_absent_hand_loses_index :
  shapeIndex (leftHand (appState (run Demo.closeTwice initialSession))) = 1%Z
  /\ shapeIndex (leftHand (appState
       (run (Demo.closeTwice ++ [Demo.nobody]) initialSession))) = 0%Z
  /\ shapeIndex (leftHand (appState
       (run (Demo.closeTwice ++ [Demo.nobody; (Some (Demo.openHand 1 0), None)])
          initialSession))) = 0%Z.
Proof. repeat split; reflexivity. Qed.

(** C2, amended, at the same input: the left hand, at index 1 after closing
    twice, is reset by a callback without it; back as a fist it makes the
    third transition of the session and gets index 2. *)
Lemma C2_absent_hand_resets_witness :
  let s := run Demo.closeTwice initialSession in
  let back : Update := (Some (Demo.fistHand 1 0), None) in
  sampleOf LeftH Demo.nobody = None
  /\ sampleOf LeftH back = Some (Demo.fistHand 1 0)
  /\ shapeIndex (handOf LeftH (appState s)) = 1%Z
  /\ handOf LeftH (appState (step s Demo.nobody)) = INITIAL_HAND_STATE
  /\ shapeIndex (handOf LeftH (appState (step (step s Demo.nobody) back)))
     = Z.rem (fistCount (step s Demo.nobody) + 0) librarySize
  /\ Z.rem (fistCount (step s Demo.nobody) + 0) librarySize = 2%Z.
Proof.
  cbv zeta.
  pose proof (C2_absent_hand_resets (run Demo.closeTwice initialSession)
                Demo.nobody LeftH eq_refl) as (Hinit & _ & Hback).
  specialize (Hback (Some (Demo.fistHand 1 0), None) (Demo.fistHand 1 0) eq_refl).
  cbv zeta in Hback. cbn [Demo.fistHand isFist] in Hback.
  destruct Hback as (_ & _ & Hidx & _).
  split; [reflexivity|]. split; [reflexivity|]. split; [reflexivity|].
  split; [exact Hinit|]. split; [exact Hidx | reflexivity].
Defined.

(** C7, amended, at an orbit of 1 and two callbacks that see no hand. *)
Lemma C7_orbit_rules_witness :
  let s := mkSession (mkApp INITIAL_HAND_STATE INITIAL_HAND_STATE 1) 0%Z in
  allInactive [Demo.nobody; Demo.nobody] s
  /\ cameraOrbit (appState s) <> 0
  /\ cameraOrbit (appState (step s Demo.nobody)) = cameraOrbit (appState s) * 0.96
  /\ Rabs (cameraOrbit (appState (run [Demo.nobody; Demo.nobody] s)))
     <= Rabs (cameraOrbit (appState s))
  /\ cameraOrbit (appState (run [Demo.nobody; Demo.nobody] s)) <> 0.
Proof.
  cbv zeta.
  assert (H : allInactive [Demo.nobody; Demo.nobody]
                (mkSession (mkApp INITIAL_HAND_STATE INITIAL_HAND_STATE 1) 0%Z)).
  { repeat split; reflexivity. }
  assert (Hne : cameraOrbit
                  (appState (mkSession (mkApp INITIAL_HAND_STATE INITIAL_HAND_STATE 1) 0%Z))
                <> 0) by (simpl; lra).
  split; [exact H|]. split; [exact Hne|].
  split.
  { apply (proj1 C7_orbit_rules). split; reflexivity. }
  destruct (proj1 (proj2 C7_orbit_rules) _ _ H) as (Hle & _ & _ & Hnz).
  split; [exact Hle | exact (Hnz Hne)].
Defined.

(** ** More on the counter *)

Lemma transitionLog_length (us : list Update) :
  forall s : Session,
    fistCount (run us s) = (fistCount s + Z.of_nat (length (transitionLog us s)))%Z.
Proof.
  induction us as [|u rest IH]; intros s.
  - simpl. lia.
  - change (run (u :: rest) s) with (run rest (step s u)).
    rewrite IH. simpl transitionLog. rewrite length_app, Nat2Z.inj_add.
    rewrite step_count, transitionsOf_length. lia.
Qed.

(** X1.  The fist counter is one counter for both hands: it never decreases,
    a callback raises it by the number of hands that make an open-to-fist
    transition in it, and after any callbacks from the start of the session
    it is the number of transitions seen so far. *)
Theorem X1_counter_counts_transitions :
  (forall (s : Session) (u : Update), (fistCount s <= fistCount (step s u))%Z)
  /\ (forall (s : Session) (u : Update),
        fistCount (step s u)
        = (fistCount s + Z.of_nat (length (transitionsOf u s)))%Z)
  /\ (forall us : list Update,
        fistCount (run us initialSession)
        = Z.of_nat (length (transitionLog us initialSession))).
Proof.
  split; [exact step_count_mono|]. split.
  - intros s u. rewrite step_count, transitionsOf_length. lia.
  - intros us. rewrite transitionLog_length. simpl fistCount. lia.
Qed.

(** ** The indices a session can hold *)

Lemma rem_range (c : Z) :
  (0 <= c)%Z -> (0 <= Z.rem c librarySize < librarySize)%Z /\ (Z.rem c librarySize <= c)%Z.
Proof.
  intros Hc. rewrite rem_is_mod by exact Hc. unfold librarySize.
  pose proof (Z.mod_pos_bound c 65 ltac:(lia)).
  pose proof (Z.mod_le c 65 Hc ltac:(lia)). lia.
Qed.

Lemma updateHand_index (current : option HandState) (prevHand : HandState) (c : Z) :
  (0 <= c)%Z ->
  (0 <= shapeIndex prevHand < librarySize)%Z ->
  (shapeIndex prevHand <= Z.max 0 (c - 1))%Z ->
  (0 <= shapeIndex (fst (updateHand current prevHand c)) < librarySize)%Z
  /\ (shapeIndex (fst (updateHand current prevHand c))
      <= Z.max 0 (snd (updateHand current prevHand c) - 1))%Z.
Proof.
  intros Hc Hr Hm. unfold updateHand.
  destruct current as [cur|].
  - destruct (isFist cur && negb (isFist prevHand)); cbn [fst snd setShapeIndex shapeIndex].
    + replace (c + 1 - 1)%Z with c by lia.
      pose proof (rem_range c Hc). lia.
    + lia.
  - cbn [fst snd INITIAL_HAND_STATE shapeIndex]. unfold librarySize. lia.
Qed.

Lemma step_indexed (s : Session) (u : Update) : indexed s -> indexed (step s u).
Proof.
  intros [Hc Hi].
  destruct (step_hands s u) as (El & Er & Ec).
  pose proof (Hi LeftH) as [HlR HlM]. pose proof (Hi RightH) as [HrR HrM].
  cbn [handOf] in HlR, HlM, HrR, HrM.
  pose proof (updateHand_count (fst u) (leftHand (appState s)) (fistCount s)) as E1.
  set (c1 := snd (updateHand (fst u) (leftHand (appState s)) (fistCount s))) in *.
  pose proof (updateHand_count (snd u) (rightHand (appState s)) c1) as E2.
  assert (H1 : (fistCount s <= c1)%Z)
    by (rewrite E1; unfold bump; destruct (isTransition (fst u) _); lia).
  assert (H2 : (c1 <= fistCount (step s u))%Z)
    by (rewrite Ec, E2; unfold bump; destruct (isTransition (snd u) _); lia).
  pose proof (updateHand_index (fst u) (leftHand (appState s)) (fistCount s)
                Hc HlR HlM) as [Ll Lm].
  fold c1 in Lm.
  pose proof (updateHand_index (snd u) (rightHand (appState s)) c1
                ltac:(lia) HrR ltac:(lia)) as [Rl Rm].
  rewrite <- Ec in Rm.
  split; [lia|].
  intros [|]; cbn [handOf]; [rewrite El | rewrite Er]; split; (assumption || lia).
Qed.

Lemma run_indexed (us : list Update) : forall s : Session, indexed s -> indexed (run us s).
Proof.
  induction us as [|u rest IH]; intros s H; [exact H|].
  change (run (u :: rest) s) with (run rest (step s u)).
  apply IH, step_indexed, H.
Qed.

Lemma initial_indexed : indexed initialSession.
Proof.
  split; [simpl; lia|]. intros [|]; cbn; unfold librarySize; lia.
Qed.

Lemma consecutive_differ (c : Z) :
  (c mod librarySize <> (c + 1) mod librarySize)%Z.
Proof.
  unfold librarySize. intros E.
  assert (H : ((c + 1 - c) mod 65 = 0)%Z).
  { rewrite Zminus_mod, <- E, Z.sub_diag. reflexivity. }
  replace (c + 1 - c)%Z with 1%Z in H by lia. discriminate H.
Qed.

(** X11.  Two hands that close in the same callback get two shapes: the left
    hand the index the counter stands at, the right hand the next one, and
    the two indices differ; the counter goes up by 2. *)
Theorem X11_two_fists_two_shapes :
  forall (us : list Update) (l r : HandState),
    let s := run us initialSession in
    isFist l = true -> isFist r = true ->
    isFist (leftHand (appState s)) = false ->
    isFist (rightHand (appState s)) = false ->
    let s' := step s (Some l, Some r) in
    shapeIndex (leftHand (appState s')) = (fistCount s mod librarySize)%Z
    /\ shapeIndex (rightHand (appState s')) = ((fistCount s + 1) mod librarySize)%Z
    /\ shapeIndex (leftHand (appState s')) <> shapeIndex (rightHand (appState s'))
    /\ fistCount s' = (fistCount s + 2)%Z.
Proof.
  intros us l r s Hl Hr Hpl Hpr s'.
  destruct (run_indexed us initialSession initial_indexed) as [Hc _].
  fold s in Hc.
  destruct (step_hands s (Some l, Some r)) as (El & Er & Ec).
  fold s' in El, Er, Ec. cbn [fst snd] in El, Er, Ec.
  assert (Tl : isTransition (Some l) (leftHand (appState s)) = true)
    by (unfold isTransition; now rewrite Hl, Hpl).
  assert (Tr : isTransition (Some r) (rightHand (appState s)) = true)
    by (unfold isTransition; now rewrite Hr, Hpr).
  pose proof (updateHand_count (Some l) (leftHand (appState s)) (fistCount s)) as E1.
  rewrite Tl in E1. cbn [bump] in E1.
  assert (Il : shapeIndex (leftHand (appState s')) = (fistCount s mod librarySize)%Z).
  { rewrite El, updateHand_transition by exact Tl. now apply rem_is_mod. }
  assert (Ir : shapeIndex (rightHand (appState s')) = ((fistCount s + 1) mod librarySize)%Z).
  { rewrite Er, updateHand_transition by exact Tr. rewrite E1. apply rem_is_mod. lia. }
  split; [exact Il|]. split; [exact Ir|]. split.
  - rewrite Il, Ir. apply consecutive_differ.
  - rewrite Ec, updateHand_count, Tr, E1. cbn [bump]. lia.
Qed.

Lemma X11_two_fists_two_shapes_witness :
  let s := run (Demo.closeTwice ++ [Demo.nobody]) initialSession in
  let l := Demo.fistHand 1 0 in
  let r := Demo.fistHand (-1) 0 in
  isFist l = true /\ isFist r = true
  /\ isFist (leftHand (appState s)) = false
  /\ isFist (rightHand (appState s)) = false
  /\ shapeIndex (leftHand (appState (step s (Some l, Some r))))
     = (fistCount s mod librarySize)%Z
  /\ shapeIndex (rightHand (appState (step s (Some l, Some r))))
     = ((fistCount s + 1) mod librarySize)%Z.
Proof.
  cbv zeta. do 4 (split; [reflexivity|]).
  destruct (X11_two_fists_two_shapes (Demo.closeTwice ++ [Demo.nobody])
              (Demo.fistHand 1 0) (Demo.fistHand (-1) 0)
              eq_refl eq_refl eq_refl eq_refl) as (Hl & Hr & _).
  split; [exact Hl | exact Hr].
Defined.

End AppFacts.

(** * Properties of the hand tracker's callback *)

Module TrackerFacts.
Import Tracker.

(** ** One hand *)

Lemma item_complete (landmarks : list Landmark) (k : nat) :
  complete landmarks -> (k < 21)%nat ->
  item landmarks k = Some (nth k landmarks (mkLandmark 0 0)).
Proof.
  unfold complete, item. intros H Hk. apply nth_error_nth'. lia.
Qed.

Lemma handStateOf_complete (landmarks : list Landmark) :
  complete landmarks ->
  handStateOf landmarks
  = Some (mkHand true (detectsFist landmarks)
            (mkVec3 ((0.5 - lx (wristOf landmarks)) * 8.5)
                    ((0.5 - ly (wristOf landmarks)) * 6)
                    (if detectsFist landmarks then 0.5 else 0))
            (mkVec2 0 0) 0%Z).
Proof.
  intros H. unfold handStateOf.
  rewrite !(item_complete landmarks) by (assumption || lia).
  reflexivity.
Qed.

Lemma handStateOf_short (landmarks : list Landmark) :
  (length landmarks < 21)%nat -> handStateOf landmarks = None.
Proof.
  intros H. unfold handStateOf, item.
  assert (E : nth_error landmarks 20 = None) by (apply nth_error_None; lia).
  rewrite E.
  destruct (nth_error landmarks 0); [|reflexivity].
  destruct (nth_error landmarks 9); [|reflexivity].
  destruct (nth_error landmarks 8); [|reflexivity].
  destruct (nth_error landmarks 12); [|reflexivity].
  destruct (nth_error landmarks 16); reflexivity.
Qed.

Lemma handStateOf_None (landmarks : list Landmark) :
  handStateOf landmarks = None <-> (length landmarks < 21)%nat.
Proof.
  split; [|apply handStateOf_short].
  intros E. destruct (Nat.lt_ge_cases (length landmarks) 21) as [H|H]; [exact H|].
  rewrite handStateOf_complete in E by exact H. discriminate.
Qed.

Lemma avgDist_four (a b c d palmCenter : Landmark) :
  avgDist [a; b; c; d] palmCenter
  = (tipDistance a palmCenter + tipDistance b palmCenter
     + tipDistance c palmCenter + tipDistance d palmCenter) / 4.
Proof. unfold avgDist. simpl. lra. Qed.

Lemma tipDistance_nonneg (tip palmCenter : Landmark) : 0 <= tipDistance tip palmCenter.
Proof. apply sqrt_pos. Qed.

Lemma tipDistance_translate (dx dy : R) (tip palmCenter : Landmark) :
  tipDistance (mkLandmark (lx tip + dx) (ly tip + dy))
              (mkLandmark (lx palmCenter + dx) (ly palmCenter + dy))
  = tipDistance tip palmCenter.
Proof. unfold tipDistance. simpl. f_equal. ring. Qed.

Lemma tipDistance_scale (k : R) (tip palmCenter : Landmark) :
  0 <= k ->
  tipDistance (mkLandmark (k * lx tip) (k * ly tip))
              (mkLandmark (k * lx palmCenter) (k * ly palmCenter))
  = k * tipDistance tip palmCenter.
Proof.
  intros Hk. unfold tipDistance. cbn [lx ly].
  replace ((k * lx tip - k * lx palmCenter) ^ 2 + (k * ly tip - k * ly palmCenter) ^ 2)
    with ((k * k) * ((lx tip - lx palmCenter) ^ 2 + (ly tip - ly palmCenter) ^ 2))
    by ring.
  rewrite sqrt_mult_alt by nra.
  now rewrite sqrt_square.
Qed.

Lemma nth_mapped (f : Landmark -> Landmark) (landmarks : list Landmark) (k : nat) :
  (k < length landmarks)%nat ->
  nth k (map f landmarks) (mkLandmark 0 0) = f (nth k landmarks (mkLandmark 0 0)).
Proof.
  intros H. rewrite (nth_indep _ _ (f (mkLandmark 0 0))) by (now rewrite length_map).
  apply map_nth.
Qed.

Lemma avgDist_translate (dx dy : R) (landmarks : list Landmark) :
  complete landmarks ->
  avgDist (tipsOf (translate dx dy landmarks)) (palmOf (translate dx dy landmarks))
  = avgDist (tipsOf landmarks) (palmOf landmarks).
Proof.
  unfold complete. intros H. unfold tipsOf, palmOf, translate. cbn [map].
  rewrite !nth_mapped by lia. rewrite !avgDist_four, !tipDistance_translate.
  reflexivity.
Qed.

Lemma avgDist_scale (k : R) (landmarks : list Landmark) :
  complete landmarks -> 0 <= k ->
  avgDist (tipsOf (scale k landmarks)) (palmOf (scale k landmarks))
  = k * avgDist (tipsOf landmarks) (palmOf landmarks).
Proof.
  unfold complete. intros H Hk. unfold tipsOf, palmOf, scale. cbn [map].
  rewrite !nth_mapped by lia. rewrite !avgDist_four, !tipDistance_scale by exact Hk.
  lra.
Qed.

Lemma detectsFist_iff (landmarks : list Landmark) :
  detectsFist landmarks = true <-> avgDist (tipsOf landmarks) (palmOf landmarks) < 0.11.
Proof.
  unfold detectsFist.
  destruct (Rlt_dec (avgDist (tipsOf landmarks) (palmOf landmarks)) 0.11);
    split; intros; (assumption || reflexivity || discriminate || contradiction).
Qed.

Lemma avgDist_tips (landmarks : list Landmark) :
  avgDist (tipsOf landmarks) (palmOf landmarks)
  = (tipDistance (nth 8 landmarks (mkLandmark 0 0)) (palmOf landmarks)
     + tipDistance (nth 12 landmarks (mkLandmark 0 0)) (palmOf landmarks)
     + tipDistance (nth 16 landmarks (mkLandmark 0 0)) (palmOf landmarks)
     + tipDistance (nth 20 landmarks (mkLandmark 0 0)) (palmOf landmarks)) / 4.
Proof. unfold tipsOf. cbn [map]. apply avgDist_four. Qed.

(** ** The loop over the hands *)

Lemma forEachHand_shift (hands : list (list Landmark)) :
  forall (index : nat) (handednesses : list string)
         (found : option HandState * option HandState),
    forEachHand hands index handednesses found
    = forEachHand hands 0 (skipn index handednesses) found.
Proof.
  induction hands as [|landmarks rest IH]; intros index handednesses found.
  - reflexivity.
  - cbn [forEachHand]. unfold item.
    rewrite nth_error_skipn, Nat.add_0_r.
    destruct (nth_error handednesses index) as [handedness|]; [|reflexivity].
    cbn [andThen].
    destruct (handStateOf landmarks) as [handState|]; [|reflexivity].
    cbn [andThen].
    rewrite (IH (S index) handednesses), (IH 1%nat (skipn index handednesses)).
    now rewrite skipn_skipn.
Qed.

Lemma forEachHand_cons (landmarks : list Landmark) (rest : list (list Landmark))
    (handedness : string) (others : list string)
    (found : option HandState * option HandState) :
  forEachHand (landmarks :: rest) 0 (handedness :: others) found
  = match handStateOf landmarks with
    | Some handState =>
        forEachHand rest 0 others
          (if String.eqb handedness "Left"
           then (Some handState, snd found) else (fst found, Some handState))
    | None => None
    end.
Proof.
  cbn [forEachHand item nth_error andThen].
  destruct (handStateOf landmarks) as [handState|]; [|reflexivity].
  cbn [andThen]. now rewrite forEachHand_shift.
Qed.

Lemma labelled_nil (left : bool) (handednesses : list string) :
  labelled left [] handednesses = [].
Proof. unfold labelled. now destruct handednesses. Qed.

Lemma labelled_cons (left : bool) (landmarks : list Landmark)
    (rest : list (list Landmark)) (handedness : string) (others : list string) :
  labelled left (landmarks :: rest) (handedness :: others)
  = if Bool.eqb (String.eqb handedness "Left") left
    then landmarks :: labelled left rest others
    else labelled left rest others.
Proof.
  unfold labelled. cbn [combine filter fst].
  now destruct (Bool.eqb (String.eqb handedness "Left") left).
Qed.

Lemma forEachHand_complete (hands : list (list Landmark)) :
  forall (handednesses : list string) (found : option HandState * option HandState),
    (length hands <= length handednesses)%nat -> Forall complete hands ->
    forEachHand hands 0 handednesses found
    = Some (lastHand (fst found) (labelled true hands handednesses),
            lastHand (snd found) (labelled false hands handednesses)).
Proof.
  induction hands as [|landmarks rest IH]; intros handednesses found Hlen Hall.
  - rewrite !labelled_nil. now destruct found.
  - destruct handednesses as [|handedness others]; [simpl in Hlen; lia|].
    inversion Hall as [|? ? Hc Hrest]; subst.
    rewrite forEachHand_cons, !labelled_cons.
    assert (E := handStateOf_complete landmarks Hc).
    rewrite E. rewrite IH by (simpl in Hlen; lia || assumption).
    destruct (String.eqb handedness "Left"); cbn [Bool.eqb fst snd];
      unfold lastHand; cbn [fold_left]; now rewrite E.
Qed.

Lemma forEachHand_None (hands : list (list Landmark)) :
  forall (handednesses : list string) (found : option HandState * option HandState),
    forEachHand hands 0 handednesses found = None
    <-> (length handednesses < length hands)%nat
        \/ Exists (fun landmarks => (length landmarks < 21)%nat) hands.
Proof.
  induction hands as [|landmarks rest IH]; intros handednesses found.
  - cbn [forEachHand length]. split; [discriminate|].
    intros [H|H]; [lia | inversion H].
  - destruct handednesses as [|handedness others].
    + cbn [forEachHand item nth_error andThen length]. split; [left; lia | reflexivity].
    + rewrite forEachHand_cons.
      destruct (handStateOf landmarks) as [handState|] eqn:E.
      * rewrite IH. cbn [length].
        assert (Hc : ~ (length landmarks < 21)%nat).
        { intros H. apply handStateOf_short in H. congruence. }
        split.
        -- intros [H|H]; [left; lia | right; now apply Exists_cons_tl].
        -- intros [H|H]; [left; lia|].
           inversion H as [? ? H1|? ? H1]; subst; [contradiction | now right].
      * apply handStateOf_None in E. split; [|reflexivity].
        intros _. right. now apply Exists_cons_hd.
Qed.

(** What holds of every hand the loop builds holds of the hands it reports. *)
Lemma forEachHand_all (Q : HandState -> Prop) (hands : list (list Landmark)) :
  forall (index : nat) (handednesses : list string)
         (found : option HandState * option HandState)
         (l r : option HandState),
    (forall landmarks h, In landmarks hands -> handStateOf landmarks = Some h -> Q h) ->
    (forall h, fst found = Some h -> Q h) ->
    (forall h, snd found = Some h -> Q h) ->
    forEachHand hands index handednesses found = Some (l, r) ->
    (forall h, l = Some h -> Q h) /\ (forall h, r = Some h -> Q h).
Proof.
  induction hands as [|landmarks rest IH];
    intros index handednesses found l r Hall Hl Hr E.
  - cbn [forEachHand] in E. injection E as ->. cbn [fst snd] in *. now split.
  - cbn [forEachHand] in E.
    destruct (item handednesses index) as [handedness|]; [|discriminate E].
    cbn [andThen] in E.
    destruct (handStateOf landmarks) as [handState|] eqn:Eh; [|discriminate E].
    cbn [andThen] in E.
    assert (Hq : Q handState) by (apply (Hall landmarks); [now left | exact Eh]).
    apply IH in E; [exact E | | |].
    + intros lm h Hin. apply Hall. now right.
    + destruct (String.eqb handedness "Left"); cbn [fst]; [|exact Hl].
      intros h Hh. now injection Hh as <-.
    + destruct (String.eqb handedness "Left"); cbn [snd]; [exact Hr|].
      intros h Hh. now injection Hh as <-.
Qed.

Lemma onResults_all (Q : HandState -> Prop) (results : Results)
    (l r : option HandState) :
  (forall hands landmarks h,
     multiHandLandmarks results = Some hands -> In landmarks hands ->
     handStateOf landmarks = Some h -> Q h) ->
  onResults results = Some (l, r) ->
  (forall h, l = Some h -> Q h) /\ (forall h, r = Some h -> Q h).
Proof.
  intros Hall E. unfold onResults in E.
  destruct (multiHandLandmarks results) as [hands|] eqn:El.
  - destruct (multiHandedness results) as [handednesses|].
    + eapply forEachHand_all; [| | |exact E].
      * intros lm h Hin. now apply (Hall hands).
      * discriminate.
      * discriminate.
    + injection E as <- <-. split; discriminate.
  - injection E as <- <-. split; discriminate.
Qed.

Lemma handStateOf_image (landmarks : list Landmark) (h : HandState) :
  handStateOf landmarks = Some h ->
  0 <= lx (wristOf landmarks) <= 1 -> 0 <= ly (wristOf landmarks) <= 1 ->
  isActive h = true
  /\ Rabs (vx (position h)) <= 4.25 /\ Rabs (vy (position h)) <= 3.
Proof.
  intros E Hx Hy.
  assert (Hc : complete landmarks).
  { destruct (Nat.lt_ge_cases (length landmarks) 21) as [H|H]; [|exact H].
    apply handStateOf_short in H. congruence. }
  rewrite (handStateOf_complete landmarks Hc) in E. injection E as <-.
  cbn [isActive position vx vy].
  split; [reflexivity|]. split; apply Rabs_le; lra.
Qed.

(** ** What the callback reports *)

(** X7.  Fist detection.  A hand of 21 landmarks is taken for a fist exactly
    when the mean distance, in x and y, of its four fingertips from its palm
    centre is below 0.11: so it is when each fingertip is closer than 0.11,
    and is not when each is at 0.11 or more.  The verdict does not change
    when the hand is moved in the image; it does change with the size of the
    hand in the image, the mean distance scaling with it. *)
Theorem X7_fist_detection :
  forall landmarks : list Landmark,
    complete landmarks ->
    exists h : HandState,
      handStateOf landmarks = Some h
      /\ (isFist h = true <-> avgDist (tipsOf landmarks) (palmOf landmarks) < 0.11)
      /\ (Forall (fun tip => tipDistance tip (palmOf landmarks) < 0.11) (tipsOf landmarks) ->
          isFist h = true)
      /\ (Forall (fun tip => 0.11 <= tipDistance tip (palmOf landmarks)) (tipsOf landmarks) ->
          isFist h = false)
      /\ (forall dx dy : R,
            exists h' : HandState,
              handStateOf (translate dx dy landmarks) = Some h' /\ isFist h' = isFist h)
      /\ (forall k : R, 0 <= k ->
            exists h' : HandState,
              handStateOf (scale k landmarks) = Some h'
              /\ (isFist h' = true
                  <-> k * avgDist (tipsOf landmarks) (palmOf landmarks) < 0.11)).
Proof.
  intros landmarks Hc.
  eexists. split; [apply handStateOf_complete; exact Hc|]. cbn [isFist].
  split; [apply detectsFist_iff|].
  split; [|split; [|split]].
  - intros Hall. apply detectsFist_iff. rewrite avgDist_tips.
    unfold tipsOf in Hall. cbn [map] in Hall.
    inversion Hall as [|? ? H8 Hall1]; subst.
    inversion Hall1 as [|? ? H12 Hall2]; subst.
    inversion Hall2 as [|? ? H16 Hall3]; subst.
    inversion Hall3 as [|? ? H20 _]; subst. lra.
  - intros Hall.
    destruct (detectsFist landmarks) eqn:E; [|reflexivity].
    apply detectsFist_iff in E. rewrite avgDist_tips in E.
    unfold tipsOf in Hall. cbn [map] in Hall.
    inversion Hall as [|? ? H8 Hall1]; subst.
    inversion Hall1 as [|? ? H12 Hall2]; subst.
    inversion Hall2 as [|? ? H16 Hall3]; subst.
    inversion Hall3 as [|? ? H20 _]; subst. lra.
  - intros dx dy.
    assert (Hc' : complete (translate dx dy landmarks))
      by (unfold complete, translate in *; now rewrite length_map).
    eexists. split; [apply handStateOf_complete; exact Hc'|]. cbn [isFist].
    unfold detectsFist. now rewrite avgDist_translate.
  - intros k Hk.
    assert (Hc' : complete (scale k landmarks))
      by (unfold complete, scale in *; now rewrite length_map).
    eexists. split; [apply handStateOf_complete; exact Hc'|]. cbn [isFist].
    rewrite detectsFist_iff, avgDist_scale by assumption. reflexivity.
Qed.

Lemma X7_fist_detection_witness :
  complete (Demo.handAt 0.5 0.8 0.05)
  /\ exists h : HandState,
       handStateOf (Demo.handAt 0.5 0.8 0.05) = Some h
       /\ (isFist h = true
           <-> avgDist (tipsOf (Demo.handAt 0.5 0.8 0.05))
                 (palmOf (Demo.handAt 0.5 0.8 0.05)) < 0.11).
Proof.
  assert (Hc : complete (Demo.handAt 0.5 0.8 0.05))
    by (unfold complete; simpl; lia).
  split; [exact Hc|].
  destruct (X7_fist_detection (Demo.handAt 0.5 0.8 0.05) Hc) as (h & E & Hiff & _).
  exists h. split; [exact E | exact Hiff].
Defined.

(** X8.  The hand state the callback builds.  It is active, with index 0 and
    no velocity; x is (0.5 - wrist.x) * 8.5 and y is (0.5 - wrist.y) * 6, so
    that a wrist in the image gives x in [-4.25, 4.25] and y in [-3, 3], the
    centre of the image gives (0, 0), the wrist is recovered from the
    position, and x and y run against the image's; z is 0.5 for a fist and 0
    otherwise. *)
Theorem X8_tracker_hand_state :
  forall (landmarks : list Landmark) (h : HandState),
    handStateOf landmarks = Some h ->
    let wrist := wristOf landmarks in
    (complete landmarks /\ isActive h = true /\ shapeIndex h = 0%Z
     /\ velocity h = mkVec2 0 0)
    /\ (vx (position h) = (0.5 - lx wrist) * 8.5
        /\ vy (position h) = (0.5 - ly wrist) * 6
        /\ vz (position h) = if isFist h then 0.5 else 0)
    /\ (0 <= lx wrist <= 1 -> -4.25 <= vx (position h) <= 4.25)
    /\ (0 <= ly wrist <= 1 -> -3 <= vy (position h) <= 3)
    /\ (lx wrist = 0.5 - vx (position h) / 8.5 /\ ly wrist = 0.5 - vy (position h) / 6)
    /\ (forall (landmarks' : list Landmark) (h' : HandState),
          handStateOf landmarks' = Some h' ->
          (lx wrist < lx (wristOf landmarks') -> vx (position h') < vx (position h))
          /\ (ly wrist < ly (wristOf landmarks') -> vy (position h') < vy (position h))).
Proof.
  intros landmarks h E wrist.
  assert (Hc : complete landmarks).
  { destruct (Nat.lt_ge_cases (length landmarks) 21) as [H|H]; [|exact H].
    apply handStateOf_short in H. congruence. }
  rewrite (handStateOf_complete landmarks Hc) in E.
  injection E as <-. cbn [isActive shapeIndex velocity position isFist vx vy vz].
  fold wrist.
  split; [now repeat split|]. split; [now repeat split|].
  split; [intros; lra|]. split; [intros; lra|]. split; [split; lra|].
  intros landmarks' h' E'.
  assert (Hc' : complete landmarks').
  { destruct (Nat.lt_ge_cases (length landmarks') 21) as [H|H]; [|exact H].
    apply handStateOf_short in H. congruence. }
  rewrite (handStateOf_complete landmarks' Hc') in E'.
  injection E' as <-. cbn [position vx vy]. split; intros; lra.
Qed.

Lemma X8_tracker_hand_state_witness :
  exists h : HandState,
    handStateOf (Demo.handAt 0.5 0.8 0.05) = Some h
    /\ isActive h = true
    /\ vx (position h) = (0.5 - lx (wristOf (Demo.handAt 0.5 0.8 0.05))) * 8.5.
Proof.
  assert (Hc : complete (Demo.handAt 0.5 0.8 0.05))
    by (unfold complete; simpl; lia).
  eexists. split; [apply handStateOf_complete; exact Hc|].
  pose proof (X8_tracker_hand_state _ _
                (handStateOf_complete (Demo.handAt 0.5 0.8 0.05) Hc)) as H.
  cbv zeta in H. destruct H as ((_ & Ha & _) & (Hx & _) & _).
  split; [exact Ha | exact Hx].
Defined.

(** X9.  The callback as a whole.  Without landmarks or without handedness,
    and with no hand, it reports both hands absent.  It throws, and reports
    nothing, exactly when a hand has no handedness entry or has fewer than
    21 landmarks.  Otherwise the left hand it reports is the last hand
    labelled "Left" and the right hand the last hand with any other label:
    of two hands with the same label only the second is reported, and the
    other side is reported absent. *)
Theorem X9_tracker_callback :
  (forall results : Results,
      multiHandLandmarks results = None \/ multiHandedness results = None ->
      onResults results = Some (None, None))
  /\ (forall handednesses : list string,
        onResults (mkResults (Some []) (Some handednesses)) = Some (None, None))
  /\ (forall (hands : list (list Landmark)) (handednesses : list string),
        onResults (mkResults (Some hands) (Some handednesses)) = None
        <-> (length handednesses < length hands)%nat
            \/ Exists (fun landmarks => (length landmarks < 21)%nat) hands)
  /\ (forall (hands : list (list Landmark)) (handednesses : list string),
        (length hands <= length handednesses)%nat -> Forall complete hands ->
        onResults (mkResults (Some hands) (Some handednesses))
        = Some (lastHand None (labelled true hands handednesses),
                lastHand None (labelled false hands handednesses)))
  /\ (forall (a b : list Landmark) (handedness : string),
        complete a -> complete b ->
        onResults (mkResults (Some [a; b]) (Some [handedness; handedness]))
        = if String.eqb handedness "Left"
          then Some (handStateOf b, None) else Some (None, handStateOf b)).
Proof.
  split; [|split; [|split; [|split]]].
  - intros [hands handednesses] [H|H]; cbn in H; subst; unfold onResults; cbn.
    + reflexivity.
    + now destruct hands.
  - reflexivity.
  - intros hands handednesses. unfold onResults. cbn. apply forEachHand_None.
  - intros hands handednesses Hlen Hall. unfold onResults. cbn.
    now apply forEachHand_complete.
  - intros a b handedness Ha Hb. unfold onResults. cbn [multiHandLandmarks multiHandedness].
    rewrite forEachHand_complete by (simpl; lia || now repeat constructor).
    rewrite !labelled_cons, !labelled_nil. cbn [fst snd].
    destruct (String.eqb handedness "Left"); cbn [Bool.eqb];
      unfold lastHand; cbn [fold_left]; reflexivity.
Qed.

Lemma X9_tracker_callback_witness :
  complete (Demo.handAt 0.2 0.5 0.05) /\ complete (Demo.handAt 0.8 0.5 0.3)
  /\ onResults (mkResults
        (Some [Demo.handAt 0.2 0.5 0.05; Demo.handAt 0.8 0.5 0.3])
        (Some ["Left"%string; "Left"%string]))
     = Some (handStateOf (Demo.handAt 0.8 0.5 0.3), None).
Proof.
  assert (Ha : complete (Demo.handAt 0.2 0.5 0.05)) by (unfold complete; simpl; lia).
  assert (Hb : complete (Demo.handAt 0.8 0.5 0.3)) by (unfold complete; simpl; lia).
  split; [exact Ha|]. split; [exact Hb|].
  exact (proj2 (proj2 (proj2 (proj2 X9_tracker_callback))) _ _ "Left"%string Ha Hb).
Defined.

End TrackerFacts.

(** * Properties of the overlay timer *)

Module OverlayFacts.
Import Overlay.

Section Scheduler.

Variable rnd : nat -> R.
Hypothesis rnd_unit : forall n : nat, 0 <= rnd n < 1.
Variable t0 : R.

Lemma delayOf_range (r : R) : 0 <= r < 1 -> 15000 <= delayOf r < 45000.
Proof. unfold delayOf. lra. Qed.

(** The delay is an increasing affine image of the draw: the draws that give
    a delay in [a, b) are those of an interval of length (b - a) / 30000. *)
Lemma delayOf_interval (r a b : R) :
  a <= delayOf r < b <-> (a - 15000) / 30000 <= r < (b - 15000) / 30000.
Proof. unfold delayOf. lra. Qed.

Lemma mount_idle : idle rnd 0 (mount rnd t0) /\ now (mount rnd t0) = t0.
Proof. unfold idle, mount, trigger, setTimeout. cbn. auto. Qed.

Lemma fire_idle (k : nat) (h : Host) :
  idle rnd k h ->
  showing k (fire rnd h) /\ now (fire rnd h) = now h + delayOf (rnd k).
Proof.
  intros (Hs & Ht & Hd).
  pose proof (delayOf_range _ (rnd_unit k)) as Hr.
  unfold fire. rewrite Ht. cbn [nextTimer fst].
  unfold runCallback, setTimeout, setIsShowingText, showing. cbn.
  rewrite Rmax_right by lra. auto.
Qed.

Lemma fire_showing (k : nat) (h : Host) :
  showing k h ->
  idle rnd (S k) (fire rnd h) /\ now (fire rnd h) = now h + 3000.
Proof.
  intros (Hs & Ht & Hd).
  unfold fire. rewrite Ht. cbn [nextTimer fst].
  unfold runCallback, trigger, setTimeout, setIsShowingText, idle. cbn.
  rewrite Rmax_right by lra. rewrite Hd. auto.
Qed.

Lemma after_even (k : nat) : idle rnd k (after rnd (2 * k) t0).
Proof.
  induction k as [|k IH].
  - apply mount_idle.
  - replace (2 * S k)%nat with (S (S (2 * k))) by lia. cbn [after].
    apply fire_showing. apply fire_idle. exact IH.
Qed.

Lemma after_odd (k : nat) : showing k (after rnd (2 * k + 1) t0).
Proof.
  replace (2 * k + 1)%nat with (S (2 * k)) by lia. cbn [after].
  apply fire_idle. apply after_even.
Qed.

Lemma shownAt_armedAt (k : nat) :
  shownAt rnd k t0 = armedAt rnd k t0 + delayOf (rnd k).
Proof.
  unfold shownAt, armedAt.
  replace (2 * k + 1)%nat with (S (2 * k)) by lia. cbn [after].
  exact (proj2 (fire_idle k _ (after_even k))).
Qed.

Lemma hiddenAt_shownAt (k : nat) : hiddenAt rnd k t0 = shownAt rnd k t0 + 3000.
Proof.
  unfold hiddenAt, shownAt.
  replace (2 * k + 2)%nat with (S (2 * k + 1)) by lia. cbn [after].
  exact (proj2 (fire_showing k _ (after_odd k))).
Qed.

Lemma armedAt_next (k : nat) : armedAt rnd (S k) t0 = hiddenAt rnd k t0.
Proof. unfold armedAt, hiddenAt. f_equal. f_equal. lia. Qed.

Lemma windows_ordered (j k : nat) :
  (j < k)%nat -> hiddenAt rnd j t0 + 15000 <= shownAt rnd k t0.
Proof.
  induction k as [|k IH]; intros Hjk; [lia|].
  pose proof (delayOf_range _ (rnd_unit (S k))) as Hr.
  rewrite shownAt_armedAt, armedAt_next.
  destruct (Nat.eq_dec j k) as [->|Hne]; [lra|].
  assert (Hj : (j < k)%nat) by lia. specialize (IH Hj).
  rewrite (hiddenAt_shownAt k). lra.
Qed.

End Scheduler.

(** C5.  Overlay timing, on the clock of the timer queue.  From the mount,
    and again from the end of every window, the text stays hidden for a
    delay 15000 + 30000 r, r the next draw of [Math.random()]: a number of
    [15000, 45000), uniform as the draw is.  Then it is shown for exactly
    3000 ms and hidden again, and the next wait is armed at that instant.
    A window ends before any later window begins. *)
Theorem C5_overlay_timing :
  forall (rnd : nat -> R) (t0 : R),
    (forall n : nat, 0 <= rnd n < 1) ->
    armedAt rnd 0 t0 = t0
    /\ forall k : nat,
         let delay := delayOf (rnd k) in
         (isShowingText (after rnd (2 * k) t0) = false
          /\ timers (after rnd (2 * k) t0) = [(armedAt rnd k t0 + delay, ShowText)])
         /\ (15000 <= delay < 45000
             /\ forall a b : R,
                  a <= delay < b <-> (a - 15000) / 30000 <= rnd k < (b - 15000) / 30000)
         /\ (shownAt rnd k t0 = armedAt rnd k t0 + delay
             /\ isShowingText (after rnd (2 * k + 1) t0) = true
             /\ timers (after rnd (2 * k + 1) t0) = [(shownAt rnd k t0 + 3000, HideText)])
         /\ (hiddenAt rnd k t0 = shownAt rnd k t0 + 3000
             /\ armedAt rnd (S k) t0 = hiddenAt rnd k t0)
         /\ (forall j : nat, (j < k)%nat -> hiddenAt rnd j t0 < shownAt rnd k t0).
Proof.
  intros rnd t0 Hunit. split; [apply mount_idle|].
  intros k delay.
  destruct (after_even rnd Hunit t0 k) as (Hi & Ht & _).
  destruct (after_odd rnd Hunit t0 k) as (Hs & Ht' & _).
  split; [split; [exact Hi | exact Ht]|].
  split; [split; [apply delayOf_range, Hunit | intros a b; apply delayOf_interval]|].
  split; [split; [now apply shownAt_armedAt | split; [exact Hs | exact Ht']]|].
  split; [split; [now apply hiddenAt_shownAt | apply armedAt_next]|].
  intros j Hj. pose proof (windows_ordered rnd Hunit t0 j k Hj). lra.
Qed.

(** C5 with every draw 0.5 and the mount at 0: the first window is
    [30000, 33000), the second begins at 63000. *)
Lemma C5_overlay_timing_witness :
  (forall n : nat, 0 <= Demo.evenDraws n < 1)
  /\ shownAt Demo.evenDraws 0 0 = 30000
  /\ hiddenAt Demo.evenDraws 0 0 = 33000
  /\ shownAt Demo.evenDraws 1 0 = 63000.
Proof.
  assert (Hunit : forall n : nat, 0 <= Demo.evenDraws n < 1)
    by (intros n; unfold Demo.evenDraws; lra).
  destruct (C5_overlay_timing Demo.evenDraws 0 Hunit) as [H0 H].
  destruct (H 0%nat) as (_ & _ & (Hs0 & _) & (Hh0 & Ha1) & _).
  destruct (H 1%nat) as (_ & _ & (Hs1 & _) & _).
  cbv zeta in Hs0, Hs1.
  split; [exact Hunit|].
  assert (E0 : shownAt Demo.evenDraws 0 0 = 30000).
  { rewrite Hs0, H0. unfold delayOf, Demo.evenDraws. lra. }
  assert (E1 : hiddenAt Demo.evenDraws 0 0 = 33000) by (rewrite Hh0, E0; lra).
  split; [exact E0|]. split; [exact E1|].
  rewrite Hs1, Ha1, E1. unfold delayOf, Demo.evenDraws. lra.
Defined.

(** ** The schedule as a whole *)

Lemma shownAt_bounds (rnd : nat -> R) (t0 : R) :
  (forall n : nat, 0 <= rnd n < 1) ->
  forall k : nat,
    t0 + 15000 + 18000 * INR k <= shownAt rnd k t0 < t0 + 45000 + 48000 * INR k.
Proof.
  intros Hunit k.
  induction k as [|k IH].
  - rewrite shownAt_armedAt by exact Hunit.
    replace (armedAt rnd 0 t0) with t0 by (symmetry; apply mount_idle).
    pose proof (delayOf_range _ (Hunit 0%nat)). simpl. lra.
  - rewrite shownAt_armedAt, armedAt_next, hiddenAt_shownAt by exact Hunit.
    pose proof (delayOf_range _ (Hunit (S k))). rewrite S_INR. lra.
Qed.

(** X17.  The timer chain of the overlay never stops and never forks: after
    any number of timers there is exactly one timer pending, due later than
    the clock, and it is the one that hides the text exactly when the text
    shows.  The k-th window (from 0) opens between 15000 + 18000 k and
    45000 + 48000 k milliseconds after the mount, one draw is taken per
    wait, and up to the end of any window the text has been showing for at
    most a sixth of the time since the mount. *)
Theorem X17_overlay_schedule :
  forall (rnd : nat -> R) (t0 : R),
    (forall n : nat, 0 <= rnd n < 1) ->
    (forall n : nat,
        exists (due : R) (cb : Callback),
          timers (after rnd n t0) = [(due, cb)]
          /\ now (after rnd n t0) < due
          /\ (isShowingText (after rnd n t0) = true <-> cb = HideText))
    /\ (forall k : nat,
          t0 + 15000 + 18000 * INR k <= shownAt rnd k t0 < t0 + 45000 + 48000 * INR k)
    /\ (forall k : nat,
          drawn (after rnd (2 * k) t0) = S k /\ drawn (after rnd (2 * k + 1) t0) = S k)
    /\ (forall k : nat, 6 * (3000 * INR (S k)) <= hiddenAt rnd k t0 - t0).
Proof.
  intros rnd t0 Hunit. split; [|split; [|split]].
  - intros n. destruct (Nat.Even_or_Odd n) as [[k ->]|[k ->]].
    + destruct (after_even rnd Hunit t0 k) as (Hs & Ht & _).
      exists (now (after rnd (2 * k) t0) + delayOf (rnd k)), ShowText.
      split; [exact Ht|].
      pose proof (delayOf_range _ (Hunit k)).
      split; [lra|]. rewrite Hs. split; discriminate.
    + destruct (after_odd rnd Hunit t0 k) as (Hs & Ht & _).
      exists (now (after rnd (2 * k + 1) t0) + 3000), HideText.
      split; [exact Ht|]. split; [lra|]. rewrite Hs. now split.
  - apply shownAt_bounds, Hunit.
  - intros k. split.
    + apply (after_even rnd Hunit t0 k).
    + apply (after_odd rnd Hunit t0 k).
  - intros k. rewrite hiddenAt_shownAt by exact Hunit.
    pose proof (shownAt_bounds rnd t0 Hunit k). rewrite S_INR. lra.
Qed.

Lemma X17_overlay_schedule_witness :
  (forall n : nat, 0 <= Demo.evenDraws n < 1)
  /\ 0 + 15000 + 18000 * INR 1 <= shownAt Demo.evenDraws 1 0
     < 0 + 45000 + 48000 * INR 1.
Proof.
  assert (Hunit : forall n : nat, 0 <= Demo.evenDraws n < 1)
    by (intros n; unfold Demo.evenDraws; lra).
  split; [exact Hunit|].
  exact (proj1 (proj2 (X17_overlay_schedule Demo.evenDraws 0 Hunit)) 1%nat).
Defined.

End OverlayFacts.

(** * The update rules on the machine's numbers *)

Module IeeeFacts.
Import PrimFloat.

(** ** Typed arrays and the loop *)

Lemma buffer_set_length (a : list float) :
  forall (i : nat) (v : float), length (Ieee.set a i v) = length a.
Proof.
  induction a as [|x a IH]; intros [|i] v; simpl; auto.
Qed.

Lemma buffer_get_set_same (a : list float) :
  forall (i : nat) (v : float), (i < length a)%nat -> Ieee.get (Ieee.set a i v) i = v.
Proof.
  unfold Ieee.get.
  induction a as [|x a IH]; intros [|i] v H; simpl in *; try lia; auto.
  apply IH. lia.
Qed.

Lemma buffer_get_set_other (a : list float) :
  forall (i j : nat) (v : float), i <> j -> Ieee.get (Ieee.set a i v) j = Ieee.get a j.
Proof.
  unfold Ieee.get.
  induction a as [|x a IH]; intros [|i] [|j] v H; simpl; auto; try lia.
Qed.

Lemma buffer_get_repeat (x : float) (n : nat) :
  forall i : nat, (i < n)%nat -> Ieee.get (repeat x n) i = x.
Proof.
  unfold Ieee.get.
  induction n as [|n IH]; intros [|i] H; simpl; try lia; auto.
  apply IH. lia.
Qed.

Section MachineLoop.

Variable target : nat -> float.
Variable speed : nat -> float.

Let body (i : nat) (p : list float) : list float :=
  Ieee.moveParticle target (speed i) i p.

Lemma machine_body_length (i : nat) (p : list float) : length (body i p) = length p.
Proof. unfold body, Ieee.moveParticle. now rewrite !buffer_set_length. Qed.

Lemma machine_body_same (i : nat) (p : list float) :
  (i * 3 + 2 < length p)%nat ->
  Ieee.particleAt (body i p) i
  = (Ieee.lerpToward (Ieee.get p (i * 3)) (target (i * 3)%nat) (speed i),
     Ieee.lerpToward (Ieee.get p (i * 3 + 1)) (target (i * 3 + 1)%nat) (speed i),
     Ieee.lerpToward (Ieee.get p (i * 3 + 2)) (target (i * 3 + 2)%nat) (speed i)).
Proof.
  intros H. unfold Ieee.particleAt, body, Ieee.moveParticle.
  f_equal; [f_equal|].
  - rewrite !buffer_get_set_other by lia. apply buffer_get_set_same. lia.
  - rewrite buffer_get_set_other by lia.
    rewrite buffer_get_set_same by (rewrite buffer_set_length; lia).
    now rewrite !buffer_get_set_other by lia.
  - rewrite buffer_get_set_same by (rewrite !buffer_set_length; lia).
    now rewrite !buffer_get_set_other by lia.
Qed.

Lemma machine_body_other (i j : nat) (p : list float) :
  i <> j -> Ieee.particleAt (body i p) j = Ieee.particleAt p j.
Proof.
  intros H. unfold Ieee.particleAt, body, Ieee.moveParticle.
  now rewrite !buffer_get_set_other by lia.
Qed.

Lemma machine_loop_length (n : nat) (p : list float) :
  length (Scene.forLoop n body p) = length p.
Proof.
  induction n as [|n IH]; simpl; [reflexivity|].
  now rewrite machine_body_length.
Qed.

Lemma machine_loop_untouched (n : nat) (p : list float) (j : nat) :
  (n <= j)%nat -> Ieee.particleAt (Scene.forLoop n body p) j = Ieee.particleAt p j.
Proof.
  induction n as [|n IH]; intros H; simpl; [reflexivity|].
  rewrite machine_body_other by lia. apply IH. lia.
Qed.

Lemma machine_loop_particle (n : nat) (p : list float) (j : nat) :
  (j < n)%nat -> (n * 3 <= length p)%nat ->
  Ieee.particleAt (Scene.forLoop n body p) j
  = (Ieee.lerpToward (Ieee.get p (j * 3)) (target (j * 3)%nat) (speed j),
     Ieee.lerpToward (Ieee.get p (j * 3 + 1)) (target (j * 3 + 1)%nat) (speed j),
     Ieee.lerpToward (Ieee.get p (j * 3 + 2)) (target (j * 3 + 2)%nat) (speed j)).
Proof.
  induction n as [|n IH]; intros Hj Hlen; [lia|].
  simpl.
  destruct (Nat.eq_dec j n) as [->|Hne].
  - rewrite machine_body_same by (rewrite machine_loop_length; lia).
    pose proof (machine_loop_untouched n p n (Nat.le_refl n)) as Hu.
    unfold Ieee.particleAt in Hu. injection Hu as -> -> ->.
    reflexivity.
  - rewrite machine_body_other by lia. apply IH; lia.
Qed.

End MachineLoop.

(** The loop of the locked-shape branch stores, for every particle, the
    rounded step of each coordinate. *)
Lemma machine_morphToShape_particle (target lerpSpeeds p : list float) (j : nat) :
  (j < PARTICLE_COUNT)%nat -> length p = (PARTICLE_COUNT * 3)%nat ->
  Ieee.particleAt (Ieee.morphToShape target lerpSpeeds p) j
  = (Ieee.lerpToward (Ieee.get p (j * 3)) (Ieee.get target (j * 3)) (Ieee.get lerpSpeeds j),
     Ieee.lerpToward (Ieee.get p (j * 3 + 1)) (Ieee.get target (j * 3 + 1))
       (Ieee.get lerpSpeeds j),
     Ieee.lerpToward (Ieee.get p (j * 3 + 2)) (Ieee.get target (j * 3 + 2))
       (Ieee.get lerpSpeeds j)).
Proof.
  intros Hj Hlen. unfold Ieee.morphToShape.
  now rewrite (machine_loop_particle (Ieee.get target) (Ieee.get lerpSpeeds)) by lia.
Qed.

(** ** Where the machine's numbers stop *)

Set Warnings "-inexact-float".
#[local] Open Scope float_scope.

(** C3 as stated fails on the numbers of the position buffer.  A coordinate
    that starts at 0 with its target at 1 and the speed 0.125, a speed of
    [lerpSpeeds], gets nearer to 1 on each of 113 frames and is then at
    1 - 2^-22 = 0.9999997615814209; there the step rounds to nothing, so that
    a frame of the locked-shape loop leaves the particle where it is, off
    its target: the distance does not decrease.  And at the factor 0.75 a
    coordinate one binary32 number below 1 is moved onto 1: a particle off
    its target reaches it. *)
Lemma C3_particle_stops_short :
  let stalled := 0x1.fffff8p-1%float in
  let buffer := repeat stalled (PARTICLE_COUNT * 3) in
  let target := repeat 1%float (PARTICLE_COUNT * 3) in
  let lerpSpeeds := repeat 0.125%float PARTICLE_COUNT in
  Ieee.rising 113 (fun p => Ieee.lerpToward p 1 0.125) 0 = true
  /\ Ieee.times 113 (fun p => Ieee.lerpToward p 1 0.125) 0 = stalled
  /\ (stalled <? 1)%float = true
  /\ Ieee.lerpToward stalled 1 0.125 = stalled
  /\ Ieee.particleAt (Ieee.morphToShape target lerpSpeeds buffer) 0
     = Ieee.particleAt buffer 0
  /\ Ieee.particleAt buffer 0 = (stalled, stalled, stalled)
  /\ Ieee.particleAt target 0 = (1, 1, 1)%float
  /\ (0x1.fffffep-1 <? 1)%float = true
  /\ Ieee.lerpToward 0x1.fffffep-1 1 0.75 = 1%float.
Proof.
  cbv zeta.
  assert (Hlen : length (repeat 0x1.fffff8p-1%float (PARTICLE_COUNT * 3))
                 = (PARTICLE_COUNT * 3)%nat) by apply repeat_length.
  assert (Hj : (0 < PARTICLE_COUNT)%nat) by (unfold PARTICLE_COUNT; lia).
  split; [vm_compute; reflexivity|].
  split; [vm_compute; reflexivity|].
  split; [vm_compute; reflexivity|].
  split; [vm_compute; reflexivity|].
  split.
  { rewrite (machine_morphToShape_particle _ _ _ 0%nat Hj Hlen).
    unfold Ieee.particleAt.
    rewrite !buffer_get_repeat by (unfold PARTICLE_COUNT; lia).
    vm_compute. reflexivity. }
  split.
  { unfold Ieee.particleAt.
    now rewrite !buffer_get_repeat by (unfold PARTICLE_COUNT; lia). }
  split.
  { unfold Ieee.particleAt.
    now rewrite !buffer_get_repeat by (unfold PARTICLE_COUNT; lia). }
  split; vm_compute; reflexivity.
Qed.

(** C7 as stated fails on the numbers of the orbit.  One callback with the
    left hand at x = 4.25 takes the orbit from 0 to 0.10200000000000001; on
    each of the next 18116 callbacks, which find no hand, the orbit gets
    smaller, and it is then 12 * 2^-1074.  There [orbit * 0.96] rounds to the
    orbit itself: the callbacks that follow leave it as it is, not 0 and not
    smaller, while 0.96^20 times it is less than half of it. *)
Lemma C7_idle_orbit_stops :
  let started := Ieee.leftAt 4.25 0 in
  let stalled := 0x0.000000000000cp-1022%float in
  started = 0.10200000000000001%float
  /\ Ieee.falling 18116 Ieee.idle started = true
  /\ Ieee.times 18116 Ieee.idle started = stalled
  /\ (0 <? stalled)%float = true
  /\ Ieee.idle stalled = stalled
  /\ Ieee.times 20 Ieee.idle stalled = stalled
  /\ (stalled * Ieee.times 20 (fun y => y * 0.96) 1 <? stalled * 0.5)%float = true.
Proof.
  cbv zeta. repeat split; vm_compute; reflexivity.
Qed.

(** X12.  On the numbers of the orbit the follow rule stops short of the
    hands.  With the left hand held at x = 4.25 the orbit rises from 0 on
    each of 555 callbacks and is then 1.6999999999999982, below
    4.25 * 0.4; the callbacks that follow leave it there. *)
Theorem X12_orbit_stops_short_of_the_hands :
  let stalled := 0x1.b33333333332bp+0%float in
  Ieee.rising 555 (Ieee.leftAt 4.25) 0 = true
  /\ Ieee.times 555 (Ieee.leftAt 4.25) 0 = stalled
  /\ stalled = 1.6999999999999982%float
  /\ Ieee.leftAt 4.25 stalled = stalled
  /\ (stalled <? 4.25 * 0.4)%float = true
  /\ (stalled <? 1.7)%float = true.
Proof.
  cbv zeta. repeat split; vm_compute; reflexivity.
Qed.

(** X28.  On the numbers of a three.js vector the anchor stops short of the
    hand.  Toward a hand held at 1 a coordinate of the anchor rises from 0
    on each of 218 frames and stays at 0.99999999999999967; toward a hand
    that is away, at 0, it falls from 0.15 on each of 4562 frames and stays
    at 3 * 2^-1074. *)
Theorem X28_anchor_stops_short_of_the_hand :
  Ieee.rising 218 (fun m => Ieee.follow m 1) 0 = true
  /\ Ieee.times 218 (fun m => Ieee.follow m 1) 0 = 0x1.ffffffffffffdp-1%float
  /\ Ieee.follow 0x1.ffffffffffffdp-1 1 = 0x1.ffffffffffffdp-1%float
  /\ (0x1.ffffffffffffdp-1 <? 1)%float = true
  /\ Ieee.falling 4562 (fun m => Ieee.follow m 0) 0.15 = true
  /\ Ieee.times 4562 (fun m => Ieee.follow m 0) 0.15 = 0x0.0000000000003p-1022%float
  /\ Ieee.follow 0x0.0000000000003p-1022 0 = 0x0.0000000000003p-1022%float
  /\ (0 <? 0x0.0000000000003p-1022)%float = true.
Proof.
  repeat split; vm_compute; reflexivity.
Qed.

Set Warnings "inexact-float".

End IeeeFacts.

(** * Properties of the morph engine *)

Module SceneFacts.
Import Scene.

(** ** Typed arrays and loops *)

Lemma set_length (a : list R) : forall (i : nat) (v : R), length (set a i v) = length a.
Proof.
  induction a as [|x a IH]; intros [|i] v; simpl; auto.
Qed.

Lemma get_set_same (a : list R) :
  forall (i : nat) (v : R), (i < length a)%nat -> get (set a i v) i = v.
Proof.
  unfold get.
  induction a as [|x a IH]; intros [|i] v H; simpl in *; try lia; auto.
  apply IH. lia.
Qed.

Lemma get_set_other (a : list R) :
  forall (i j : nat) (v : R), i <> j -> get (set a i v) j = get a j.
Proof.
  unfold get.
  induction a as [|x a IH]; intros [|i] [|j] v H; simpl; auto; try lia.
Qed.

Lemma moveParticle_length (target : nat -> R) (s : R) (i : nat) (p : list R) :
  length (moveParticle target s i p) = length p.
Proof. unfold moveParticle. now rewrite !set_length. Qed.

(** The body for particle [i] rewrites that particle by the rule. *)
Lemma moveParticle_same (target : nat -> R) (s : R) (i : nat) (p : list R) :
  (i * 3 + 2 < length p)%nat ->
  particleAt (moveParticle target s i p) i
  = mkVec3 (lerpToward (get p (i * 3)) (target (i * 3)%nat) s)
           (lerpToward (get p (i * 3 + 1)) (target (i * 3 + 1)%nat) s)
           (lerpToward (get p (i * 3 + 2)) (target (i * 3 + 2)%nat) s).
Proof.
  intros H. unfold particleAt, moveParticle.
  f_equal.
  - rewrite !get_set_other by lia. apply get_set_same. lia.
  - rewrite get_set_other by lia.
    rewrite get_set_same by (rewrite set_length; lia).
    now rewrite !get_set_other by lia.
  - rewrite get_set_same by (rewrite !set_length; lia).
    now rewrite !get_set_other by lia.
Qed.

(** ... and leaves every other particle alone. *)
Lemma moveParticle_other (target : nat -> R) (s : R) (i j : nat) (p : list R) :
  i <> j -> particleAt (moveParticle target s i p) j = particleAt p j.
Proof.
  intros H. unfold particleAt, moveParticle.
  now rewrite !get_set_other by lia.
Qed.

Section MorphLoop.

Variable target : nat -> R.
Variable speed : nat -> R.

Let body (i : nat) (p : list R) : list R := moveParticle target (speed i) i p.

Lemma morph_loop_length (n : nat) (p : list R) : length (forLoop n body p) = length p.
Proof.
  induction n as [|n IH]; simpl; [reflexivity|].
  unfold body at 1. now rewrite moveParticle_length.
Qed.

Lemma morph_loop_untouched (n : nat) (p : list R) (j : nat) :
  (n <= j)%nat -> particleAt (forLoop n body p) j = particleAt p j.
Proof.
  induction n as [|n IH]; intros H; simpl; [reflexivity|].
  unfold body at 1. rewrite moveParticle_other by lia. apply IH. lia.
Qed.

Lemma morph_loop_particle (n : nat) (p : list R) (j : nat) :
  (j < n)%nat -> (n * 3 <= length p)%nat ->
  particleAt (forLoop n body p) j
  = stepParticle (particleAt p j)
      (mkVec3 (target (j * 3)%nat) (target (j * 3 + 1)%nat) (target (j * 3 + 2)%nat))
      (speed j).
Proof.
  induction n as [|n IH]; intros Hj Hlen; [lia|].
  simpl. unfold body at 1.
  destruct (Nat.eq_dec j n) as [->|Hne].
  - rewrite moveParticle_same by (rewrite morph_loop_length; lia).
    pose proof (morph_loop_untouched n p n (Nat.le_refl n)) as Hu.
    unfold particleAt in Hu. injection Hu as -> -> ->.
    reflexivity.
  - rewrite moveParticle_other by lia. apply IH; lia.
Qed.

End MorphLoop.

(** In the locked-shape branch every particle takes one step of the rule
    toward its slot of the shape, at its own speed. *)
Lemma morphToShape_particle (target lerpSpeeds p : list R) (j : nat) :
  (j < PARTICLE_COUNT)%nat -> length p = (PARTICLE_COUNT * 3)%nat ->
  particleAt (morphToShape target lerpSpeeds p) j
  = stepParticle (particleAt p j) (particleAt target j) (get lerpSpeeds j).
Proof.
  intros Hj Hlen. unfold morphToShape.
  rewrite (morph_loop_particle (get target) (get lerpSpeeds)) by lia.
  reflexivity.
Qed.

Lemma morphToText_particle (textShape lerpSpeeds p : list R) (j : nat) :
  (j < PARTICLE_COUNT)%nat -> length p = (PARTICLE_COUNT * 3)%nat ->
  particleAt (morphToText textShape lerpSpeeds p) j
  = stepParticle (particleAt p j) (particleAt textShape j) (get lerpSpeeds j * 1.5).
Proof.
  intros Hj Hlen. unfold morphToText.
  rewrite (morph_loop_particle (get textShape) (fun i => get lerpSpeeds i * 1.5)) by lia.
  reflexivity.
Qed.

(** ** The update rule *)

Lemma lerpToward_offset (p t s : R) : lerpToward p t s - t = (1 - s) * (p - t).
Proof. unfold lerpToward. ring. Qed.

Lemma sum_sq_nonneg (a b c : R) : 0 <= a ^ 2 + b ^ 2 + c ^ 2.
Proof. nra. Qed.

Lemma sq_zero (x : R) : x ^ 2 = 0 -> x = 0.
Proof.
  intros H. simpl in H. rewrite Rmult_1_r in H.
  destruct (Rmult_integral _ _ H); assumption.
Qed.

Lemma sum_sq_zero (a b c : R) :
  a ^ 2 + b ^ 2 + c ^ 2 = 0 -> a = 0 /\ b = 0 /\ c = 0.
Proof.
  intros H.
  pose proof (pow2_ge_0 a). pose proof (pow2_ge_0 b). pose proof (pow2_ge_0 c).
  repeat split; apply sq_zero; lra.
Qed.

Lemma distance_nonneg (p q : Vec3) : 0 <= distance p q.
Proof. apply sqrt_pos. Qed.

Lemma distance_zero_iff (p q : Vec3) : distance p q = 0 <-> p = q.
Proof.
  unfold distance. split.
  - intros H. apply sqrt_eq_0 in H; [|apply sum_sq_nonneg].
    destruct p as [a b c], q as [a' b' c']; simpl in *.
    apply sum_sq_zero in H. destruct H as (Ha & Hb & Hc).
    f_equal; lra.
  - intros ->. replace (_ + _ + _) with 0 by ring. apply sqrt_0.
Qed.

(** One step scales the distance to the target by [1 - s]. *)
Lemma stepParticle_distance (p t : Vec3) (s : R) :
  s <= 1 -> distance (stepParticle p t s) t = (1 - s) * distance p t.
Proof.
  intros Hs. unfold distance, stepParticle. cbn [vx vy vz].
  rewrite !lerpToward_offset.
  replace (((1 - s) * (vx p - vx t)) ^ 2 + ((1 - s) * (vy p - vy t)) ^ 2
           + ((1 - s) * (vz p - vz t)) ^ 2)
    with ((1 - s) ^ 2 * ((vx p - vx t) ^ 2 + (vy p - vy t) ^ 2 + (vz p - vz t) ^ 2))
    by ring.
  rewrite sqrt_mult; [|nra|apply sum_sq_nonneg].
  f_equal. rewrite <- Rsqr_pow2. apply sqrt_Rsqr. lra.
Qed.

Lemma iterParticle_distance (n : nat) (p t : Vec3) (s : R) :
  s <= 1 -> distance (iterParticle n p t s) t = (1 - s) ^ n * distance p t.
Proof.
  intros Hs. induction n as [|n IH]; simpl.
  - ring.
  - rewrite stepParticle_distance by exact Hs. rewrite IH. ring.
Qed.

(** A coordinate stays between where it was and its target. *)
Lemma lerpToward_between (p t s : R) :
  0 <= s <= 1 -> Rmin p t <= lerpToward p t s <= Rmax p t.
Proof.
  intros Hs. unfold lerpToward, Rmin, Rmax.
  destruct (Rle_dec p t); nra.
Qed.

Lemma between_trans (a t x y : R) :
  between a t x -> between x t y -> between a t y.
Proof.
  unfold between, Rmin, Rmax.
  destruct (Rle_dec a t), (Rle_dec x t); lra.
Qed.

Lemma between_refl (a t : R) : between a t a.
Proof. unfold between, Rmin, Rmax. destruct (Rle_dec a t); lra. Qed.

Lemma iterParticle_between (n : nat) (p t : Vec3) (s : R) :
  0 <= s <= 1 ->
  between (vx p) (vx t) (vx (iterParticle n p t s))
  /\ between (vy p) (vy t) (vy (iterParticle n p t s))
  /\ between (vz p) (vz t) (vz (iterParticle n p t s)).
Proof.
  intros Hs. induction n as [|n (Hx & Hy & Hz)]; simpl.
  - split; [|split]; apply between_refl.
  - split; [|split].
    + eapply between_trans; [exact Hx|]. now apply lerpToward_between.
    + eapply between_trans; [exact Hy|]. now apply lerpToward_between.
    + eapply between_trans; [exact Hz|]. now apply lerpToward_between.
Qed.

(** A step never takes a particle farther from its target. *)
Lemma stepParticle_closer (p t : Vec3) (s : R) :
  0 <= s <= 1 -> distance (stepParticle p t s) t <= distance p t.
Proof.
  intros Hs. rewrite stepParticle_distance by lra.
  pose proof (distance_nonneg p t). nra.
Qed.

Lemma iterParticle_closer (n : nat) (p t : Vec3) (s : R) :
  0 <= s <= 1 -> distance (iterParticle n p t s) t <= distance p t.
Proof.
  intros Hs. induction n as [|n IH]; simpl; [lra|].
  pose proof (stepParticle_closer (iterParticle n p t s) t s Hs). lra.
Qed.

(** In exact arithmetic a particle off its target is never on it. *)
Lemma iterParticle_off_target (n : nat) (p t : Vec3) (s : R) :
  0 <= s < 1 -> p <> t -> iterParticle n p t s <> t.
Proof.
  intros Hs Hne Heq.
  apply distance_zero_iff in Heq.
  rewrite iterParticle_distance in Heq by lra.
  apply Rmult_integral in Heq. destruct Heq as [Hpow|Hdist].
  - revert Hpow. apply pow_nonzero. lra.
  - apply distance_zero_iff in Hdist. contradiction.
Qed.

(** ** The frame callback, field by field *)

Section Frames.

Variable shapes : list (list R).
Variable textShape : list R.
Variable lerpSpeeds : list R.

Lemma useFrame_unmounted (f : Frame) (st : Particles) :
  refsMounted f = false -> useFrame shapes textShape lerpSpeeds f st = st.
Proof. unfold useFrame. intros ->. reflexivity. Qed.

Lemma useFrame_material (f : Frame) (st : Particles) :
  refsMounted f = true ->
  shimmerValue (useFrame shapes textShape lerpSpeeds f st) = nextShimmer f st
  /\ prevIsFist (useFrame shapes textShape lerpSpeeds f st) = isFist (hand f)
  /\ size (useFrame shapes textShape lerpSpeeds f st) = 0.014 * (1.0 + nextShimmer f st * 1.5)
  /\ opacity (useFrame shapes textShape lerpSpeeds f st) = 0.85 + nextShimmer f st * 0.15.
Proof.
  unfold useFrame, nextShimmer. intros ->. cbn [negb].
  destruct (negb (isActive (hand f))); cbn; auto.
Qed.

Lemma useFrame_transform (f : Frame) (st : Particles) :
  refsMounted f = true ->
  meshPosition (useFrame shapes textShape lerpSpeeds f st) = stepParticle (meshPosition st) (position (hand f)) 0.15
  /\ rotationY (useFrame shapes textShape lerpSpeeds f st) = rotationY st + delta f * 0.4.
Proof.
  unfold useFrame, stepParticle, lerpToward. intros ->. cbn [negb].
  destruct (negb (isActive (hand f))); cbn; auto.
Qed.

Lemma useFrame_inactive (f : Frame) (st : Particles) :
  refsMounted f = true -> isActive (hand f) = false ->
  visible (useFrame shapes textShape lerpSpeeds f st) = false
  /\ pos (useFrame shapes textShape lerpSpeeds f st) = pos st
  /\ needsUpdate (useFrame shapes textShape lerpSpeeds f st) = needsUpdate st.
Proof.
  unfold useFrame. intros -> ->. cbn. auto.
Qed.

Lemma frames_cons (f : Frame) (fs : list Frame) (st : Particles) :
  frames shapes textShape lerpSpeeds (f :: fs) st = frames shapes textShape lerpSpeeds fs (useFrame shapes textShape lerpSpeeds f st).
Proof. reflexivity. Qed.

Lemma frames_snoc (fs : list Frame) (f : Frame) (st : Particles) :
  frames shapes textShape lerpSpeeds (fs ++ [f]) st = useFrame shapes textShape lerpSpeeds f (frames shapes textShape lerpSpeeds fs st).
Proof. unfold frames. rewrite fold_left_app. reflexivity. Qed.

Lemma nextShimmer_range (f : Frame) (st : Particles) :
  0 <= delta f -> 0 <= shimmerValue st <= 1 -> 0 <= nextShimmer f st <= 1.
Proof.
  intros Hd Hs. unfold nextShimmer, Rmax.
  destruct (isFist (hand f) && negb (prevIsFist st));
    destruct (Rle_dec _ _); lra.
Qed.

Lemma initial_material : materialInRange initialParticles.
Proof. unfold materialInRange, initialParticles. cbn. lra. Qed.

Lemma useFrame_material_range (f : Frame) (st : Particles) :
  0 <= delta f -> materialInRange st -> materialInRange (useFrame shapes textShape lerpSpeeds f st).
Proof.
  intros Hd Hst. destruct (refsMounted f) eqn:Em.
  - destruct (useFrame_material f st Em) as (Hs & _ & Hz & Ho).
    pose proof (nextShimmer_range f st Hd (proj1 Hst)) as Hr.
    unfold materialInRange. rewrite Hs, Hz, Ho. lra.
  - now rewrite useFrame_unmounted.
Qed.

Lemma frames_material_range (fs : list Frame) :
  forall st, Forall (fun f => 0 <= delta f) fs ->
    materialInRange st -> materialInRange (frames shapes textShape lerpSpeeds fs st).
Proof.
  induction fs as [|f fs IH]; intros st Hd Hst; [exact Hst|].
  rewrite frames_cons. inversion Hd; subst.
  apply IH; [assumption|]. now apply useFrame_material_range.
Qed.

Lemma elapsed_nonneg (fs : list Frame) (st : Particles) : quiet shapes textShape lerpSpeeds fs st -> 0 <= elapsed fs.
Proof.
  revert st. induction fs as [|f fs IH]; intros st H; simpl; [lra|].
  destruct H as (_ & Hd & _ & Hq). specialize (IH _ Hq). lra.
Qed.

Lemma Rmax_0_decay (s a b : R) :
  0 <= b -> Rmax 0 (Rmax 0 (s - a) - b) = Rmax 0 (s - (a + b)).
Proof.
  intros Hb. unfold Rmax.
  repeat (destruct (Rle_dec _ _)); lra.
Qed.

(** Without a flip the shimmer is a clamped linear ramp in elapsed time. *)
Lemma quiet_shimmer (fs : list Frame) :
  forall st, quiet shapes textShape lerpSpeeds fs st -> 0 <= shimmerValue st ->
    shimmerValue (frames shapes textShape lerpSpeeds fs st) = Rmax 0 (shimmerValue st - elapsed fs * 2.5).
Proof.
  induction fs as [|f fs IH]; intros st Hq Hs.
  - simpl. rewrite Rmult_0_l, Rminus_0_r. symmetry. now apply Rmax_right.
  - destruct Hq as (Hm & Hd & Hflip & Hq).
    rewrite frames_cons.
    destruct (useFrame_material f st Hm) as (Hsh & _).
    rewrite IH; [|exact Hq|rewrite Hsh; apply Rmax_l].
    rewrite Hsh. unfold nextShimmer. rewrite Hflip.
    pose proof (elapsed_nonneg fs _ Hq) as He.
    rewrite Rmax_0_decay by lra.
    simpl elapsed. f_equal. ring.
Qed.

End Frames.

(** ** The claims on the morph engine *)

(** C6.  Spread clamp.  With d the distance of the two hand positions in
    their x and y components, the spread of the ambient cloud is
    1 + min(0.5 d, 3) when the other hand is active and not a fist, and 1
    otherwise; d is not negative and the spread lies in [1, 4].  The ambient
    branch, taken on a frame whose hand is active and open while no overlay
    shows, is the one that uses it. *)
Theorem C6_spread_clamp :
  forall hand otherHand : HandState,
    let d := interHandDistance hand otherHand in
    0 <= d
    /\ d ^ 2 = (vx (position hand) - vx (position otherHand)) ^ 2
               + (vy (position hand) - vy (position otherHand)) ^ 2
    /\ (isActive otherHand = true -> isFist otherHand = false ->
        spread hand otherHand = 1 + Rmin (0.5 * d) 3.0)
    /\ (isActive otherHand = false \/ isFist otherHand = true ->
        spread hand otherHand = 1.0)
    /\ 1.0 <= spread hand otherHand <= 4.0
    /\ (forall shapes textShape lerpSpeeds f st,
          Scene.hand f = hand -> Scene.otherHand f = otherHand ->
          refsMounted f = true -> isActive hand = true -> isFist hand = false ->
          isShowingText f = false ->
          pos (useFrame shapes textShape lerpSpeeds f st)
          = forLoop PARTICLE_COUNT
              (fun i p => driftParticle (time f) (spread hand otherHand) i p) (pos st)).
Proof.
  intros hand otherHand d.
  assert (Hd : 0 <= d) by apply sqrt_pos.
  split; [exact Hd|].
  split.
  { unfold d, interHandDistance. apply pow2_sqrt.
    apply Rplus_le_le_0_compat; apply pow2_ge_0. }
  split.
  { intros Ha Hf. unfold spread. rewrite Ha, Hf. cbn [andb negb]. fold d.
    replace (0.5 * d) with (d * 0.5) by ring. lra. }
  split.
  { intros [Ha|Hf]; unfold spread.
    - rewrite Ha. reflexivity.
    - rewrite Hf. cbn [negb]. now rewrite andb_false_r. }
  split.
  { unfold spread. fold d.
    destruct (isActive otherHand && negb (isFist otherHand)); [|lra].
    unfold Rmin. destruct (Rle_dec _ _); lra. }
  intros shapes textShape lerpSpeeds f st Hh Ho Hm Ha Hf Hs.
  unfold useFrame. rewrite Hm, Hh, Ha, Hf, Hs, Ho. reflexivity.
Qed.

(** C9, amended.  On a frame whose hand is inactive the particle system is
    marked invisible and its position buffer is left as it was; the anchor
    still moves 15% of the way to the hand's reported position, the rotation
    still advances by 0.4 * delta and the shimmer is still decreased by
    2.5 * delta and clamped at 0. *)
Theorem C9_inactive_frame :
  forall (shapes : list (list R)) (textShape lerpSpeeds : list R)
         (f : Frame) (st : Particles),
    refsMounted f = true -> isActive (hand f) = false ->
    let st' := useFrame shapes textShape lerpSpeeds f st in
    visible st' = false
    /\ pos st' = pos st
    /\ needsUpdate st' = needsUpdate st
    /\ meshPosition st' = stepParticle (meshPosition st) (position (hand f)) 0.15
    /\ rotationY st' = rotationY st + delta f * 0.4
    /\ shimmerValue st' = nextShimmer f st.
Proof.
  intros shapes textShape lerpSpeeds f st Hm Ha st'.
  destruct (useFrame_inactive shapes textShape lerpSpeeds f st Hm Ha) as (Hv & Hp & Hn).
  destruct (useFrame_transform shapes textShape lerpSpeeds f st Hm) as (Hmp & Hr).
  destruct (useFrame_material shapes textShape lerpSpeeds f st Hm) as (Hs & _).
  unfold st'. auto 10.
Qed.

(** C10.  Shimmer invariant.  After any frames from mount the shimmer lies
    in [0, 1], the point size in [0.014, 0.014 * 2.5] and the opacity in
    [0.85, 1].  Every frame that runs, for an active hand or not, sets the
    shimmer to 1 first when the hand's isFist flips from false to true, then
    decreases it by 2.5 * delta and clamps it at 0; so frames without a flip
    bring it to exactly 0 once they add up to 0.4 seconds. *)
Theorem C10_shimmer_invariant :
  forall (shapes : list (list R)) (textShape lerpSpeeds : list R),
    (forall fs : list Frame,
        Forall (fun f => 0 <= delta f) fs ->
        materialInRange (frames shapes textShape lerpSpeeds fs initialParticles))
    /\ (forall (f : Frame) (st : Particles),
        refsMounted f = true ->
        shimmerValue (useFrame shapes textShape lerpSpeeds f st)
        = Rmax 0 ((if isFist (hand f) && negb (prevIsFist st)
                   then 1.0 else shimmerValue st) - delta f * 2.5)
        /\ prevIsFist (useFrame shapes textShape lerpSpeeds f st) = isFist (hand f))
    /\ (forall (fs : list Frame) (st : Particles),
        quiet shapes textShape lerpSpeeds fs st ->
        0 <= shimmerValue st <= 1 ->
        shimmerValue (frames shapes textShape lerpSpeeds fs st)
        = Rmax 0 (shimmerValue st - elapsed fs * 2.5)
        /\ (0.4 <= elapsed fs ->
            shimmerValue (frames shapes textShape lerpSpeeds fs st) = 0)).
Proof.
  intros shapes textShape lerpSpeeds.
  split; [|split].
  - intros fs Hd. apply frames_material_range; [exact Hd | apply initial_material].
  - intros f st Hm.
    destruct (useFrame_material shapes textShape lerpSpeeds f st Hm) as (Hs & Hp & _).
    split; [exact Hs | exact Hp].
  - intros fs st Hq Hs.
    rewrite (quiet_shimmer shapes textShape lerpSpeeds fs st Hq) by lra.
    split; [reflexivity|].
    intros He. apply Rmax_left. lra.
Qed.

(** ** The claims at sample inputs *)

(** C6 for an open hand at (0, 0) and an open other hand at (3, 4). *)
Lemma C6_spread_clamp_witness :
  isActive (Demo.openHand 3 4) = true
  /\ isFist (Demo.openHand 3 4) = false
  /\ spread (Demo.openHand 0 0) (Demo.openHand 3 4)
     = 1 + Rmin (0.5 * interHandDistance (Demo.openHand 0 0) (Demo.openHand 3 4)) 3.0.
Proof.
  split; [reflexivity|]. split; [reflexivity|].
  apply (C6_spread_clamp (Demo.openHand 0 0) (Demo.openHand 3 4)); reflexivity.
Defined.

(** The engine after [Demo.fistFrame] from mount, then after
    [Demo.absentFrame]. *)
Lemma demo_frames :
  let st := useFrame [] [] [] Demo.fistFrame initialParticles in
  let st' := useFrame [] [] [] Demo.absentFrame st in
  (vx (meshPosition st) = 0.15 /\ rotationY st = 0.04 /\ shimmerValue st = 0.75)
  /\ (vx (meshPosition st') = 0.1275 /\ rotationY st' = 0.08 /\ shimmerValue st' = 0.5).
Proof.
  intros st st'.
  destruct (useFrame_transform [] [] [] Demo.fistFrame initialParticles eq_refl)
    as (Hm & Hr).
  destruct (useFrame_material [] [] [] Demo.fistFrame initialParticles eq_refl)
    as (Hs & Hp & _).
  fold st in Hm, Hr, Hs, Hp.
  assert (H1 : vx (meshPosition st) = 0.15 /\ rotationY st = 0.04 /\ shimmerValue st = 0.75).
  { rewrite Hm, Hr, Hs. unfold nextShimmer, stepParticle, lerpToward. cbn.
    rewrite Rmax_right by lra. lra. }
  split; [exact H1|].
  destruct H1 as (Hx & Hy & Hz).
  destruct (useFrame_transform [] [] [] Demo.absentFrame st eq_refl) as (Hm' & Hr').
  destruct (useFrame_material [] [] [] Demo.absentFrame st eq_refl) as (Hs' & _).
  fold st' in Hm', Hr', Hs'.
  rewrite Hm', Hr', Hs'. clear Hm Hr Hs Hm' Hr' Hs'. clearbody st.
  unfold nextShimmer, stepParticle, lerpToward. cbn.
  rewrite Hx, Hy, Hz. rewrite Rmax_right by lra. lra.
Qed.

(** C9 as stated fails: a frame for an inactive hand moves the anchor,
    advances the rotation and lowers the shimmer. *)
Lemma C9_inactive_frame_not_frozen :
  let st := useFrame [] [] [] Demo.fistFrame initialParticles in
  let st' := useFrame [] [] [] Demo.absentFrame st in
  isActive (hand Demo.absentFrame) = false
  /\ vx (meshPosition st') < vx (meshPosition st)
  /\ rotationY st < rotationY st'
  /\ shimmerValue st' < shimmerValue st.
Proof.
  pose proof demo_frames as H. cbv zeta in H.
  destruct H as ((Hx & Hr & Hs) & (Hx' & Hr' & Hs')).
  cbv zeta. rewrite Hx, Hr, Hs, Hx', Hr', Hs'.
  split; [reflexivity|]. lra.
Qed.

(** C9, amended, at the same frame. *)
Lemma C9_inactive_frame_witness :
  let st := useFrame [] [] [] Demo.fistFrame initialParticles in
  refsMounted Demo.absentFrame = true
  /\ isActive (hand Demo.absentFrame) = false
  /\ visible (useFrame [] [] [] Demo.absentFrame st) = false
  /\ pos (useFrame [] [] [] Demo.absentFrame st) = pos st.
Proof.
  intros st.
  pose proof (C9_inactive_frame [] [] [] Demo.absentFrame st eq_refl eq_refl) as H.
  cbv zeta in H.
  split; [reflexivity|]. split; [reflexivity|].
  split; [exact (proj1 H) | exact (proj1 (proj2 H))].
Defined.

(** C10 on the two sample frames from mount. *)
Lemma C10_shimmer_invariant_witness :
  Forall (fun f => 0 <= delta f) [Demo.fistFrame; Demo.absentFrame]
  /\ materialInRange (frames [] [] [] [Demo.fistFrame; Demo.absentFrame] initialParticles).
Proof.
  assert (H : Forall (fun f => 0 <= delta f) [Demo.fistFrame; Demo.absentFrame]).
  { repeat constructor; cbn; lra. }
  split; [exact H|].
  exact (proj1 (C10_shimmer_invariant [] [] []) _ H).
Defined.

(** ** More on the engine *)

Lemma driftParticle_length (time spread : R) (i : nat) (p : list R) :
  length (driftParticle time spread i p) = length p.
Proof. unfold driftParticle. cbv zeta. now rewrite !set_length. Qed.

Lemma ambientCloud_length (time : R) (hand otherHand : HandState) (p : list R) :
  length (ambientCloud time hand otherHand p) = length p.
Proof.
  unfold ambientCloud. cbv zeta.
  induction PARTICLE_COUNT as [|n IH]; simpl; [reflexivity|].
  now rewrite driftParticle_length.
Qed.

Lemma useFrame_length (shapes : list (list R)) (textShape lerpSpeeds : list R)
    (f : Frame) (st : Particles) :
  length (pos (useFrame shapes textShape lerpSpeeds f st)) = length (pos st).
Proof.
  unfold useFrame.
  destruct (negb (refsMounted f)); [reflexivity|].
  destruct (negb (isActive (hand f))); [reflexivity|]. cbn [pos].
  destruct (isFist (hand f)).
  - destruct (lookupShape shapes (shapeIndex (hand f))); [|reflexivity].
    apply morph_loop_length.
  - destruct (isShowingText f).
    + apply (morph_loop_length (get textShape) (fun i => get lerpSpeeds i * 1.5)).
    + apply ambientCloud_length.
Qed.

(** X2.  The particle buffer of a hand keeps its N x 3 = 12000 numbers
    through every frame, whatever the mode. *)
Theorem X2_buffer_keeps_its_length :
  forall (shapes : list (list R)) (textShape lerpSpeeds : list R) (fs : list Frame),
    length (pos (frames shapes textShape lerpSpeeds fs initialParticles))
    = (PARTICLE_COUNT * 3)%nat
    /\ Z.of_nat (PARTICLE_COUNT * 3) = 12000%Z.
Proof.
  intros shapes textShape lerpSpeeds fs. split; [|reflexivity].
  induction fs as [|f fs IH] using rev_ind.
  - apply repeat_length.
  - rewrite frames_snoc, useFrame_length. exact IH.
Qed.

(** X3.  In locked-shape mode every particle takes one step of the update
    rule toward its slot of the shape, at its own speed; in overlay mode
    toward its slot of the glyph shape, at 1.5 times its speed. *)
Theorem X3_loops_apply_the_rule :
  forall (target lerpSpeeds p : list R) (j : nat),
    (j < PARTICLE_COUNT)%nat -> length p = (PARTICLE_COUNT * 3)%nat ->
    particleAt (morphToShape target lerpSpeeds p) j
    = stepParticle (particleAt p j) (particleAt target j) (get lerpSpeeds j)
    /\ particleAt (morphToText target lerpSpeeds p) j
       = stepParticle (particleAt p j) (particleAt target j) (get lerpSpeeds j * 1.5).
Proof.
  intros target lerpSpeeds p j Hj Hlen. split.
  - now apply morphToShape_particle.
  - now apply morphToText_particle.
Qed.

Lemma X3_loops_apply_the_rule_witness :
  (0 < PARTICLE_COUNT)%nat
  /\ length (pos initialParticles) = (PARTICLE_COUNT * 3)%nat
  /\ particleAt (morphToShape [] [] (pos initialParticles)) 0
     = stepParticle (particleAt (pos initialParticles) 0) (particleAt [] 0) (get [] 0).
Proof.
  assert (H0 : (0 < PARTICLE_COUNT)%nat) by (unfold PARTICLE_COUNT; lia).
  assert (Hl : length (pos initialParticles) = (PARTICLE_COUNT * 3)%nat)
    by apply repeat_length.
  split; [exact H0|]. split; [exact Hl|].
  exact (proj1 (X3_loops_apply_the_rule [] [] (pos initialParticles) 0%nat H0 Hl)).
Defined.

(** X4.  The overlay never reaches a hand that is out of view or a fist:
    two runs of frames that differ only in whether the overlay shows, for
    such a hand, leave the engine in the same state, buffer and all. *)
Theorem X4_fist_wins_over_overlay :
  forall (shapes : list (list R)) (textShape lerpSpeeds : list R)
         (fs fs' : list Frame) (st : Particles),
    Forall2 sameButOverlay fs fs' ->
    frames shapes textShape lerpSpeeds fs st
    = frames shapes textShape lerpSpeeds fs' st.
Proof.
  intros shapes textShape lerpSpeeds fs fs' st H. revert st.
  induction H as [|f f' fs fs' Hf _ IH]; intros st; [reflexivity|].
  rewrite !frames_cons.
  replace (useFrame shapes textShape lerpSpeeds f' st)
    with (useFrame shapes textShape lerpSpeeds f st); [apply IH|].
  destruct Hf as (Hm & Hh & Ho & Ht & Hd & Hcase).
  unfold useFrame. rewrite Hm, Hh, Hd.
  destruct (negb (refsMounted f)); [reflexivity|].
  destruct Hcase as [Ha|Hfist].
  - rewrite Ha. cbn [negb]. cbv iota. reflexivity.
  - rewrite Hfist. cbv iota. reflexivity.
Qed.

Lemma X4_fist_wins_over_overlay_witness :
  let f := mkFrame true (Demo.fistHand 1 0) App.INITIAL_HAND_STATE false 0 0.1 in
  let f' := mkFrame true (Demo.fistHand 1 0) App.INITIAL_HAND_STATE true 0 0.1 in
  Forall2 sameButOverlay [f] [f']
  /\ frames [] [] [] [f] initialParticles = frames [] [] [] [f'] initialParticles.
Proof.
  cbv zeta.
  assert (H : Forall2 sameButOverlay
                [mkFrame true (Demo.fistHand 1 0) App.INITIAL_HAND_STATE false 0 0.1]
                [mkFrame true (Demo.fistHand 1 0) App.INITIAL_HAND_STATE true 0 0.1]).
  { constructor; [|constructor]. unfold sameButOverlay. cbn.
    repeat split; try reflexivity. now right. }
  split; [exact H|].
  exact (X4_fist_wins_over_overlay [] [] [] _ _ initialParticles H).
Defined.

(** ** Runs of frames *)

Lemma elapsed_app (fs gs : list Frame) : elapsed (fs ++ gs) = elapsed fs + elapsed gs.
Proof.
  unfold elapsed. induction fs as [|f fs IH]; simpl; [lra|]. rewrite IH. lra.
Qed.

Lemma frames_length (shapes : list (list R)) (textShape lerpSpeeds : list R)
    (fs : list Frame) (st : Particles) :
  length (pos (frames shapes textShape lerpSpeeds fs st)) = length (pos st).
Proof.
  induction fs as [|f fs IH] using rev_ind; [reflexivity|].
  now rewrite frames_snoc, useFrame_length.
Qed.

Lemma heldAt_snoc (h : HandState) (fs : list Frame) (f : Frame) :
  heldAt h (fs ++ [f]) -> heldAt h fs /\ refsMounted f = true /\ hand f = h.
Proof.
  unfold heldAt. intros H. apply Forall_app in H. destruct H as [H1 H2].
  inversion H2 as [|? ? Hf _]; subst. now split.
Qed.

Lemma frames_meshPosition (shapes : list (list R)) (textShape lerpSpeeds : list R)
    (h : HandState) (fs : list Frame) (st : Particles) :
  heldAt h fs ->
  meshPosition (frames shapes textShape lerpSpeeds fs st)
  = iterParticle (length fs) (meshPosition st) (position h) 0.15.
Proof.
  intros H.
  induction fs as [|f fs IH] using rev_ind; [reflexivity|].
  apply heldAt_snoc in H. destruct H as (Hfs & Hm & Hh).
  rewrite frames_snoc, length_app, Nat.add_1_r. cbn [iterParticle].
  rewrite <- (IH Hfs), <- Hh.
  apply (useFrame_transform shapes textShape lerpSpeeds f _ Hm).
Qed.

Lemma frames_absent (shapes : list (list R)) (textShape lerpSpeeds : list R)
    (h : HandState) (fs : list Frame) (st : Particles) :
  heldAt h fs -> isActive h = false ->
  pos (frames shapes textShape lerpSpeeds fs st) = pos st
  /\ (fs <> [] -> visible (frames shapes textShape lerpSpeeds fs st) = false).
Proof.
  intros H Ha.
  induction fs as [|f fs IH] using rev_ind; [now split|].
  apply heldAt_snoc in H. destruct H as (Hfs & Hm & Hh).
  rewrite frames_snoc.
  destruct (useFrame_inactive shapes textShape lerpSpeeds f
              (frames shapes textShape lerpSpeeds fs st) Hm)
    as (Hv & Hp & _); [now rewrite Hh|].
  split; [|intros _; exact Hv].
  rewrite Hp. apply (IH Hfs).
Qed.

(** X13.  The anchor of a particle system follows the hand, whether the
    hand is in view or not: every frame that runs moves it by 0.15 of its
    offset from the hand.  So while the hand keeps its place the anchor never
    passes the hand, every coordinate staying between where it was and the
    hand's, and its distance from the hand never grows, over the frames and
    on the frame that comes next.  The rotation about y advances by 0.4 for
    every second of frames that run. *)
Theorem X13_anchor_follows_the_hand :
  forall (shapes : list (list R)) (textShape lerpSpeeds : list R)
         (fs : list Frame) (st : Particles),
    (forall h : HandState,
        heldAt h fs ->
        let m := meshPosition st in
        let mn := meshPosition (frames shapes textShape lerpSpeeds fs st) in
        distance mn (position h) <= distance m (position h)
        /\ between (vx m) (vx (position h)) (vx mn)
        /\ between (vy m) (vy (position h)) (vy mn)
        /\ between (vz m) (vz (position h)) (vz mn)
        /\ forall f : Frame,
             refsMounted f = true -> hand f = h ->
             let m' := meshPosition
                         (useFrame shapes textShape lerpSpeeds f
                            (frames shapes textShape lerpSpeeds fs st)) in
             vx m' = vx mn + (vx (position h) - vx mn) * 0.15
             /\ vy m' = vy mn + (vy (position h) - vy mn) * 0.15
             /\ vz m' = vz mn + (vz (position h) - vz mn) * 0.15
             /\ distance m' (position h) <= distance mn (position h))
    /\ (Forall (fun f => refsMounted f = true) fs ->
        rotationY (frames shapes textShape lerpSpeeds fs st)
        = rotationY st + elapsed fs * 0.4).
Proof.
  intros shapes textShape lerpSpeeds fs st. split.
  - intros h H m mn.
    pose proof (frames_meshPosition shapes textShape lerpSpeeds h fs st H) as E.
    fold mn in E. fold m in E.
    split; [rewrite E; apply iterParticle_closer; lra|].
    destruct (iterParticle_between (length fs) m (position h) 0.15 ltac:(lra))
      as (Hx & Hy & Hz).
    rewrite <- E in Hx, Hy, Hz.
    split; [exact Hx|]. split; [exact Hy|]. split; [exact Hz|].
    intros f Hm Hh m'.
    pose proof (proj1 (useFrame_transform shapes textShape lerpSpeeds f
                         (frames shapes textShape lerpSpeeds fs st) Hm)) as E'.
    fold m' in E'. fold mn in E'. rewrite Hh in E'. rewrite E'.
    split; [reflexivity|]. split; [reflexivity|]. split; [reflexivity|].
    apply stepParticle_closer. lra.
  - intros H.
    induction fs as [|f fs IH] using rev_ind; [simpl; lra|].
    apply Forall_app in H. destruct H as [Hfs Hf].
    inversion Hf as [|? ? Hm _]; subst.
    rewrite frames_snoc, elapsed_app.
    rewrite (proj2 (useFrame_transform shapes textShape lerpSpeeds f _ Hm)), (IH Hfs).
    unfold elapsed. simpl. lra.
Qed.

Lemma X13_anchor_follows_the_hand_witness :
  let fs := [Demo.fistFrame; Demo.fistFrame] in
  let mn := meshPosition (frames [] [] [] fs initialParticles) in
  heldAt (Demo.fistHand 1 0) fs
  /\ distance mn (position (Demo.fistHand 1 0))
     <= distance (meshPosition initialParticles) (position (Demo.fistHand 1 0))
  /\ between (vx (meshPosition initialParticles)) (vx (position (Demo.fistHand 1 0)))
       (vx mn).
Proof.
  cbv zeta.
  assert (H : heldAt (Demo.fistHand 1 0) [Demo.fistFrame; Demo.fistFrame])
    by (repeat constructor).
  split; [exact H|].
  destruct (proj1 (X13_anchor_follows_the_hand [] [] []
                     [Demo.fistFrame; Demo.fistFrame] initialParticles) _ H)
    as (Hd & Hx & _).
  split; [exact Hd | exact Hx].
Defined.

(** A run of frames each of which moves particle [j] one step toward [t]. *)
Lemma frames_particle (shapes : list (list R)) (textShape lerpSpeeds : list R)
    (t : Vec3) (s : R) (j : nat) (fs : list Frame) (st : Particles) :
  Forall (fun f => forall st' : Particles,
            length (pos st') = (PARTICLE_COUNT * 3)%nat ->
            particleAt (pos (useFrame shapes textShape lerpSpeeds f st')) j
            = stepParticle (particleAt (pos st') j) t s) fs ->
  length (pos st) = (PARTICLE_COUNT * 3)%nat ->
  particleAt (pos (frames shapes textShape lerpSpeeds fs st)) j
  = iterParticle (length fs) (particleAt (pos st) j) t s.
Proof.
  intros H Hlen.
  induction fs as [|f fs IH] using rev_ind; [reflexivity|].
  apply Forall_app in H. destruct H as [Hfs Hf].
  inversion Hf as [|? ? Hstep _]; subst.
  rewrite frames_snoc, length_app, Nat.add_1_r. cbn [iterParticle].
  rewrite <- (IH Hfs). apply Hstep. now rewrite frames_length.
Qed.

(** A frame of an active fist runs the loop of the locked-shape branch. *)
Lemma useFrame_fist (shapes : list (list R)) (textShape lerpSpeeds target : list R)
    (f : Frame) (st : Particles) :
  refsMounted f = true -> isActive (hand f) = true -> isFist (hand f) = true ->
  lookupShape shapes (shapeIndex (hand f)) = Some target ->
  pos (useFrame shapes textShape lerpSpeeds f st)
  = morphToShape target lerpSpeeds (pos st).
Proof.
  intros Hm Hact Hfist Hlook. unfold useFrame.
  rewrite Hm, Hact, Hfist, Hlook. cbn [negb pos]. reflexivity.
Qed.

(** A frame of an active open hand under the overlay runs the loop of the
    overlay branch. *)
Lemma useFrame_overlay (shapes : list (list R)) (textShape lerpSpeeds : list R)
    (f : Frame) (st : Particles) :
  refsMounted f = true -> isActive (hand f) = true -> isFist (hand f) = false ->
  isShowingText f = true ->
  pos (useFrame shapes textShape lerpSpeeds f st)
  = morphToText textShape lerpSpeeds (pos st).
Proof.
  intros Hm Hact Hfist Hshow. unfold useFrame.
  rewrite Hm, Hact, Hfist, Hshow. cbn [negb pos]. reflexivity.
Qed.

(** C3, amended.  The update rule of the locked-shape branch.  On a frame
    of an active fist the loop moves every particle by
    p' = p + (t - p) * s on each axis, t its slot of the shape and s its own
    speed.  For s in (0,1) an application never increases the Euclidean
    distance to the target, and a distance of zero stays zero; repeated
    application, frame after frame while the fist is held, never overshoots
    the target: every coordinate stays between its start and its target,
    and the distance is never more than at the start.  At a factor of at
    most 1/4, which covers the speeds of the engine, a particle that starts
    off its target is never exactly on it. *)
Theorem C3_convergence_without_overshoot :
  forall (shapes : list (list R)) (textShape lerpSpeeds target : list R)
         (h : HandState) (j : nat),
    isActive h = true -> isFist h = true ->
    lookupShape shapes (shapeIndex h) = Some target ->
    (j < PARTICLE_COUNT)%nat ->
    0 < get lerpSpeeds j < 1 ->
    let s := get lerpSpeeds j in
    let t := particleAt target j in
    (forall (f : Frame) (st : Particles),
        refsMounted f = true -> hand f = h ->
        length (pos st) = (PARTICLE_COUNT * 3)%nat ->
        let p := particleAt (pos st) j in
        let p' := particleAt (pos (useFrame shapes textShape lerpSpeeds f st)) j in
        pos (useFrame shapes textShape lerpSpeeds f st)
        = morphToShape target lerpSpeeds (pos st)
        /\ vx p' = vx p + (vx t - vx p) * s
        /\ vy p' = vy p + (vy t - vy p) * s
        /\ vz p' = vz p + (vz t - vz p) * s
        /\ distance p' t <= distance p t
        /\ (distance p t = 0 -> distance p' t = 0)
        /\ between (vx p) (vx t) (vx p')
        /\ between (vy p) (vy t) (vy p')
        /\ between (vz p) (vz t) (vz p'))
    /\ (forall (fs : list Frame) (st : Particles),
        heldAt h fs ->
        length (pos st) = (PARTICLE_COUNT * 3)%nat ->
        let p := particleAt (pos st) j in
        let pn := particleAt (pos (frames shapes textShape lerpSpeeds fs st)) j in
        distance pn t <= distance p t
        /\ between (vx p) (vx t) (vx pn)
        /\ between (vy p) (vy t) (vy pn)
        /\ between (vz p) (vz t) (vz pn)
        /\ (s <= 1 / 4 -> p <> t -> pn <> t)).
Proof.
  intros shapes textShape lerpSpeeds target h j Hact Hfist Hlook Hj Hs s t.
  assert (Hs' : 0 < s < 1) by exact Hs.
  split.
  - intros f st Hm Hh Hlen p p'.
    assert (Epos : pos (useFrame shapes textShape lerpSpeeds f st)
                   = morphToShape target lerpSpeeds (pos st)).
    { apply useFrame_fist; rewrite ?Hh; assumption. }
    assert (E : p' = stepParticle p t s).
    { subst p'. rewrite Epos. now apply morphToShape_particle. }
    split; [exact Epos|].
    rewrite E.
    split; [reflexivity|]. split; [reflexivity|]. split; [reflexivity|].
    split; [apply stepParticle_closer; lra|].
    split.
    { intros H0. rewrite stepParticle_distance by lra. rewrite H0. ring. }
    split; [|split]; apply lerpToward_between; lra.
  - intros fs st Hheld Hlen p pn.
    assert (E : pn = iterParticle (length fs) p t s).
    { apply frames_particle; [|exact Hlen].
      eapply Forall_impl; [|exact Hheld].
      intros f [Hm Hh] st' Hlen'.
      rewrite (useFrame_fist shapes textShape lerpSpeeds target f st')
        by (rewrite ?Hh; assumption).
      now apply morphToShape_particle. }
    rewrite E.
    split; [apply iterParticle_closer; lra|].
    destruct (iterParticle_between (length fs) p t s ltac:(lra)) as (Hx & Hy & Hz).
    split; [exact Hx|]. split; [exact Hy|]. split; [exact Hz|].
    intros _ Hne. apply iterParticle_off_target; [lra | exact Hne].
Qed.

(** C3, amended, for the first particle of the buffer at mount, its slot at
    (1, 1, 1) and its speed 0.1, on one frame of a fist and on two. *)
Lemma C3_convergence_without_overshoot_witness :
  let h := Demo.fistHand 1 0 in
  let st := initialParticles in
  let p := particleAt (pos st) 0 in
  let t := particleAt [1; 1; 1] 0 in
  let p' := particleAt (pos (useFrame [[1; 1; 1]] [] [0.1] Demo.fistFrame st)) 0 in
  let pn := particleAt
              (pos (frames [[1; 1; 1]] [] [0.1] [Demo.fistFrame; Demo.fistFrame] st)) 0 in
  isActive h = true /\ isFist h = true
  /\ lookupShape [[1; 1; 1]] (shapeIndex h) = Some [1; 1; 1]
  /\ (0 < PARTICLE_COUNT)%nat
  /\ 0 < get [0.1] 0 < 1
  /\ heldAt h [Demo.fistFrame; Demo.fistFrame]
  /\ length (pos st) = (PARTICLE_COUNT * 3)%nat
  /\ vx p' = vx p + (vx t - vx p) * get [0.1] 0
  /\ distance p' t <= distance p t
  /\ distance pn t <= distance p t
  /\ between (vx p) (vx t) (vx pn).
Proof.
  cbv zeta.
  assert (Hheld : heldAt (Demo.fistHand 1 0) [Demo.fistFrame; Demo.fistFrame])
    by (repeat constructor).
  assert (Hlen : length (pos initialParticles) = (PARTICLE_COUNT * 3)%nat)
    by apply repeat_length.
  assert (Hj : (0 < PARTICLE_COUNT)%nat) by (unfold PARTICLE_COUNT; lia).
  assert (Hs : 0 < get [0.1] 0 < 1) by (unfold get; cbn [nth]; lra).
  assert (Hlook : lookupShape [[1; 1; 1]] (shapeIndex (Demo.fistHand 1 0))
                  = Some [1; 1; 1]) by reflexivity.
  destruct (C3_convergence_without_overshoot [[1; 1; 1]] [] [0.1] [1; 1; 1]
              (Demo.fistHand 1 0) 0%nat eq_refl eq_refl Hlook Hj Hs)
    as [Hone Hmany].
  destruct (Hone Demo.fistFrame initialParticles eq_refl eq_refl Hlen)
    as (_ & Hx & _ & _ & Hd & _).
  destruct (Hmany [Demo.fistFrame; Demo.fistFrame] initialParticles Hheld Hlen)
    as (Hdn & Hbx & _).
  split; [reflexivity|]. split; [reflexivity|]. split; [exact Hlook|].
  split; [exact Hj|]. split; [exact Hs|]. split; [exact Hheld|].
  split; [exact Hlen|]. split; [exact Hx|]. split; [exact Hd|].
  split; [exact Hdn | exact Hbx].
Defined.

(** X14.  Under the overlay, frames compose.  On a frame of an active open
    hand while the overlay shows, the loop moves every particle by
    p' = p + (t - p) * s on each axis, t its slot of the glyph shape and s
    1.5 times its own speed.  While the hand stays so, with speeds of
    [0, 2/3], every coordinate stays between where it started and its slot
    and the distance to the slot is never more than at the start, however
    many frames run. *)
Theorem X14_overlay_frames_never_overshoot :
  forall (shapes : list (list R)) (textShape lerpSpeeds : list R)
         (h : HandState) (j : nat),
    isActive h = true -> isFist h = false ->
    (j < PARTICLE_COUNT)%nat ->
    0 <= get lerpSpeeds j <= 2 / 3 ->
    let s := get lerpSpeeds j * 1.5 in
    let t := particleAt textShape j in
    (forall (f : Frame) (st : Particles),
        refsMounted f = true -> hand f = h -> isShowingText f = true ->
        length (pos st) = (PARTICLE_COUNT * 3)%nat ->
        let p := particleAt (pos st) j in
        let p' := particleAt (pos (useFrame shapes textShape lerpSpeeds f st)) j in
        vx p' = vx p + (vx t - vx p) * s
        /\ vy p' = vy p + (vy t - vy p) * s
        /\ vz p' = vz p + (vz t - vz p) * s)
    /\ (forall (fs : list Frame) (st : Particles),
        heldAt h fs -> Forall (fun f => isShowingText f = true) fs ->
        length (pos st) = (PARTICLE_COUNT * 3)%nat ->
        let p := particleAt (pos st) j in
        let pn := particleAt (pos (frames shapes textShape lerpSpeeds fs st)) j in
        distance pn t <= distance p t
        /\ between (vx p) (vx t) (vx pn)
        /\ between (vy p) (vy t) (vy pn)
        /\ between (vz p) (vz t) (vz pn)).
Proof.
  intros shapes textShape lerpSpeeds h j Hact Hopen Hj Hs s t.
  assert (Hs' : 0 <= s <= 1) by (subst s; lra).
  split.
  - intros f st Hm Hh Hshow Hlen p p'.
    assert (E : p' = stepParticle p t s).
    { subst p'.
      rewrite (useFrame_overlay shapes textShape lerpSpeeds f st)
        by (rewrite ?Hh; assumption).
      now apply morphToText_particle. }
    rewrite E.
    split; [reflexivity|]. split; reflexivity.
  - intros fs st Hheld Hshow Hlen p pn.
    assert (E : pn = iterParticle (length fs) p t s).
    { apply frames_particle; [|exact Hlen].
      rewrite Forall_forall. intros f Hin st' Hlen'.
      unfold heldAt in Hheld. rewrite Forall_forall in Hheld, Hshow.
      destruct (Hheld f Hin) as [Hm Hh].
      rewrite (useFrame_overlay shapes textShape lerpSpeeds f st')
        by (rewrite ?Hh; auto).
      now apply morphToText_particle. }
    rewrite E.
    split; [apply iterParticle_closer; exact Hs'|].
    apply iterParticle_between. exact Hs'.
Qed.

Lemma X14_overlay_frames_never_overshoot_witness :
  let h := Demo.openHand 1 0 in
  let f := mkFrame true h App.INITIAL_HAND_STATE true 0 0.1 in
  let st := initialParticles in
  let p := particleAt (pos st) 0 in
  let t := particleAt [1; 1; 1] 0 in
  let pn := particleAt (pos (frames [] [1; 1; 1] [0.1] [f; f] st)) 0 in
  isActive h = true /\ isFist h = false
  /\ (0 < PARTICLE_COUNT)%nat
  /\ 0 <= get [0.1] 0 <= 2 / 3
  /\ heldAt h [f; f]
  /\ Forall (fun f => isShowingText f = true) [f; f]
  /\ length (pos st) = (PARTICLE_COUNT * 3)%nat
  /\ distance pn t <= distance p t
  /\ between (vx p) (vx t) (vx pn).
Proof.
  cbv zeta.
  set (f := mkFrame true (Demo.openHand 1 0) App.INITIAL_HAND_STATE true 0 0.1).
  assert (Hheld : heldAt (Demo.openHand 1 0) [f; f]) by (repeat constructor).
  assert (Hshow : Forall (fun f => isShowingText f = true) [f; f])
    by (repeat constructor).
  assert (Hlen : length (pos initialParticles) = (PARTICLE_COUNT * 3)%nat)
    by apply repeat_length.
  assert (Hj : (0 < PARTICLE_COUNT)%nat) by (unfold PARTICLE_COUNT; lia).
  assert (Hs : 0 <= get [0.1] 0 <= 2 / 3) by (unfold get; cbn [nth]; lra).
  destruct (proj2 (X14_overlay_frames_never_overshoot [] [1; 1; 1] [0.1]
                     (Demo.openHand 1 0) 0%nat eq_refl eq_refl Hj Hs)
              [f; f] initialParticles Hheld Hshow Hlen)
    as (Hd & Hx & _).
  split; [reflexivity|]. split; [reflexivity|]. split; [exact Hj|].
  split; [exact Hs|]. split; [exact Hheld|]. split; [exact Hshow|].
  split; [exact Hlen|]. split; [exact Hd | exact Hx].
Defined.

(** ** The ambient cloud *)

Lemma driftParticle_same (time spread : R) (i : nat) (p : list R) :
  (i * 3 + 2 < length p)%nat ->
  particleAt (driftParticle time spread i p) i
  = stepParticle (particleAt p i) (ambientTarget time spread i) 0.05.
Proof.
  intros H. unfold particleAt, driftParticle, stepParticle, ambientTarget, lerpToward.
  cbv zeta. cbn [vx vy vz]. f_equal.
  - rewrite !get_set_other by lia. rewrite get_set_same by lia. reflexivity.
  - rewrite get_set_other by lia.
    rewrite get_set_same by (rewrite set_length; lia).
    rewrite !get_set_other by lia. reflexivity.
  - rewrite get_set_same by (rewrite !set_length; lia).
    rewrite !get_set_other by lia. reflexivity.
Qed.

Lemma driftParticle_other (time spread : R) (i j : nat) (p : list R) :
  i <> j -> particleAt (driftParticle time spread i p) j = particleAt p j.
Proof.
  intros H. unfold particleAt, driftParticle. cbv zeta.
  now rewrite !get_set_other by lia.
Qed.

Section DriftLoop.

Variable time : R.
Variable spread : R.

Let body (i : nat) (p : list R) : list R := driftParticle time spread i p.

Lemma drift_loop_length (n : nat) (p : list R) : length (forLoop n body p) = length p.
Proof.
  induction n as [|n IH]; simpl; [reflexivity|].
  unfold body at 1. now rewrite driftParticle_length.
Qed.

Lemma drift_loop_untouched (n : nat) (p : list R) (j : nat) :
  (n <= j)%nat -> particleAt (forLoop n body p) j = particleAt p j.
Proof.
  induction n as [|n IH]; intros H; simpl; [reflexivity|].
  unfold body at 1. rewrite driftParticle_other by lia. apply IH. lia.
Qed.

Lemma drift_loop_particle (n : nat) (p : list R) (j : nat) :
  (j < n)%nat -> (n * 3 <= length p)%nat ->
  particleAt (forLoop n body p) j
  = stepParticle (particleAt p j) (ambientTarget time spread j) 0.05.
Proof.
  induction n as [|n IH]; intros Hj Hlen; [lia|].
  simpl. unfold body at 1.
  destruct (Nat.eq_dec j n) as [->|Hne].
  - rewrite driftParticle_same by (rewrite drift_loop_length; lia).
    now rewrite drift_loop_untouched.
  - rewrite driftParticle_other by lia. apply IH; lia.
Qed.

End DriftLoop.

Lemma ambientCloud_particle (time : R) (hand otherHand : HandState) (p : list R) (j : nat) :
  (j < PARTICLE_COUNT)%nat -> length p = (PARTICLE_COUNT * 3)%nat ->
  particleAt (ambientCloud time hand otherHand p) j
  = stepParticle (particleAt p j) (ambientTarget time (spread hand otherHand) j) 0.05.
Proof.
  intros Hj Hlen. unfold ambientCloud. cbv zeta.
  apply drift_loop_particle; lia.
Qed.

Lemma spread_range (hand otherHand : HandState) : 1 <= spread hand otherHand <= 4.
Proof.
  unfold spread. cbv zeta.
  destruct (isActive otherHand && negb (isFist otherHand)); [|lra].
  assert (Hd : 0 <= interHandDistance hand otherHand) by apply sqrt_pos.
  unfold Rmin. destruct (Rle_dec _ _); lra.
Qed.

Lemma ambientTarget_bound (time spread : R) (i : nat) :
  1 <= spread <= 4 ->
  Rabs (vx (ambientTarget time spread i)) <= 1.8 * spread + 0.15
  /\ Rabs (vy (ambientTarget time spread i)) <= 1.8 * spread + 0.15
  /\ Rabs (vz (ambientTarget time spread i)) <= 1.35.
Proof.
  intros Hs. unfold ambientTarget. cbv zeta. cbn [vx vy vz].
  set (seed := INR i * 0.42).
  pose proof (SIN_bound (seed + time * 0.35)) as H1.
  pose proof (SIN_bound (time * 0.15 + seed * 2)) as H2.
  pose proof (COS_bound (seed * 0.85 + time * 0.45)) as H3.
  pose proof (COS_bound (time * 0.2 + seed * 3)) as H4.
  pose proof (SIN_bound (seed * 1.15 + time * 0.25)) as H5.
  pose proof (SIN_bound (time * 0.1 + seed * 1.5)) as H6.
  repeat split; apply Rabs_le; split; nra.
Qed.

(** ** The box the particles stay in *)

Lemma Rabs_bounds (x b : R) : Rabs x <= b -> - b <= x <= b.
Proof. unfold Rabs. destruct (Rcase_abs x); lra. Qed.

Lemma lerpToward_within (p t s b : R) :
  0 <= s <= 1 -> Rabs p <= b -> Rabs t <= b -> Rabs (lerpToward p t s) <= b.
Proof.
  intros Hs Hp Ht.
  apply Rabs_bounds in Hp. apply Rabs_bounds in Ht.
  unfold lerpToward. apply Rabs_le. split; nra.
Qed.

Lemma lookupShape_In (shapes : list (list R)) (idx : Z) (target : list R) :
  lookupShape shapes idx = Some target -> In target shapes.
Proof.
  unfold lookupShape. destruct shapes as [|s0 rest]; [discriminate|].
  destruct (_ <? 0)%Z; [discriminate|]. apply nth_error_In.
Qed.

Lemma morph_within (b : Vec3) (target p : list R) (speed : nat -> R)
    (p' : list R) :
  (forall j : nat, (j < PARTICLE_COUNT)%nat ->
     particleAt p' j = stepParticle (particleAt p j) (particleAt target j) (speed j)) ->
  (forall j : nat, 0 <= speed j <= 1) ->
  withinBox b p -> withinBox b target -> withinBox b p'.
Proof.
  intros Hstep Hs Hp Ht j Hj.
  rewrite (Hstep j Hj). unfold stepParticle. cbn [vx vy vz].
  destruct (Hp j Hj) as (Hx & Hy & Hz). destruct (Ht j Hj) as (Tx & Ty & Tz).
  repeat split; apply lerpToward_within; auto.
Qed.

Lemma useFrame_within (shapes : list (list R)) (textShape lerpSpeeds : list R)
    (b : Vec3) (f : Frame) (st : Particles) :
  7.35 <= vx b -> 7.35 <= vy b -> 1.35 <= vz b ->
  Forall (withinBox b) shapes -> withinBox b textShape ->
  (forall i : nat, 0 <= get lerpSpeeds i <= 2 / 3) ->
  length (pos st) = (PARTICLE_COUNT * 3)%nat ->
  withinBox b (pos st) ->
  withinBox b (pos (useFrame shapes textShape lerpSpeeds f st)).
Proof.
  intros Bx By Bz Hshapes Htext Hspeeds Hlen Hin. unfold useFrame.
  destruct (negb (refsMounted f)); [exact Hin|].
  destruct (negb (isActive (hand f))); [exact Hin|]. cbn [pos].
  destruct (isFist (hand f)).
  - destruct (lookupShape shapes (shapeIndex (hand f))) as [target|] eqn:E; [|exact Hin].
    apply lookupShape_In in E. rewrite Forall_forall in Hshapes.
    apply (morph_within b target (pos st) (get lerpSpeeds));
      [| | exact Hin | exact (Hshapes target E)].
    + intros j Hj. now apply morphToShape_particle.
    + intros j. specialize (Hspeeds j). lra.
  - destruct (isShowingText f).
    + apply (morph_within b textShape (pos st) (fun i => get lerpSpeeds i * 1.5));
        [| | exact Hin | exact Htext].
      * intros j Hj. now apply morphToText_particle.
      * intros j. specialize (Hspeeds j). cbv beta. lra.
    + intros j Hj. rewrite ambientCloud_particle by assumption.
      pose proof (spread_range (hand f) (otherHand f)) as Hsp.
      destruct (ambientTarget_bound (time f) (spread (hand f) (otherHand f)) j Hsp)
        as (Tx & Ty & Tz).
      destruct (Hin j Hj) as (Hx & Hy & Hz).
      unfold stepParticle. cbn [vx vy vz].
      repeat split; apply lerpToward_within; lra.
Qed.

Lemma initial_within (b : Vec3) :
  0 <= vx b -> 0 <= vy b -> 0 <= vz b -> withinBox b (pos initialParticles).
Proof.
  intros Bx By Bz j _. unfold particleAt, get. cbn [pos initialParticles vx vy vz].
  assert (Hz : forall (m k : nat), nth k (repeat 0 m) 0 = 0).
  { induction m as [|m IH]; intros [|k]; simpl; auto. }
  rewrite !Hz, Rabs_R0. auto.
Qed.

(** X15.  The ambient cloud.  On a frame of the ambient mode every particle
    takes one step of factor 0.05 toward its live target, which lies within
    1.8 * spread + 0.15 of the origin in x and in y, hence within 7.35, and
    within 1.35 in z. *)
Theorem X15_ambient_cloud :
  forall (time : R) (hand otherHand : HandState),
    (forall (p : list R) (j : nat),
        (j < PARTICLE_COUNT)%nat -> length p = (PARTICLE_COUNT * 3)%nat ->
        particleAt (ambientCloud time hand otherHand p) j
        = stepParticle (particleAt p j)
            (ambientTarget time (spread hand otherHand) j) 0.05)
    /\ (forall j : nat,
          let t := ambientTarget time (spread hand otherHand) j in
          Rabs (vx t) <= 1.8 * spread hand otherHand + 0.15 <= 7.35
          /\ Rabs (vy t) <= 1.8 * spread hand otherHand + 0.15 <= 7.35
          /\ Rabs (vz t) <= 1.35).
Proof.
  intros time hand otherHand. split.
  - intros p j Hj Hlen. now apply ambientCloud_particle.
  - intros j t. subst t.
    pose proof (spread_range hand otherHand) as Hsp.
    destruct (ambientTarget_bound time (spread hand otherHand) j Hsp) as (Tx & Ty & Tz).
    repeat split; (assumption || lra).
Qed.

Lemma X15_ambient_cloud_witness :
  (0 < PARTICLE_COUNT)%nat
  /\ length (pos initialParticles) = (PARTICLE_COUNT * 3)%nat
  /\ particleAt (ambientCloud 0 (Demo.openHand 0 0) (Demo.openHand 3 4)
                   (pos initialParticles)) 0
     = stepParticle (particleAt (pos initialParticles) 0)
         (ambientTarget 0 (spread (Demo.openHand 0 0) (Demo.openHand 3 4)) 0) 0.05.
Proof.
  assert (Hj : (0 < PARTICLE_COUNT)%nat) by (unfold PARTICLE_COUNT; lia).
  assert (Hlen : length (pos initialParticles) = (PARTICLE_COUNT * 3)%nat)
    by apply repeat_length.
  split; [exact Hj|]. split; [exact Hlen|].
  exact (proj1 (X15_ambient_cloud 0 (Demo.openHand 0 0) (Demo.openHand 3 4))
           (pos initialParticles) 0%nat Hj Hlen).
Defined.

(** X16.  The particles never leave the box their targets lie in.  If every
    shape of the library and the glyph shape lie within a box that holds the
    ambient targets (half-widths of at least 7.35, 7.35 and 1.35), and every
    speed is in [0, 2/3], then after any frames from mount every particle of
    the buffer is within that box. *)
Theorem X16_particles_stay_in_the_box :
  forall (shapes : list (list R)) (textShape lerpSpeeds : list R) (b : Vec3),
    7.35 <= vx b -> 7.35 <= vy b -> 1.35 <= vz b ->
    Forall (withinBox b) shapes -> withinBox b textShape ->
    (forall i : nat, 0 <= get lerpSpeeds i <= 2 / 3) ->
    forall fs : list Frame,
      withinBox b (pos (frames shapes textShape lerpSpeeds fs initialParticles)).
Proof.
  intros shapes textShape lerpSpeeds b Bx By Bz Hshapes Htext Hspeeds fs.
  induction fs as [|f fs IH] using rev_ind.
  - apply initial_within; lra.
  - rewrite frames_snoc. apply useFrame_within; auto.
    rewrite frames_length. apply repeat_length.
Qed.

Lemma X16_particles_stay_in_the_box_witness :
  let b := mkVec3 7.35 7.35 1.35 in
  7.35 <= vx b /\ 7.35 <= vy b /\ 1.35 <= vz b
  /\ Forall (withinBox b) [pos initialParticles]
  /\ withinBox b (pos initialParticles)
  /\ (forall i : nat, 0 <= get [0.1] i <= 2 / 3)
  /\ withinBox b
       (pos (frames [pos initialParticles] (pos initialParticles) [0.1]
               [Demo.fistFrame; Demo.absentFrame] initialParticles)).
Proof.
  cbv zeta.
  assert (Bx : 7.35 <= vx (mkVec3 7.35 7.35 1.35)) by (cbn; lra).
  assert (By : 7.35 <= vy (mkVec3 7.35 7.35 1.35)) by (cbn; lra).
  assert (Bz : 1.35 <= vz (mkVec3 7.35 7.35 1.35)) by (cbn; lra).
  assert (Hin : withinBox (mkVec3 7.35 7.35 1.35) (pos initialParticles))
    by (apply initial_within; cbn; lra).
  assert (Hs : forall i : nat, 0 <= get [0.1] i <= 2 / 3).
  { intros [|[|i]]; unfold get; cbn [nth]; lra. }
  split; [exact Bx|]. split; [exact By|]. split; [exact Bz|].
  split; [constructor; [exact Hin | constructor]|].
  split; [exact Hin|]. split; [exact Hs|].
  exact (X16_particles_stay_in_the_box [pos initialParticles] (pos initialParticles)
           [0.1] (mkVec3 7.35 7.35 1.35) Bx By Bz
           (Forall_cons _ Hin (Forall_nil _)) Hin Hs
           [Demo.fistFrame; Demo.absentFrame]).
Defined.

End SceneFacts.

(** * Properties of the shape library *)

Module LibraryFacts.
Import Library.

(** ** Finite numbers *)

Lemma fin_Fin (r : R) : isFinite (Fin r).
Proof. now exists r. Qed.

Lemma fin_ofNat (n : nat) : isFinite (ofNat n).
Proof. now exists (INR n). Qed.

Lemma fin_PI : isFinite Math.PI.
Proof. now exists PI. Qed.

Lemma fin_unitDraw (v : num) : unitDraw v -> isFinite v.
Proof. intros (r & -> & _). apply fin_Fin. Qed.

Lemma fin_add (x y : num) : isFinite x -> isFinite y -> isFinite (add x y).
Proof. intros [a ->] [b ->]. apply fin_Fin. Qed.

Lemma fin_neg (x : num) : isFinite x -> isFinite (neg x).
Proof. intros [a ->]. apply fin_Fin. Qed.

Lemma fin_sub (x y : num) : isFinite x -> isFinite y -> isFinite (sub x y).
Proof. intros [a ->] [b ->]. apply fin_Fin. Qed.

Lemma fin_mul (x y : num) : isFinite x -> isFinite y -> isFinite (mul x y).
Proof. intros [a ->] [b ->]. apply fin_Fin. Qed.

Lemma fin_div (x y : num) : isFinite x -> nonzero y -> isFinite (div x y).
Proof.
  intros [a ->] (b & -> & Hb). unfold div.
  destruct (Req_dec_T b 0) as [E|_]; [contradiction|]. apply fin_Fin.
Qed.

Lemma nonzero_Fin (r : R) : r <> 0 -> nonzero (Fin r).
Proof. intros H. now exists r. Qed.

Lemma nonzero_ofNat (n : nat) : (n =? 0)%nat = false -> nonzero (ofNat n).
Proof.
  intros H. exists (INR n). split; [reflexivity|].
  apply not_0_INR. now apply Nat.eqb_neq.
Qed.

Lemma fin_sin (x : num) : isFinite x -> isFinite (Math.sin x).
Proof. intros [a ->]. apply fin_Fin. Qed.

Lemma fin_cos (x : num) : isFinite x -> isFinite (Math.cos x).
Proof. intros [a ->]. apply fin_Fin. Qed.

Lemma fin_exp (x : num) : isFinite x -> isFinite (Math.exp x).
Proof. intros [a ->]. apply fin_Fin. Qed.

Lemma fin_abs (x : num) : isFinite x -> isFinite (Math.abs x).
Proof. intros [a ->]. apply fin_Fin. Qed.

Lemma fin_floor (x : num) : isFinite x -> isFinite (Math.floor x).
Proof. intros [a ->]. apply fin_Fin. Qed.

Lemma fin_max (x y : num) : isFinite x -> isFinite y -> isFinite (Math.max x y).
Proof.
  intros [a ->] [b ->]. unfold Math.max.
  destruct (ltb (Fin a) (Fin b)); apply fin_Fin.
Qed.

Lemma fin_pow (x : num) (n : nat) : isFinite x -> isFinite (Math.pow x n).
Proof.
  intros H. induction n as [|n IH]; simpl; [apply fin_Fin | now apply fin_mul].
Qed.

Lemma fin_sqrt (x : num) : nonneg x -> isFinite (Math.sqrt x).
Proof.
  intros (a & -> & Ha). unfold Math.sqrt.
  destruct (Rlt_dec a 0) as [E|_]; [lra|]. apply fin_Fin.
Qed.

Lemma nonneg_Fin (r : R) : 0 <= r -> nonneg (Fin r).
Proof. intros H. now exists r. Qed.

Lemma nonneg_add (x y : num) : nonneg x -> nonneg y -> nonneg (add x y).
Proof. intros (a & -> & Ha) (b & -> & Hb). exists (a + b). split; [reflexivity|lra]. Qed.

Lemma nonneg_square (x : num) : isFinite x -> nonneg (mul x x).
Proof. intros [a ->]. exists (a * a). split; [reflexivity|nra]. Qed.

Lemma nonneg_max_0 (x : num) : isFinite x -> nonneg (Math.max (Fin 0) x).
Proof.
  intros [a ->]. unfold Math.max, ltb.
  destruct (Rlt_dec 0 a) as [E|E].
  - exists a. split; [reflexivity|lra].
  - exists 0. split; [reflexivity|lra].
Qed.

(** ** Typed arrays *)

Lemma set_keeps_length (a : list num) : forall (i : nat) (v : num), length (set a i v) = length a.
Proof. induction a as [|x a IH]; intros [|i] v; simpl; auto. Qed.

Lemma set_Forall (P : num -> Prop) (a : list num) :
  forall (i : nat) (v : num), Forall P a -> P v -> Forall P (set a i v).
Proof.
  induction a as [|x a IH]; intros [|i] v Ha Hv; simpl; auto;
    inversion Ha; subst; constructor; auto.
Qed.

Lemma fin_get (a : list num) (i : nat) :
  Forall isFinite a -> (i < length a)%nat -> isFinite (get a i).
Proof.
  intros Ha Hi. unfold get.
  rewrite Forall_forall in Ha. apply Ha. now apply nth_In.
Qed.

Lemma good_Float32Array : goodBuffer (Float32Array (PARTICLE_COUNT * 3)).
Proof.
  unfold goodBuffer, Float32Array. split.
  - apply repeat_length.
  - apply Forall_forall. intros v Hv. apply repeat_spec in Hv. subst. apply fin_Fin.
Qed.

Lemma good_set (pts : list num) (i : nat) (v : num) :
  goodBuffer pts -> isFinite v -> goodBuffer (set pts i v).
Proof.
  intros [Hl Hf] Hv. split.
  - now rewrite set_keeps_length.
  - now apply set_Forall.
Qed.

Lemma good_store3 (pts : list num) (idx : nat) (a b c : num) :
  goodBuffer pts -> isFinite a -> isFinite b -> isFinite c ->
  goodBuffer (store3 pts idx a b c).
Proof. intros. unfold store3. repeat apply good_set; assumption. Qed.

(** ** Computations that return *)

Section Returns.

Variable rnd : nat -> R.
Hypothesis rnd_unit : unitStream rnd.

Lemma returns_ret {A : Type} (a : A) (P : A -> Prop) : P a -> returns rnd (ret a) P.
Proof. intros H c. now exists a, c. Qed.

Lemma returns_bind {A B : Type} (m : Gen A) (k : A -> Gen B)
    (Q : A -> Prop) (P : B -> Prop) :
  returns rnd m Q -> (forall a, Q a -> returns rnd (k a) P) ->
  returns rnd (bind m k) P.
Proof.
  intros Hm Hk c. destruct (Hm c) as (a & c1 & E & Ha).
  destruct (Hk a Ha c1) as (b & c2 & E' & Hb).
  exists b, c2. unfold bind. rewrite E. auto.
Qed.

Lemma returns_weaken {A : Type} (m : Gen A) (Q P : A -> Prop) :
  returns rnd m Q -> (forall a, Q a -> P a) -> returns rnd m P.
Proof.
  intros Hm H c. destruct (Hm c) as (a & c1 & E & Ha). exists a, c1. auto.
Qed.

Lemma returns_bind_ret {A B : Type} (a : A) (k : A -> Gen B) (P : B -> Prop) :
  returns rnd (k a) P -> returns rnd (bind (ret a) k) P.
Proof. intros H c. exact (H c). Qed.

Lemma returns_bind_assoc {A B C : Type} (m : Gen A) (f : A -> Gen B) (g : B -> Gen C)
    (P : C -> Prop) :
  returns rnd (bind m (fun a => bind (f a) g)) P ->
  returns rnd (bind (bind m f) g) P.
Proof.
  intros H c. destruct (H c) as (r & c' & E & Hr). exists r, c'.
  split; [|exact Hr]. unfold bind in *.
  destruct (m rnd c) as [[a c1]|]; [exact E | discriminate E].
Qed.

Lemma returns_random : returns rnd MathRandom.random unitDraw.
Proof.
  intros c. exists (Fin (rnd c)), (S c). split; [reflexivity|].
  exists (rnd c). split; [reflexivity | apply rnd_unit].
Qed.

Lemma returns_item {A : Type} (a : list A) (i : nat) (P : A -> Prop) :
  (i < length a)%nat -> Forall P a -> returns rnd (item a i) P.
Proof.
  intros Hi Ha. unfold item.
  destruct (nth_error a i) as [v|] eqn:E.
  - apply returns_ret. rewrite Forall_forall in Ha. apply Ha.
    eapply nth_error_In. exact E.
  - apply nth_error_None in E. lia.
Qed.

Lemma returns_forLoop {S : Type} (n : nat) (body : nat -> S -> Gen S) (s : S)
    (I : S -> Prop) :
  I s ->
  (forall i s', (i < n)%nat -> I s' -> returns rnd (body i s') I) ->
  returns rnd (forLoop n body s) I.
Proof.
  intros Hs Hbody. induction n as [|n IH]; simpl.
  - now apply returns_ret.
  - eapply returns_bind.
    + apply IH. intros i s' Hi. apply Hbody. lia.
    + intros s' Hs'. apply Hbody; [lia | exact Hs'].
Qed.

(** The loop rule with an invariant that knows the rounds done. *)
Lemma returns_forLoop_counted {S : Type} (n : nat) (body : nat -> S -> Gen S) (s : S)
    (I : nat -> S -> Prop) :
  I 0%nat s ->
  (forall i s', (i < n)%nat -> I i s' -> returns rnd (body i s') (I (Datatypes.S i))) ->
  returns rnd (forLoop n body s) (I n).
Proof.
  intros Hs Hbody. induction n as [|n IH]; simpl.
  - now apply returns_ret.
  - eapply returns_bind.
    + apply IH. intros i s' Hi. apply Hbody. lia.
    + intros s' Hs'. apply Hbody; [lia | exact Hs'].
Qed.

(** A [while] loop whose body lowers a measure returns, with the condition
    false, when it is given more rounds than the measure. *)
Lemma returns_whileLoop {S : Type} (mu : S -> nat) (I : S -> Prop)
    (cond : S -> bool) (body : S -> Gen S) :
  (forall s, I s -> cond s = true ->
     returns rnd (body s) (fun s' => I s' /\ (mu s' < mu s)%nat)) ->
  forall (fuel : nat) (s : S),
    I s -> (mu s < fuel)%nat ->
    returns rnd (whileLoop fuel cond body s) (fun s' => I s' /\ cond s' = false).
Proof.
  intros Hbody fuel. induction fuel as [|fuel IH]; intros s Hs Hmu; [lia|].
  simpl. destruct (cond s) eqn:Ec.
  - eapply returns_bind; [apply Hbody; assumption|].
    intros s' [Hs' Hlt]. apply IH; [exact Hs' | lia].
  - apply returns_ret. auto.
Qed.

Lemma returns_forEach {A S : Type} (a : list A) (body : A -> S -> Gen S) (s : S)
    (I : S -> Prop) :
  I s ->
  (forall v s', In v a -> I s' -> returns rnd (body v s') I) ->
  returns rnd (forEach a body s) I.
Proof.
  revert s. induction a as [|v a IH]; intros s Hs Hbody; simpl.
  - now apply returns_ret.
  - eapply returns_bind.
    + apply Hbody; [now left | exact Hs].
    + intros s' Hs'. apply IH; [exact Hs'|].
      intros w s'' Hw. apply Hbody. now right.
Qed.

Lemma returns_arrayFrom {A : Type} (n : nat) (f : Gen A) (P : A -> Prop) :
  returns rnd f P ->
  returns rnd (arrayFrom n f) (fun l => length l = n /\ Forall P l).
Proof.
  intros Hf. induction n as [|n IH]; simpl.
  - apply returns_ret. auto.
  - eapply returns_bind; [exact Hf|]. intros a Ha.
    eapply returns_bind; [exact IH|]. intros l [Hl HP].
    apply returns_ret. simpl. auto.
Qed.

End Returns.

(** ** The generators return good buffers *)

Ltac nz :=
  lazymatch goal with
  | |- nonzero (ofNat _) => apply nonzero_ofNat; vm_compute; reflexivity
  | |- nonzero (Fin _) => apply nonzero_Fin; lra
  end.

Lemma fin_x3 (v : Vector3) : finiteVector v -> isFinite (x3 v).
Proof. now intros (H & _ & _). Qed.

Lemma fin_y3 (v : Vector3) : finiteVector v -> isFinite (y3 v).
Proof. now intros (_ & H & _). Qed.

Lemma fin_z3 (v : Vector3) : finiteVector v -> isFinite (z3 v).
Proof. now intros (_ & _ & H). Qed.

Lemma finite_mkVector3 (a b c : num) :
  isFinite a -> isFinite b -> isFinite c -> finiteVector (mkVector3 a b c).
Proof. intros. repeat split; assumption. Qed.

Ltac fin :=
  lazymatch goal with
  | |- isFinite (Fin _) => apply fin_Fin
  | |- isFinite (ofNat _) => apply fin_ofNat
  | |- isFinite Math.PI => apply fin_PI
  | |- isFinite (add _ _) => apply fin_add; fin
  | |- isFinite (sub _ _) => apply fin_sub; fin
  | |- isFinite (mul _ _) => apply fin_mul; fin
  | |- isFinite (neg _) => apply fin_neg; fin
  | |- isFinite (div _ _) => apply fin_div; [fin | nz]
  | |- isFinite (Math.sin _) => apply fin_sin; fin
  | |- isFinite (Math.cos _) => apply fin_cos; fin
  | |- isFinite (Math.exp _) => apply fin_exp; fin
  | |- isFinite (Math.abs _) => apply fin_abs; fin
  | |- isFinite (Math.floor _) => apply fin_floor; fin
  | |- isFinite (Math.pow _ _) => apply fin_pow; fin
  | |- isFinite (Math.max _ _) => apply fin_max; fin
  | |- isFinite (Math.sqrt _) => apply fin_sqrt; nn
  | |- isFinite (lerp _ _ _) => apply lerp_finite; fin
  | |- isFinite (if ?b then _ else _) => destruct b; fin
  | |- isFinite (x3 _) => apply fin_x3; finv
  | |- isFinite (y3 _) => apply fin_y3; finv
  | |- isFinite (z3 _) => apply fin_z3; finv
  | |- isFinite _ => first [assumption | apply fin_unitDraw; assumption]
  end
with finv :=
  lazymatch goal with
  | |- finiteVector (mkVector3 _ _ _) => apply finite_mkVector3; fin
  | |- finiteVector (applyEuler _ _ _ _) => apply applyEuler_finite; [finv | fin | fin | fin]
  | |- finiteVector (applyAxisAngle _ _ _) => apply applyAxisAngle_finite; [finv | finv | fin]
  | |- finiteVector (normalize _) => apply normalize_finite; finv
  | |- finiteVector (addVectors _ _) => apply addVectors_finite; finv
  | |- finiteVector (multiplyScalar _ _) => apply multiplyScalar_finite; [finv | fin]
  | |- finiteVector _ => assumption
  end
with nn :=
  lazymatch goal with
  | |- nonneg (add _ _) => apply nonneg_add; nn
  | |- nonneg (mul ?x ?x) => apply nonneg_square; fin
  | |- nonneg (Math.max (Fin 0) _) => apply nonneg_max_0; fin
  | |- nonneg (Fin _) => apply nonneg_Fin; lra
  end.

Ltac good :=
  lazymatch goal with
  | |- goodBuffer (Float32Array _) => apply good_Float32Array
  | |- goodBuffer (store3 _ _ _ _ _) => apply good_store3; [good | fin | fin | fin]
  | |- goodBuffer (set _ _ _) => apply good_set; [good | fin]
  | |- goodBuffer _ => assumption
  | |- finiteVector _ => finv
  end.

Ltac gen_step :=
  lazymatch goal with
  | |- returns _ (ret _) _ => apply returns_ret; good
  | |- returns _ (bind MathRandom.random _) _ =>
      eapply returns_bind; [apply returns_random; assumption | intros ? ?]
  | |- returns _ (forLoop _ _ _) _ =>
      apply returns_forLoop; [good | intros ? ? ? ?]
  | |- returns _ (bind (ret _) _) _ => apply returns_bind_ret
  | |- returns _ (bind (bind _ _) _) _ => apply returns_bind_assoc
  | |- returns _ (bind (if ?b then _ else _) _) _ => destruct b
  | |- returns _ (if ?b then _ else _) _ => destruct b
  | |- returns _ (match (if ?b then _ else _) with _ => _ end) _ => destruct b
  | |- returns _ _ _ => progress cbv beta zeta iota
  end.

Ltac gen := repeat gen_step.

Section Generators.

Context {three : Three} {threeFinite : ThreeFinite three}.
Variable rnd : nat -> R.
Hypothesis rnd_unit : unitStream rnd.

Lemma generateDoubleHelix_good : returns rnd generateDoubleHelix goodBuffer.
Proof. unfold generateDoubleHelix. gen. Qed.

Lemma generateMechanical_good : returns rnd generateMechanical goodBuffer.
Proof. unfold generateMechanical. gen. Qed.

Lemma generateVoxelMonolith_good : returns rnd generateVoxelMonolith goodBuffer.
Proof. unfold generateVoxelMonolith. gen. Qed.

Lemma generateCyberEye_good : returns rnd generateCyberEye goodBuffer.
Proof. unfold generateCyberEye. gen. Qed.

Lemma generateCityscape_good : returns rnd generateCityscape goodBuffer.
Proof. unfold generateCityscape. gen. Qed.

Lemma generateVortex_good : returns rnd generateVortex goodBuffer.
Proof. unfold generateVortex. gen. Qed.

Lemma generateSacredGeometry_good : returns rnd generateSacredGeometry goodBuffer.
Proof. unfold generateSacredGeometry. gen. Qed.

Lemma generateDigitalSingularity_good : returns rnd generateDigitalSingularity goodBuffer.
Proof. unfold generateDigitalSingularity. gen. Qed.

Lemma generateCrystallineFlower_good : returns rnd generateCrystallineFlower goodBuffer.
Proof. unfold generateCrystallineFlower. gen. Qed.

Lemma generateInterferenceWave_good : returns rnd generateInterferenceWave goodBuffer.
Proof. unfold generateInterferenceWave. gen. Qed.

Lemma generateRibbonSpiral_good : returns rnd generateRibbonSpiral goodBuffer.
Proof. unfold generateRibbonSpiral. gen. Qed.

Lemma generateGeometricGeode_good : returns rnd generateGeometricGeode goodBuffer.
Proof. unfold generateGeometricGeode. gen. Qed.

Lemma generateQuantumEntanglement_good : returns rnd generateQuantumEntanglement goodBuffer.
Proof. unfold generateQuantumEntanglement. gen. Qed.

Lemma generateStarGate_good : returns rnd generateStarGate goodBuffer.
Proof. unfold generateStarGate. gen. Qed.

Lemma generateDNALattice_good : returns rnd generateDNALattice goodBuffer.
Proof. unfold generateDNALattice. gen. Qed.

Lemma generateSupernova_good : returns rnd generateSupernova goodBuffer.
Proof. unfold generateSupernova. gen. Qed.

Lemma generateHyperCore_good : returns rnd generateHyperCore goodBuffer.
Proof. unfold generateHyperCore. gen. Qed.

Lemma generateSpikyUrchin_good : returns rnd generateSpikyUrchin goodBuffer.
Proof. unfold generateSpikyUrchin. gen. Qed.

Lemma generateDataStream_good : returns rnd generateDataStream goodBuffer.
Proof. unfold generateDataStream. gen. Qed.

Lemma generateWarpTunnel_good : returns rnd generateWarpTunnel goodBuffer.
Proof. unfold generateWarpTunnel. gen. Qed.

Lemma generateAuraShield_good : returns rnd generateAuraShield goodBuffer.
Proof. unfold generateAuraShield. gen. Qed.

Lemma generateCyberDisc_good : returns rnd generateCyberDisc goodBuffer.
Proof. unfold generateCyberDisc. gen. Qed.

Lemma generateMobiusStrip_good : returns rnd generateMobiusStrip goodBuffer.
Proof. unfold generateMobiusStrip. gen. Qed.

Lemma generateVoronoiShell_good : returns rnd generateVoronoiShell goodBuffer.
Proof. unfold generateVoronoiShell. gen. Qed.

Lemma generateBinaryPillar_good : returns rnd generateBinaryPillar goodBuffer.
Proof. unfold generateBinaryPillar. gen. Qed.

Lemma generateMagneticField_good : returns rnd generateMagneticField goodBuffer.
Proof. unfold generateMagneticField. gen. Qed.

Lemma generateHelixSphere_good : returns rnd generateHelixSphere goodBuffer.
Proof. unfold generateHelixSphere. gen. Qed.

Lemma generatePulsarCore_good : returns rnd generatePulsarCore goodBuffer.
Proof. unfold generatePulsarCore. gen. Qed.

Lemma generateExplodedCube_good : returns rnd generateExplodedCube goodBuffer.
Proof. unfold generateExplodedCube. gen. Qed.

Lemma generateCloverKnot_good : returns rnd generateCloverKnot goodBuffer.
Proof. unfold generateCloverKnot. gen. Qed.

Lemma generateKleinBottle_good : returns rnd generateKleinBottle goodBuffer.
Proof. unfold generateKleinBottle. gen. Qed.

Lemma generateHyperboloid_good : returns rnd generateHyperboloid goodBuffer.
Proof. unfold generateHyperboloid. gen. Qed.

Lemma generateGalacticSpiral_good : returns rnd generateGalacticSpiral goodBuffer.
Proof. unfold generateGalacticSpiral. gen. Qed.

Lemma generateCalyx_good : returns rnd generateCalyx goodBuffer.
Proof. unfold generateCalyx. gen. Qed.

Lemma generateNautilusShell_good : returns rnd generateNautilusShell goodBuffer.
Proof. unfold generateNautilusShell. gen. Qed.

Lemma generateRibbonKnot_good : returns rnd generateRibbonKnot goodBuffer.
Proof. unfold generateRibbonKnot. gen. Qed.

Lemma generateDataFountain_good : returns rnd generateDataFountain goodBuffer.
Proof. unfold generateDataFountain. gen. Qed.


(** *** Generators that read arrays *)

Lemma fin_position (pos : list num) (n i k : nat) :
  (0 < n)%nat -> length pos = (n * 3)%nat -> Forall isFinite pos -> (k < 3)%nat ->
  isFinite (get pos ((i mod (length pos / 3)) * 3 + k)).
Proof.
  intros Hn Hl Hf Hk. apply fin_get; [exact Hf|].
  rewrite Hl, Nat.div_mul by lia.
  pose proof (Nat.mod_upper_bound i n). lia.
Qed.

Lemma getMeshPoints_good (g : Geometry) :
  In g sceneGeometries -> returns rnd (getMeshPoints g) goodBuffer.
Proof.
  intros Hg. destruct (positionArray_finite g Hg) as (n & Hn & Hl & Hf).
  unfold getMeshPoints. cbv beta zeta.
  apply returns_forLoop; [good|]. intros i pts _ Hpts.
  apply returns_ret. apply good_store3; [exact Hpts| | |].
  - rewrite <- (Nat.add_0_r (_ * 3)). apply (fin_position _ n); auto; lia.
  - apply (fin_position _ n); auto; lia.
  - apply (fin_position _ n); auto; lia.
Qed.

Lemma generateCrystalline_good : returns rnd generateCrystalline goodBuffer.
Proof.
  unfold generateCrystalline. cbv beta zeta.
  apply returns_forLoop; [good|]. intros l pts Hl Hpts.
  assert (Hg : In (IcosahedronGeometry (add (Fin 0.4) (mul (ofNat l) (Fin 0.25))) 1)
                 sceneGeometries).
  { destruct l as [|[|[|l]]]; [| | |lia]; unfold sceneGeometries; simpl; auto 12. }
  destruct (positionArray_finite _ Hg) as (n & Hn & Hlen & Hf).
  apply returns_forLoop; [exact Hpts|]. intros p pts' _ Hpts'.
  apply returns_ret. apply good_store3; [exact Hpts'| | |].
  - rewrite <- (Nat.add_0_r (_ * 3)). apply (fin_position _ n); auto; lia.
  - apply (fin_position _ n); auto; lia.
  - apply (fin_position _ n); auto; lia.
Qed.

Lemma generateOrbitingRings_good : returns rnd generateOrbitingRings goodBuffer.
Proof. unfold generateOrbitingRings. gen. Qed.

Lemma randomVector_finite (a b c : num) :
  isFinite a -> isFinite b -> isFinite c ->
  returns rnd (randomVector a b c) finiteVector.
Proof. intros. unfold randomVector. gen. Qed.

Lemma generateMolecule_good : returns rnd generateMolecule goodBuffer.
Proof.
  unfold generateMolecule. cbv beta zeta.
  eapply returns_bind.
  { apply returns_arrayFrom. apply randomVector_finite; fin. }
  intros centers [Hlen Hfin].
  apply returns_forLoop; [good|]. intros a pts Ha Hpts. cbv beta zeta.
  apply returns_forLoop; [good|]. intros p pts' _ Hpts'.
  gen.
  eapply returns_bind; [apply returns_item with (P := finiteVector); [lia | exact Hfin]|].
  intros c Hc. gen.
Qed.

Lemma generateFloatingIslands_good : returns rnd generateFloatingIslands goodBuffer.
Proof.
  unfold generateFloatingIslands. cbv beta zeta.
  eapply returns_bind.
  { apply returns_arrayFrom. apply randomVector_finite; fin. }
  intros centers [Hlen Hfin].
  apply returns_forLoop; [good|]. intros i pts _ Hpts.
  eapply returns_bind.
  { apply returns_item with (P := finiteVector); [|exact Hfin].
    rewrite Hlen. apply Nat.mod_upper_bound. lia. }
  intros c Hc. gen.
Qed.

(** Two nodes of a list that is not empty, then a draw. *)
Lemma web_good (nodes : list Vector3) (k : nat) :
  (0 < length nodes)%nat -> Forall finiteVector nodes ->
  returns rnd
    (forLoop PARTICLE_COUNT (fun i pts =>
       n1 <- item nodes (i mod length nodes) ;;
       n2 <- item nodes ((i + k) mod length nodes) ;;
       t <- MathRandom.random ;;
       ret (store3 pts (i * 3)
              (lerp (x3 n1) (x3 n2) t)
              (lerp (y3 n1) (y3 n2) t)
              (lerp (z3 n1) (z3 n2) t)))
       (Float32Array (PARTICLE_COUNT * 3)))
    goodBuffer.
Proof.
  intros Hlen Hfin.
  apply returns_forLoop; [good|]. intros i pts _ Hpts.
  eapply returns_bind.
  { apply returns_item with (P := finiteVector); [|exact Hfin].
    apply Nat.mod_upper_bound. lia. }
  intros n1 Hn1.
  eapply returns_bind.
  { apply returns_item with (P := finiteVector); [|exact Hfin].
    apply Nat.mod_upper_bound. lia. }
  intros n2 Hn2. gen.
Qed.

Lemma generateNeuralNetwork_good : returns rnd generateNeuralNetwork goodBuffer.
Proof.
  unfold generateNeuralNetwork. cbv beta zeta.
  eapply returns_bind.
  { apply returns_arrayFrom. apply randomVector_finite; fin. }
  intros nodes [Hlen Hfin]. apply web_good; [lia | exact Hfin].
Qed.

Lemma generateDigitalWeb_good : returns rnd generateDigitalWeb goodBuffer.
Proof.
  unfold generateDigitalWeb. cbv beta zeta.
  eapply returns_bind.
  { apply returns_arrayFrom. apply randomVector_finite; fin. }
  intros nodes [Hlen Hfin]. apply web_good; [lia | exact Hfin].
Qed.

Lemma fin_row (row : list num) (k : nat) :
  finiteRow row -> (k < 3)%nat -> isFinite (get row k).
Proof. intros [Hl Hf] Hk. apply fin_get; [exact Hf | lia]. Qed.

Lemma cubeCorners_finite : Forall finiteRow cubeCorners.
Proof.
  unfold cubeCorners.
  repeat (constructor; [split; [reflexivity | repeat constructor; apply fin_Fin]|]).
  constructor.
Qed.

Lemma pyramidCorners_finite : Forall finiteRow pyramidCorners.
Proof.
  unfold pyramidCorners.
  repeat (constructor; [split; [reflexivity | repeat constructor; apply fin_Fin]|]).
  constructor.
Qed.

Lemma generateTesseract_good : returns rnd generateTesseract goodBuffer.
Proof.
  unfold generateTesseract. cbv beta zeta.
  eapply returns_bind with (Q := fun st => goodBuffer (fst st)).
  - apply returns_forLoop; [cbn [fst]; good|]. intros i st Hi Hst.
    apply returns_forLoop; [exact Hst|]. intros p [pts count] _ Hpts.
    cbn [fst] in Hpts. cbv beta iota.
    destruct (PARTICLE_COUNT <=? count)%nat; [now apply returns_ret|].
    eapply returns_bind.
    { apply returns_item with (P := finiteRow); [exact Hi | apply cubeCorners_finite]. }
    intros vi Hvi. apply returns_ret. cbn [fst].
    apply good_store3; [exact Hpts| | |];
      apply lerp_finite; try fin; apply fin_mul; try fin; apply fin_row; auto.
  - intros [pts count] Hpts. now apply returns_ret.
Qed.

Lemma generatePyramidFractal_good : returns rnd generatePyramidFractal goodBuffer.
Proof.
  unfold generatePyramidFractal. cbv beta zeta.
  apply returns_forLoop; [good|]. intros i pts _ Hpts.
  gen_step.
  eapply returns_bind with (Q := fun pq => finiteRow (fst pq) /\ finiteRow (snd pq)).
  - assert (Hedge : (i mod 8 < 8)%nat) by (apply Nat.mod_upper_bound; lia).
    change (length pyramidCorners) with 5%nat.
    destruct (i mod 8 <? 4)%nat eqn:E.
    + apply Nat.ltb_lt in E.
      eapply returns_bind;
        [apply returns_item with (P := finiteRow);
           [change (length pyramidCorners) with 5%nat; lia | apply pyramidCorners_finite]|].
      intros p1 Hp1.
      eapply returns_bind;
        [apply returns_item with (P := finiteRow);
           [change (length pyramidCorners) with 5%nat; lia | apply pyramidCorners_finite]|].
      intros p2 Hp2. apply returns_ret. auto.
    + apply Nat.ltb_ge in E.
      eapply returns_bind;
        [apply returns_item with (P := finiteRow);
           [change (length pyramidCorners) with 5%nat; lia | apply pyramidCorners_finite]|].
      intros p1 Hp1.
      eapply returns_bind;
        [apply returns_item with (P := finiteRow);
           [|apply pyramidCorners_finite]|].
      { change (length pyramidCorners) with 5%nat.
        destruct (i mod 8 =? 7)%nat eqn:E7; [lia|].
        apply Nat.eqb_neq in E7. lia. }
      intros p2 Hp2. apply returns_ret. auto.
  - intros [p1 p2] [Hp1 Hp2]. cbn [fst snd] in *. apply returns_ret.
    apply good_store3; [exact Hpts| | |];
      apply fin_mul; try fin; apply lerp_finite; try fin; apply fin_row; auto.
Qed.

Lemma generateFractalLattice_good : returns rnd generateFractalLattice goodBuffer.
Proof.
  unfold generateFractalLattice. cbv beta zeta.
  eapply returns_bind with (Q := fun st => goodBuffer (fst st)).
  - apply returns_forLoop; [cbn [fst]; good|]. intros x st _ Hst.
    apply returns_forLoop; [exact Hst|]. intros y st1 _ Hst1.
    apply returns_forLoop; [exact Hst1|]. intros z st2 _ Hst2.
    apply returns_forLoop; [exact Hst2|]. intros k [pts count] _ Hpts.
    cbn [fst] in Hpts. cbv beta iota.
    destruct (count <? PARTICLE_COUNT)%nat; [|now apply returns_ret].
    do 3 gen_step. apply returns_ret. cbn [fst]. good.
  - intros [pts count] Hpts. now apply returns_ret.
Qed.


(** *** Generators that index by a draw *)

Lemma floor_scaled (r : R) (m : Z) :
  0 <= r < 1 -> (0 < m)%Z -> (0 <= Zfloor (r * IZR m) < m)%Z.
Proof.
  intros Hr Hm. assert (0 < IZR m) by (now apply IZR_lt).
  split.
  - apply Zfloor_lub. simpl. nra.
  - apply lt_IZR. pose proof (Zfloor_bound (r * IZR m)). nra.
Qed.

Lemma asIndex_IZR (z : Z) : (0 <= z)%Z -> asIndex (Fin (IZR z)) = Some (Z.to_nat z).
Proof.
  intros Hz. unfold asIndex. rewrite ZfloorZ.
  destruct (Req_dec_T (IZR z) (IZR z)) as [_|E]; [|congruence].
  destruct (0 <=? z)%Z eqn:E; [reflexivity|]. apply Z.leb_gt in E. lia.
Qed.

Lemma returns_itemAt {A : Type} (a : list A) (v : num) (m : Z) (P : A -> Prop) :
  unitDraw v -> (0 < m)%Z -> Z.to_nat m = length a -> Forall P a ->
  returns rnd (itemAt a (Math.floor (mul v (Fin (IZR m))))) P.
Proof.
  intros (r & -> & Hr) Hm Hlen Ha. unfold itemAt. cbn [Math.floor mul].
  pose proof (floor_scaled r m Hr Hm) as Hz.
  rewrite asIndex_IZR by lia.
  apply returns_item; [lia | exact Ha].
Qed.

Lemma generateSierpinskiCube_good : returns rnd generateSierpinskiCube goodBuffer.
Proof.
  unfold generateSierpinskiCube. cbv beta zeta.
  eapply returns_bind with (Q := fun st => goodBuffer (fst st) /\ finiteRow (snd st)).
  - apply returns_forLoop.
    { cbn [fst snd]. split; [good|].
      split; [reflexivity | repeat constructor; apply fin_Fin]. }
    intros i [pts curr] _ [Hpts Hcurr]. cbn [fst snd] in *. cbv beta iota.
    gen_step.
    eapply returns_bind.
    { apply (returns_itemAt cubeCorners a 8 finiteRow);
        [assumption | lia | reflexivity | apply cubeCorners_finite]. }
    intros target Htarget. cbv beta zeta.
    assert (H0 : finiteRow (set curr 0 (div (add (get curr 0) (get target 0)) (Fin 3)))).
    { destruct Hcurr as [Hl Hf]. split; [now rewrite set_keeps_length|].
      apply set_Forall; [exact Hf|].
      apply fin_div; [apply fin_add; apply fin_row; auto; split; auto | nz]. }
    set (curr0 := set curr 0 _) in *.
    assert (H1 : finiteRow (set curr0 1 (div (add (get curr0 1) (get target 1)) (Fin 3)))).
    { destruct H0 as [Hl Hf]. split; [now rewrite set_keeps_length|].
      apply set_Forall; [exact Hf|].
      apply fin_div; [apply fin_add; apply fin_row; auto; split; auto | nz]. }
    set (curr1 := set curr0 1 _) in *.
    assert (H2 : finiteRow (set curr1 2 (div (add (get curr1 2) (get target 2)) (Fin 3)))).
    { destruct H1 as [Hl Hf]. split; [now rewrite set_keeps_length|].
      apply set_Forall; [exact Hf|].
      apply fin_div; [apply fin_add; apply fin_row; auto; split; auto | nz]. }
    set (curr2 := set curr1 2 _) in *.
    apply returns_ret. cbn [fst snd]. split; [|exact H2].
    apply good_store3; [exact Hpts| | |]; apply fin_mul; try fin; apply fin_row; auto.
  - intros [pts curr] [Hpts _]. now apply returns_ret.
Qed.

(** *** The fractal tree *)

(** A branch has two or three children. *)
Lemma returns_children (v : num) :
  unitDraw v ->
  returns rnd (iterations (add (Fin 2) (Math.floor (mul v (Fin 2)))))
    (fun n => (n <= 3)%nat).
Proof.
  intros (r & -> & Hr). cbn [Math.floor mul add iterations].
  pose proof (floor_scaled r 2 Hr ltac:(lia)) as Hz.
  apply returns_ret.
  replace (2 + IZR (Zfloor (r * 2))) with (IZR (2 + Zfloor (r * 2)))
    by (rewrite plus_IZR; reflexivity).
  rewrite (Zceil_eq (2 + Zfloor (r * 2))) by lra. lia.
Qed.

Lemma growBranch_round (st : list Vector3 * list Branch) :
  treeInvariant st -> treeCondition st = true ->
  returns rnd (growBranch st)
    (fun st' => treeInvariant st' /\ (treeMeasure st' < treeMeasure st)%nat).
Proof.
  destruct st as [nodes stack]. unfold treeInvariant, treeMeasure, treeCondition.
  cbn [fst snd]. intros (Hn & Hs & Hlen) Hc.
  apply andb_true_iff in Hc. destruct Hc as [Hc1 Hc2].
  apply Nat.ltb_lt in Hc1, Hc2.
  destruct stack as [|b stack]; [simpl in Hc1; lia|].
  inversion Hs as [|? ? (Hp & Hd & Hl) Hs']; subst.
  unfold growBranch. cbv beta iota.
  destruct (5 <? branchDepth b)%nat.
  { apply returns_ret. cbn [fst snd length]. split; [split; [|split]|]; auto; lia. }
  cbv beta zeta.
  assert (Hnext : finiteVector
                    (addVectors (branchP b) (multiplyScalar (branchDir b) (branchLen b))))
    by finv.
  set (nextP := addVectors _ _) in *.
  gen_step.
  eapply returns_bind; [apply returns_children; assumption|].
  intros n Hle. cbv beta in Hle |- *.
  eapply returns_bind.
  { apply returns_forLoop_counted
      with (I := fun i stack' =>
                   Forall finiteBranch stack' /\ length stack' = (length stack + i)%nat).
    - split; [exact Hs' | lia].
    - intros i stack' _ [Hf Hlen']. do 4 gen_step.
      apply returns_ret. split.
      + constructor; [|exact Hf]. unfold finiteBranch. cbn [branchP branchDir branchLen].
        split; [exact Hnext|]. split; [finv | fin].
      + simpl. lia. }
  intros stack' [Hf Hlen']. apply returns_ret. cbn [fst snd].
  rewrite length_app. cbn [length].
  split; [split; [|split]|].
  - apply Forall_app. split; [exact Hn | constructor; [exact Hnext | constructor]].
  - exact Hf.
  - lia.
  - lia.
Qed.

(** The loop of the tree ends before its rounds are used up. *)
Lemma growBranch_loop :
  returns rnd
    (whileLoop treeRounds treeCondition growBranch
       ([mkVector3 (Fin 0) (Fin (- 0.8)) (Fin 0)],
        [mkBranch (mkVector3 (Fin 0) (Fin (- 0.8)) (Fin 0))
           (mkVector3 (Fin 0) (Fin 1) (Fin 0)) (Fin 0.4) 0]))
    (fun st => treeInvariant st /\ treeCondition st = false).
Proof.
  apply returns_whileLoop with (mu := treeMeasure).
  - intros st. apply growBranch_round.
  - unfold treeInvariant. cbn [fst snd length].
    repeat split; try lia; repeat constructor; try apply fin_Fin.
  - unfold treeMeasure, treeRounds. cbn [fst snd length]. lia.
Qed.

Lemma generateFractalTree_good : returns rnd generateFractalTree goodBuffer.
Proof.
  unfold generateFractalTree. cbv beta zeta.
  eapply returns_bind; [exact growBranch_loop|].
  intros [nodes stack] [(Hn & _ & Hlen) _]. cbn [fst snd] in *.
  apply web_good; [lia | exact Hn].
Qed.

(** *** The glyph *)

Lemma lordxSegments_finite : Forall finiteSegment lordxSegments.
Proof.
  unfold lordxSegments.
  repeat (constructor; [cbn [finiteSegment]; repeat split; fin|]).
  constructor.
Qed.

Lemma generateLORDx_good : returns rnd generateLORDx goodBuffer.
Proof.
  unfold generateLORDx. cbv beta zeta.
  eapply returns_bind with (Q := fun st => goodBuffer (fst st)).
  - apply returns_forEach; [cbn [fst]; good|]. intros seg st Hseg Hst.
    pose proof lordxSegments_finite as Hfin.
    rewrite Forall_forall in Hfin. specialize (Hfin seg Hseg).
    apply returns_forLoop; [exact Hst|]. intros i [pts count] _ Hpts.
    cbn [fst] in Hpts. cbv beta iota.
    destruct (PARTICLE_COUNT <=? count)%nat; [now apply returns_ret|].
    cbv beta zeta. gen_step.
    destruct seg as [start finish | center radius startA endA];
      cbn [finiteSegment] in Hfin; apply returns_ret; cbn [fst].
    + destruct Hfin as [Hs Hf]. good.
    + destruct Hfin as (Hc & Hr & Ha & He). good.
  - intros [pts count] Hpts. now apply returns_ret.
Qed.


(** *** The gyroid *)

(** A round of the loop on draws that fail the test: nothing changes but the
    three draws taken. *)
Lemma gyroidSample_reject (pts : list num) (count c : nat) :
  gyroidAccepts rnd c = false ->
  gyroidSample (pts, count) rnd c = Some ((pts, count), (c + 3)%nat).
Proof.
  unfold gyroidAccepts, gyroidSample, bind, MathRandom.random, ret.
  cbv beta zeta iota. rewrite !Nat.add_1_r.
  replace (c + 2)%nat with (S (S c)) by lia.
  replace (c + 3)%nat with (S (S (S c))) by lia.
  intros ->. reflexivity.
Qed.

(** A round on draws that pass it: one more point, three finite numbers. *)
Lemma gyroidSample_accept (pts : list num) (count c : nat) :
  gyroidAccepts rnd c = true -> goodBuffer pts ->
  exists pts' : list num,
    gyroidSample (pts, count) rnd c = Some ((pts', S count), (c + 3)%nat)
    /\ goodBuffer pts'.
Proof.
  unfold gyroidAccepts, gyroidSample, bind, MathRandom.random, ret.
  cbv beta zeta iota. rewrite !Nat.add_1_r.
  replace (c + 2)%nat with (S (S c)) by lia.
  replace (c + 3)%nat with (S (S (S c))) by lia.
  intros -> Hpts. eexists. split; [reflexivity|]. good.
Qed.

Lemma whileLoop_round {S : Type} (fuel : nat) (cond : S -> bool) (body : S -> Gen S)
    (s : S) (draws : nat -> R) (c : nat) :
  whileLoop (Datatypes.S fuel) cond body s draws c
  = if cond s then
      match body s draws c with
      | Some (s', c') => whileLoop fuel cond body s' draws c'
      | None => None
      end
    else Some (s, c).
Proof. simpl. unfold bind, ret. destruct (cond s); reflexivity. Qed.

Lemma gyroid_loop (n : nat) :
  forall (c : nat) (pts : list num) (count fuel : nat),
    goodBuffer pts ->
    (PARTICLE_COUNT <= count + acceptedAmong rnd c n)%nat ->
    (n < fuel)%nat ->
    exists (pts' : list num) (count' c' : nat),
      whileLoop fuel gyroidCondition gyroidSample (pts, count) rnd c
      = Some ((pts', count'), c')
      /\ goodBuffer pts'.
Proof.
  induction n as [|n IH]; intros c pts count fuel Hpts Hacc Hfuel;
    (destruct fuel as [|fuel]; [lia|]); rewrite whileLoop_round;
    unfold gyroidCondition at 1; destruct (count <? PARTICLE_COUNT)%nat eqn:Ec.
  - apply Nat.ltb_lt in Ec. simpl in Hacc. lia.
  - exists pts, count, c. split; [reflexivity | exact Hpts].
  - simpl acceptedAmong in Hacc.
    destruct (gyroidAccepts rnd c) eqn:Ea.
    + destruct (gyroidSample_accept pts count c Ea Hpts) as (pts1 & -> & Hpts1).
      apply IH; [exact Hpts1 | lia | lia].
    + rewrite (gyroidSample_reject pts count c Ea).
      apply IH; [exact Hpts | lia | lia].
  - exists pts, count, c. split; [reflexivity | exact Hpts].
Qed.

(** With draws that feed it, [generateGyroid] returns once it is given
    enough rounds. *)
Lemma generateGyroid_good (c : nat) :
  gyroidFed rnd ->
  exists fuel0 : nat, forall fuel : nat, (fuel0 <= fuel)%nat ->
    exists (buf : list num) (c' : nat),
      generateGyroid fuel rnd c = Some (buf, c') /\ goodBuffer buf.
Proof.
  intros Hfed. destruct (Hfed c) as [n Hn].
  exists (S n). intros fuel Hfuel.
  destruct (gyroid_loop n c (Float32Array (PARTICLE_COUNT * 3)) 0 fuel)
    as (pts & count & c' & E & Hpts); [good | simpl; lia | lia |].
  exists pts, c'. split; [|exact Hpts].
  unfold generateGyroid, bind. cbv beta zeta.
  change (fun '(_, count) => (count <? PARTICLE_COUNT)%nat) with gyroidCondition.
  rewrite E. reflexivity.
Qed.

(** A round of the loop, whatever the draws: three draws taken, and one more
    point when they pass the test. *)
Lemma gyroidSample_round (pts : list num) (count c : nat) :
  goodBuffer pts ->
  exists pts' : list num,
    gyroidSample (pts, count) rnd c
    = Some ((pts', (count + if gyroidAccepts rnd c then 1 else 0)%nat), (c + 3)%nat)
    /\ goodBuffer pts'.
Proof.
  intros Hpts. destruct (gyroidAccepts rnd c) eqn:Ea.
  - destruct (gyroidSample_accept pts count c Ea Hpts) as (pts1 & E & Hpts1).
    exists pts1. rewrite E, Nat.add_1_r. now split.
  - exists pts. rewrite (gyroidSample_reject pts count c Ea), Nat.add_0_r. now split.
Qed.

(** When the loop returns, the draws it read held the samples it needed. *)
Lemma gyroid_loop_returned (fuel : nat) :
  forall (c : nat) (pts : list num) (count : nat)
         (pts' : list num) (count' c' : nat),
    goodBuffer pts ->
    whileLoop fuel gyroidCondition gyroidSample (pts, count) rnd c
    = Some ((pts', count'), c') ->
    goodBuffer pts'
    /\ exists n : nat, (PARTICLE_COUNT <= count + acceptedAmong rnd c n)%nat.
Proof.
  induction fuel as [|fuel IH]; intros c pts count pts' count' c' Hpts E;
    [discriminate E|].
  rewrite whileLoop_round in E. unfold gyroidCondition at 1 in E.
  destruct (count <? PARTICLE_COUNT)%nat eqn:Ec.
  - destruct (gyroidSample_round pts count c Hpts) as (pts1 & E1 & Hpts1).
    rewrite E1 in E.
    destruct (IH _ _ _ _ _ _ Hpts1 E) as (Hgood & n & Hn).
    split; [exact Hgood|]. exists (S n). simpl acceptedAmong. lia.
  - injection E as <- <- <-. split; [exact Hpts|].
    apply Nat.ltb_ge in Ec. exists 0%nat. simpl. lia.
Qed.

(** [generateGyroid] returns when the draws it reads, three at a time from
    where it starts, come to hold [PARTICLE_COUNT] samples that pass its
    test ... *)
Lemma generateGyroid_fed_at (c : nat) :
  (exists n : nat, (PARTICLE_COUNT <= acceptedAmong rnd c n)%nat) ->
  exists fuel0 : nat, forall fuel : nat, (fuel0 <= fuel)%nat ->
    exists (buf : list num) (c' : nat),
      generateGyroid fuel rnd c = Some (buf, c') /\ goodBuffer buf.
Proof.
  intros [n Hn].
  exists (S n). intros fuel Hfuel.
  destruct (gyroid_loop n c (Float32Array (PARTICLE_COUNT * 3)) 0 fuel)
    as (pts & count & c' & E & Hpts); [good | simpl; lia | lia |].
  exists pts, c'. split; [|exact Hpts].
  unfold generateGyroid, bind. cbv beta zeta.
  change (fun '(_, count) => (count <? PARTICLE_COUNT)%nat) with gyroidCondition.
  rewrite E. reflexivity.
Qed.

(** ... and only then, and what it returns is a good buffer. *)
Lemma generateGyroid_returned (fuel c : nat) (buf : list num) (c' : nat) :
  generateGyroid fuel rnd c = Some (buf, c') ->
  goodBuffer buf
  /\ exists n : nat, (PARTICLE_COUNT <= acceptedAmong rnd c n)%nat.
Proof.
  unfold generateGyroid, bind. cbv beta zeta.
  change (fun '(_, count) => (count <? PARTICLE_COUNT)%nat) with gyroidCondition.
  intros E.
  destruct (whileLoop fuel gyroidCondition gyroidSample
              (Float32Array (PARTICLE_COUNT * 3), 0%nat) rnd c)
    as [[[pts count] c1]|] eqn:El; [|discriminate E].
  injection E as <- <-.
  apply (gyroid_loop_returned fuel c (Float32Array (PARTICLE_COUNT * 3)) 0%nat
           pts count c1); [good | exact El].
Qed.

Lemma generateGyroid_starved (c : nat) :
  (forall n : nat, (acceptedAmong rnd c n < PARTICLE_COUNT)%nat) ->
  neverReturns generateGyroid rnd c.
Proof.
  intros Hnone fuel.
  destruct (generateGyroid fuel rnd c) as [[buf c']|] eqn:E; [|reflexivity].
  destruct (generateGyroid_returned fuel c buf c' E) as (_ & n & Hn).
  specialize (Hnone n). lia.
Qed.

End Generators.

(** *** The whole library *)

Ltac in_scene :=
  unfold sceneGeometries; repeat first [left; reflexivity | right].

Ltac one_gen :=
  lazymatch goal with
  | |- returns _ (getMeshPoints _) _ => apply getMeshPoints_good; first [assumption | in_scene]
  | |- returns _ generateDoubleHelix _ => apply generateDoubleHelix_good; assumption
  | |- returns _ generateMechanical _ => apply generateMechanical_good; assumption
  | |- returns _ generateVoxelMonolith _ => apply generateVoxelMonolith_good; assumption
  | |- returns _ generateCyberEye _ => apply generateCyberEye_good; assumption
  | |- returns _ generateCityscape _ => apply generateCityscape_good; assumption
  | |- returns _ generateVortex _ => apply generateVortex_good; assumption
  | |- returns _ generateSacredGeometry _ => apply generateSacredGeometry_good; assumption
  | |- returns _ generateDigitalSingularity _ => apply generateDigitalSingularity_good; assumption
  | |- returns _ generateCrystallineFlower _ => apply generateCrystallineFlower_good; assumption
  | |- returns _ generateInterferenceWave _ => apply generateInterferenceWave_good; assumption
  | |- returns _ generateRibbonSpiral _ => apply generateRibbonSpiral_good; assumption
  | |- returns _ generateGeometricGeode _ => apply generateGeometricGeode_good; assumption
  | |- returns _ generateQuantumEntanglement _ => apply generateQuantumEntanglement_good; assumption
  | |- returns _ generateStarGate _ => apply generateStarGate_good; assumption
  | |- returns _ generateDNALattice _ => apply generateDNALattice_good; assumption
  | |- returns _ generateSupernova _ => apply generateSupernova_good; assumption
  | |- returns _ generateHyperCore _ => apply generateHyperCore_good; assumption
  | |- returns _ generateSpikyUrchin _ => apply generateSpikyUrchin_good; assumption
  | |- returns _ generateDataStream _ => apply generateDataStream_good; assumption
  | |- returns _ generateWarpTunnel _ => apply generateWarpTunnel_good; assumption
  | |- returns _ generateAuraShield _ => apply generateAuraShield_good; assumption
  | |- returns _ generateCyberDisc _ => apply generateCyberDisc_good; assumption
  | |- returns _ generateMobiusStrip _ => apply generateMobiusStrip_good; assumption
  | |- returns _ generateVoronoiShell _ => apply generateVoronoiShell_good; assumption
  | |- returns _ generateBinaryPillar _ => apply generateBinaryPillar_good; assumption
  | |- returns _ generateMagneticField _ => apply generateMagneticField_good; assumption
  | |- returns _ generateHelixSphere _ => apply generateHelixSphere_good; assumption
  | |- returns _ generatePulsarCore _ => apply generatePulsarCore_good; assumption
  | |- returns _ generateExplodedCube _ => apply generateExplodedCube_good; assumption
  | |- returns _ generateCloverKnot _ => apply generateCloverKnot_good; assumption
  | |- returns _ generateKleinBottle _ => apply generateKleinBottle_good; assumption
  | |- returns _ generateHyperboloid _ => apply generateHyperboloid_good; assumption
  | |- returns _ generateGalacticSpiral _ => apply generateGalacticSpiral_good; assumption
  | |- returns _ generateCalyx _ => apply generateCalyx_good; assumption
  | |- returns _ generateNautilusShell _ => apply generateNautilusShell_good; assumption
  | |- returns _ generateRibbonKnot _ => apply generateRibbonKnot_good; assumption
  | |- returns _ generateDataFountain _ => apply generateDataFountain_good; assumption
  | |- returns _ generateCrystalline _ => apply generateCrystalline_good; assumption
  | |- returns _ generateOrbitingRings _ => apply generateOrbitingRings_good; assumption
  | |- returns _ generateMolecule _ => apply generateMolecule_good; assumption
  | |- returns _ generateFloatingIslands _ => apply generateFloatingIslands_good; assumption
  | |- returns _ generateNeuralNetwork _ => apply generateNeuralNetwork_good; assumption
  | |- returns _ generateDigitalWeb _ => apply generateDigitalWeb_good; assumption
  | |- returns _ generateTesseract _ => apply generateTesseract_good; assumption
  | |- returns _ generatePyramidFractal _ => apply generatePyramidFractal_good; assumption
  | |- returns _ generateFractalLattice _ => apply generateFractalLattice_good; assumption
  | |- returns _ generateSierpinskiCube _ => apply generateSierpinskiCube_good; assumption
  | |- returns _ generateFractalTree _ => apply generateFractalTree_good; assumption
  | |- returns _ generateLORDx _ => apply generateLORDx_good; assumption
  end.

Section WholeLibrary.

Context {three : Three} {threeFinite : ThreeFinite three}.
Variable rnd : nat -> R.
Hypothesis rnd_unit : unitStream rnd.

Lemma boundedGenerators_good :
  Forall (fun m => returns rnd m goodBuffer) (boundedGenerators ++ [textShape]).
Proof.
  unfold boundedGenerators, gyroidSlot, shapeGenerators, textShape.
  cbn [firstn skipn app].
  repeat (constructor; [one_gen|]). constructor.
Qed.

Lemma sequence_returns {A : Type} (ms : list (Gen A)) (P : A -> Prop) :
  Forall (fun m => returns rnd m P) ms ->
  returns rnd (sequence ms) (fun l => length l = length ms /\ Forall P l).
Proof.
  induction ms as [|m ms IH]; intros H; simpl.
  - apply returns_ret. auto.
  - inversion H; subst.
    eapply returns_bind; [eassumption|]. intros a Ha.
    eapply returns_bind; [apply IH; assumption|]. intros l [Hl HP].
    apply returns_ret. simpl. auto.
Qed.

Lemma sequence_around {A : Type} (before after : list (Gen A)) (m : Gen A) :
  forall (c : nat) (l1 : list A) (c1 : nat) (a : A) (c2 : nat) (l2 : list A) (c3 : nat),
    sequence before rnd c = Some (l1, c1) ->
    m rnd c1 = Some (a, c2) ->
    sequence after rnd c2 = Some (l2, c3) ->
    sequence (before ++ m :: after) rnd c = Some (l1 ++ a :: l2, c3).
Proof.
  induction before as [|b before IH]; intros c l1 c1 a c2 l2 c3 H1 Hm H2.
  - simpl in H1. injection H1 as <- <-.
    simpl. unfold bind, ret. rewrite Hm, H2. reflexivity.
  - simpl in H1 |- *. unfold bind, ret in H1 |- *.
    destruct (b rnd c) as [[x cx]|]; [|discriminate H1].
    destruct (sequence before rnd cx) as [[xs cxs]|] eqn:E; [|discriminate H1].
    injection H1 as <- <-.
    rewrite (IH cx xs cxs a c2 l2 c3 E Hm H2). reflexivity.
Qed.

Lemma shapeGenerators_split (fuel : nat) :
  shapeGenerators fuel
  = firstn gyroidSlot (shapeGenerators 0)
    ++ generateGyroid fuel :: skipn (S gyroidSlot) (shapeGenerators 0).
Proof. reflexivity. Qed.

(** With draws that feed the gyroid, the library and the glyph shape are
    built, once the gyroid is given enough rounds. *)
Lemma shapes_good (c : nat) :
  gyroidFed rnd ->
  exists fuel0 : nat, forall fuel : nat, (fuel0 <= fuel)%nat ->
    exists (lib : list (list num)) (c1 : nat) (text : list num) (c2 : nat),
      shapes fuel rnd c = Some (lib, c1)
      /\ textShape rnd c1 = Some (text, c2)
      /\ length lib = 62%nat
      /\ Forall goodBuffer lib
      /\ goodBuffer text.
Proof.
  intros Hfed.
  pose proof boundedGenerators_good as Hall.
  apply Forall_app in Hall. destruct Hall as [Hbounded Htext].
  unfold boundedGenerators in Hbounded.
  apply Forall_app in Hbounded. destruct Hbounded as [Hbefore Hafter].
  destruct (sequence_returns _ _ Hbefore c) as (l1 & c1 & E1 & Hl1 & Hg1).
  destruct (generateGyroid_good rnd c1 Hfed) as [fuel0 Hgyroid].
  exists fuel0. intros fuel Hfuel.
  destruct (Hgyroid fuel Hfuel) as (buf & c2 & E2 & Hbuf).
  destruct (sequence_returns _ _ Hafter c2) as (l2 & c3 & E3 & Hl2 & Hg2).
  inversion Htext as [|? ? Ht _]; subst.
  destruct (Ht c3) as (text & c4 & E4 & Htxt).
  exists (l1 ++ buf :: l2), c3, text, c4.
  split.
  { unfold shapes. rewrite shapeGenerators_split.
    now apply (sequence_around _ _ _ c l1 c1 buf c2 l2 c3). }
  split; [exact E4|]. split.
  { rewrite length_app. cbn [length]. rewrite Hl1, Hl2. reflexivity. }
  split; [|exact Htxt].
  apply Forall_app. split; [exact Hg1 | constructor; assumption].
Qed.

Lemma sequence_stuck_at {A : Type} (before after : list (Gen A)) (m : Gen A) :
  forall (c : nat) (l1 : list A) (c1 : nat),
    sequence before rnd c = Some (l1, c1) ->
    m rnd c1 = None ->
    sequence (before ++ m :: after) rnd c = None.
Proof.
  induction before as [|b before IH]; intros c l1 c1 H1 Hm.
  - simpl in H1. injection H1 as <- <-.
    simpl. unfold bind. now rewrite Hm.
  - simpl in H1 |- *. unfold bind, ret in H1 |- *.
    destruct (b rnd c) as [[x cx]|]; [|discriminate H1].
    destruct (sequence before rnd cx) as [[xs cxs]|] eqn:E; [|discriminate H1].
    injection H1 as <- <-.
    now rewrite (IH cx xs cxs E Hm).
Qed.

(** The library is built exactly when the gyroid, where it stands, is fed:
    the generators before it return and leave it a place [c1] in the draws;
    if the draws from [c1] on come to hold enough samples the library and
    the glyph shape are built, and if they never do the library is not. *)
Lemma shapes_at (c : nat) :
  exists (before : list (list num)) (c1 : nat),
    sequence (firstn gyroidSlot (shapeGenerators 0)) rnd c = Some (before, c1)
    /\ ((exists n : nat, (PARTICLE_COUNT <= acceptedAmong rnd c1 n)%nat) ->
        exists fuel0 : nat, forall fuel : nat, (fuel0 <= fuel)%nat ->
          exists (lib : list (list num)) (c2 : nat) (text : list num) (c3 : nat),
            shapes fuel rnd c = Some (lib, c2)
            /\ textShape rnd c2 = Some (text, c3)
            /\ length lib = 62%nat
            /\ Forall goodBuffer lib
            /\ goodBuffer text)
    /\ ((forall n : nat, (acceptedAmong rnd c1 n < PARTICLE_COUNT)%nat) ->
        neverReturns shapes rnd c).
Proof.
  pose proof boundedGenerators_good as Hall.
  apply Forall_app in Hall. destruct Hall as [Hbounded Htext].
  unfold boundedGenerators in Hbounded.
  apply Forall_app in Hbounded. destruct Hbounded as [Hbefore Hafter].
  destruct (sequence_returns _ _ Hbefore c) as (l1 & c1 & E1 & Hl1 & Hg1).
  exists l1, c1. split; [exact E1|]. split.
  - intros Hfed.
    destruct (generateGyroid_fed_at rnd c1 Hfed) as [fuel0 Hgyroid].
    exists fuel0. intros fuel Hfuel.
    destruct (Hgyroid fuel Hfuel) as (buf & c2 & E2 & Hbuf).
    destruct (sequence_returns _ _ Hafter c2) as (l2 & c3 & E3 & Hl2 & Hg2).
    inversion Htext as [|? ? Ht _]; subst.
    destruct (Ht c3) as (text & c4 & E4 & Htxt).
    exists (l1 ++ buf :: l2), c3, text, c4.
    split.
    { unfold shapes. rewrite shapeGenerators_split.
      now apply (sequence_around _ _ _ c l1 c1 buf c2 l2 c3). }
    split; [exact E4|]. split.
    { rewrite length_app. cbn [length]. rewrite Hl1, Hl2. reflexivity. }
    split; [|exact Htxt].
    apply Forall_app. split; [exact Hg1 | constructor; assumption].
  - intros Hnone fuel. unfold shapes. rewrite shapeGenerators_split.
    apply (sequence_stuck_at _ _ _ c l1 c1 E1).
    now apply generateGyroid_starved.
Qed.

End WholeLibrary.

Lemma sequence_stuck {A : Type} (draws : nat -> R) (before after : list (Gen A))
    (m : Gen A) :
  (forall c, m draws c = None) ->
  forall c, sequence (before ++ m :: after) draws c = None.
Proof.
  intros Hm. induction before as [|b before IH]; intros c; simpl; unfold bind.
  - now rewrite Hm.
  - destruct (b draws c) as [[x cx]|]; [|reflexivity].
    now rewrite IH.
Qed.

(** *** Draws that starve the gyroid *)

Import Demo.

Lemma sin_cos_PI4 : sin (PI / 4) * cos (PI / 4) = 1 / 2.
Proof.
  rewrite sin_PI4, cos_PI4.
  assert (Hs : sqrt 2 * sqrt 2 = 2) by (apply sqrt_sqrt; lra).
  assert (Hn : sqrt 2 <> 0) by (intros E; rewrite E in Hs; lra).
  field_simplify; [|exact Hn]. rewrite <- Hs at 2.
  simpl. rewrite Rmult_1_r. field. exact Hn.
Qed.

Lemma stuckDraws_rejected (c : nat) : gyroidAccepts stuckDraws c = false.
Proof.
  unfold gyroidAccepts, stuckDraws, gyroidValue. cbv beta zeta.
  cbn [sub neg add mul Math.sin Math.cos Math.abs Math.PI ltb].
  match goal with
  | |- context [sin ?a] => replace a with (PI / 4) by lra
  end.
  rewrite sin_cos_PI4.
  destruct (Rlt_dec _ _) as [E|_]; [|reflexivity].
  rewrite Rabs_pos_eq in E; lra.
Qed.

Lemma stuck_loop (fuel : nat) :
  forall (pts : list num) (c : nat),
    whileLoop fuel gyroidCondition gyroidSample (pts, 0%nat) stuckDraws c = None.
Proof.
  induction fuel as [|fuel IH]; intros pts c; [reflexivity|].
  rewrite whileLoop_round.
  change (gyroidCondition (pts, 0%nat)) with true. cbv iota.
  rewrite (gyroidSample_reject stuckDraws pts 0 c (stuckDraws_rejected c)).
  apply IH.
Qed.

Lemma stuckDraws_unit : unitStream stuckDraws.
Proof. intros n. unfold stuckDraws. lra. Qed.

Lemma stuck_gyroid (c : nat) : neverReturns generateGyroid stuckDraws c.
Proof.
  intros fuel. unfold generateGyroid, bind. cbv beta zeta.
  change (fun '(_, count) => (count <? PARTICLE_COUNT)%nat) with gyroidCondition.
  now rewrite stuck_loop.
Qed.

(** *** Draws that feed it, and the stand-in for three.js *)

Lemma evenDraws_unit : unitStream evenDraws.
Proof. intros n. unfold evenDraws. lra. Qed.

Lemma evenDraws_accepted (c : nat) : gyroidAccepts evenDraws c = true.
Proof.
  unfold gyroidAccepts, evenDraws, gyroidValue. cbv beta zeta.
  cbn [sub neg add mul Math.sin Math.cos Math.abs Math.PI ltb].
  match goal with
  | |- context [sin ?a] => replace a with 0 by lra
  end.
  rewrite sin_0, cos_0.
  destruct (Rlt_dec _ _) as [_|E]; [reflexivity|].
  exfalso. apply E. rewrite Rabs_pos_eq; lra.
Qed.

Lemma evenDraws_among (n : nat) : forall c, acceptedAmong evenDraws c n = n.
Proof.
  induction n as [|n IH]; intros c; simpl; [reflexivity|].
  now rewrite evenDraws_accepted, IH.
Qed.

Lemma evenDraws_fed : gyroidFed evenDraws.
Proof. intros c. exists PARTICLE_COUNT. now rewrite evenDraws_among. Qed.

Lemma standIn_finite : ThreeFinite standIn.
Proof.
  constructor.
  - intros g _. exists 1%nat. split; [lia|]. split; [reflexivity|].
    repeat constructor; apply fin_Fin.
  - intros v a b c Hv _ _ _. exact Hv.
  - intros v axis angle Hv _ _. exact Hv.
  - intros v Hv. exact Hv.
  - intros v w (Hx & Hy & Hz) (Hx' & Hy' & Hz').
    unfold addVectors, standIn. apply finite_mkVector3; now apply fin_add.
  - intros v s (Hx & Hy & Hz) Hs.
    unfold multiplyScalar, standIn. apply finite_mkVector3; now apply fin_mul.
  - intros x y t Hx Hy Ht. unfold lerp, standIn.
    apply fin_add; apply fin_mul; auto. apply fin_sub; [apply fin_Fin | exact Ht].
Qed.

(** ** The claims on the library *)

(** C8, amended.  With three.js giving finite vertices and vectors and
    [Math.random()] numbers of [0, 1), every generator of the library but
    [generateGyroid], and the glyph generator, returns on every sequence of
    draws a buffer of N x 3 = 12000 finite numbers.  [generateGyroid] stands
    at one place of the library.  It returns, given rounds enough, exactly
    when the draws it reads, three at a time from where it starts, come to
    hold N samples that pass its test, and what it returns is then such a
    buffer; on draws that never hold N passing samples there, it does not
    return however many rounds it is given.  So for the library: the
    generators before the gyroid leave it a place in the draws; if the draws
    from there on come to hold N passing samples the 62 shapes and the glyph
    shape are built, and if they never do the library is not built. *)
Theorem C8_generators_good :
  forall three : Three, ThreeFinite three ->
  forall rnd : nat -> R, unitStream rnd ->
    Forall (fun m => returns rnd m goodBuffer) (boundedGenerators ++ [textShape])
    /\ (forall fuel : nat,
          shapeGenerators fuel
          = firstn gyroidSlot boundedGenerators
            ++ generateGyroid fuel :: skipn gyroidSlot boundedGenerators)
    /\ (forall c : nat,
          ((exists n : nat, (PARTICLE_COUNT <= acceptedAmong rnd c n)%nat) <->
           (exists (fuel : nat) (buf : list num) (c' : nat),
              generateGyroid fuel rnd c = Some (buf, c')))
          /\ ((exists n : nat, (PARTICLE_COUNT <= acceptedAmong rnd c n)%nat) ->
              exists fuel0 : nat, forall fuel : nat, (fuel0 <= fuel)%nat ->
                exists (buf : list num) (c' : nat),
                  generateGyroid fuel rnd c = Some (buf, c') /\ goodBuffer buf)
          /\ (forall (fuel : nat) (buf : list num) (c' : nat),
                generateGyroid fuel rnd c = Some (buf, c') -> goodBuffer buf)
          /\ ((forall n : nat, (acceptedAmong rnd c n < PARTICLE_COUNT)%nat) ->
              neverReturns generateGyroid rnd c))
    /\ (forall c : nat,
          exists (before : list (list num)) (c1 : nat),
            sequence (firstn gyroidSlot boundedGenerators) rnd c = Some (before, c1)
            /\ ((exists n : nat, (PARTICLE_COUNT <= acceptedAmong rnd c1 n)%nat) ->
                exists fuel0 : nat, forall fuel : nat, (fuel0 <= fuel)%nat ->
                  exists (lib : list (list num)) (c2 : nat)
                         (text : list num) (c3 : nat),
                    shapes fuel rnd c = Some (lib, c2)
                    /\ textShape rnd c2 = Some (text, c3)
                    /\ length lib = 62%nat
                    /\ Forall goodBuffer lib
                    /\ goodBuffer text)
            /\ ((forall n : nat, (acceptedAmong rnd c1 n < PARTICLE_COUNT)%nat) ->
                neverReturns shapes rnd c)).
Proof.
  intros three threeFinite rnd Hunit.
  split; [now apply boundedGenerators_good|].
  split; [intros fuel; reflexivity|].
  split.
  - intros c. split; [split|split; [|split]].
    + intros Hfed.
      destruct (generateGyroid_fed_at rnd c Hfed) as [fuel0 H].
      destruct (H fuel0 (Nat.le_refl fuel0)) as (buf & c' & E & _).
      now exists fuel0, buf, c'.
    + intros (fuel & buf & c' & E).
      exact (proj2 (generateGyroid_returned rnd fuel c buf c' E)).
    + now apply generateGyroid_fed_at.
    + intros fuel buf c' E.
      exact (proj1 (generateGyroid_returned rnd fuel c buf c' E)).
    + now apply generateGyroid_starved.
  - intros c. now apply shapes_at.
Qed.

(** C8 as stated fails: on the draws that are always 0.625, which are
    numbers of [0, 1), [generateGyroid] rejects every sample and does not
    return, however many rounds it is given; nor is the library built. *)
Lemma C8_gyroid_never_returns :
  unitStream stuckDraws
  /\ gyroidAccepts stuckDraws 0%nat = false
  /\ neverReturns generateGyroid stuckDraws 0%nat
  /\ neverReturns (@shapes standIn) stuckDraws 0%nat.
Proof.
  split; [exact stuckDraws_unit|].
  split; [apply stuckDraws_rejected|].
  split; [apply stuck_gyroid|].
  intros fuel. unfold shapes. rewrite shapeGenerators_split.
  apply sequence_stuck. intros c. apply stuck_gyroid.
Qed.

Lemma stuckDraws_among (n : nat) : forall c, acceptedAmong stuckDraws c n = 0%nat.
Proof.
  induction n as [|n IH]; intros c; simpl; [reflexivity|].
  now rewrite stuckDraws_rejected, IH.
Qed.

(** C8, amended, with the stand-in for three.js: on the draws that are
    always 0.5 the gyroid is fed where it starts and returns a good buffer,
    and the library is built; on the draws that are always 0.625 no sample
    ever passes and the gyroid does not return. *)
Lemma C8_generators_good_witness :
  (ThreeFinite standIn
   /\ unitStream evenDraws
   /\ (exists n : nat, (PARTICLE_COUNT <= acceptedAmong evenDraws 0 n)%nat)
   /\ (exists fuel0 : nat, forall fuel : nat, (fuel0 <= fuel)%nat ->
         exists (buf : list num) (c' : nat),
           generateGyroid fuel evenDraws 0%nat = Some (buf, c') /\ goodBuffer buf)
   /\ exists (fuel : nat) (lib : list (list num)) (c2 : nat),
        @shapes standIn fuel evenDraws 0%nat = Some (lib, c2)
        /\ length lib = 62%nat /\ Forall goodBuffer lib)
  /\ (unitStream stuckDraws
      /\ (forall n : nat, (acceptedAmong stuckDraws 0 n < PARTICLE_COUNT)%nat)
      /\ neverReturns generateGyroid stuckDraws 0%nat).
Proof.
  assert (Hfed : forall c : nat,
             exists n : nat, (PARTICLE_COUNT <= acceptedAmong evenDraws c n)%nat).
  { intros c. exists PARTICLE_COUNT. now rewrite evenDraws_among. }
  assert (Hnone : forall n : nat, (acceptedAmong stuckDraws 0 n < PARTICLE_COUNT)%nat).
  { intros n. rewrite stuckDraws_among. unfold PARTICLE_COUNT. lia. }
  destruct (C8_generators_good standIn standIn_finite evenDraws evenDraws_unit)
    as (_ & _ & Hgyroid & Hlib).
  destruct (C8_generators_good standIn standIn_finite stuckDraws stuckDraws_unit)
    as (_ & _ & Hstuck & _).
  split.
  - split; [exact standIn_finite|]. split; [exact evenDraws_unit|].
    split; [exact (Hfed 0%nat)|].
    split; [exact (proj1 (proj2 (Hgyroid 0%nat)) (Hfed 0%nat))|].
    destruct (Hlib 0%nat) as (before & c1 & _ & Hbuilt & _).
    destruct (Hbuilt (Hfed c1)) as [fuel0 H].
    destruct (H fuel0 (Nat.le_refl fuel0)) as (lib & c2 & _ & _ & E & _ & Hlen & Hgood & _).
    exists fuel0, lib, c2.
    split; [exact E|]. split; [exact Hlen | exact Hgood].
  - split; [exact stuckDraws_unit|]. split; [exact Hnone|].
    exact (proj2 (proj2 (proj2 (Hstuck 0%nat))) Hnone).
Defined.

(** ** The speeds of the particles *)

(** X5.  The per-particle speeds: N numbers, each in [0.07, 0.15), so that
    the factor of locked-shape mode and the factor of overlay mode, 1.5
    times it, both lie in (0, 1). *)
Theorem X5_lerpSpeeds_range :
  forall rnd : nat -> R, unitStream rnd ->
    returns rnd lerpSpeeds
      (fun speeds =>
         length speeds = PARTICLE_COUNT
         /\ Forall (fun v => exists s : R,
                      v = Fin s /\ 0.07 <= s < 0.15 /\ 0 < s * 1.5 < 1) speeds).
Proof.
  intros rnd Hunit. unfold lerpSpeeds.
  apply returns_arrayFrom.
  eapply returns_bind; [apply returns_random; exact Hunit|].
  intros v (r & -> & Hr). apply returns_ret.
  exists (0.07 + r * 0.08). split; [reflexivity | lra].
Qed.

Lemma X5_lerpSpeeds_range_witness :
  unitStream evenDraws
  /\ exists (speeds : list num) (c : nat),
       lerpSpeeds evenDraws 0%nat = Some (speeds, c)
       /\ length speeds = PARTICLE_COUNT.
Proof.
  split; [exact evenDraws_unit|].
  destruct (X5_lerpSpeeds_range evenDraws evenDraws_unit 0%nat)
    as (speeds & c & E & Hl & _).
  exists speeds, c. split; [exact E | exact Hl].
Defined.

(** X6.  The loop that grows the fractal tree ends: it leaves the stack
    empty or a hundred nodes, all finite, within the rounds the model allows
    it, whatever is drawn. *)
Theorem X6_tree_loop_ends :
  forall three : Three, ThreeFinite three ->
  forall rnd : nat -> R, unitStream rnd ->
    returns rnd
      (whileLoop treeRounds treeCondition growBranch
         ([mkVector3 (Fin 0) (Fin (- 0.8)) (Fin 0)],
          [mkBranch (mkVector3 (Fin 0) (Fin (- 0.8)) (Fin 0))
             (mkVector3 (Fin 0) (Fin 1) (Fin 0)) (Fin 0.4) 0]))
      (fun st => treeInvariant st /\ treeCondition st = false).
Proof. intros three threeFinite rnd Hunit. now apply growBranch_loop. Qed.

Lemma X6_tree_loop_ends_witness :
  ThreeFinite standIn /\ unitStream evenDraws
  /\ exists (st : list Vector3 * list Branch) (c : nat),
       @whileLoop _ treeRounds treeCondition (@growBranch standIn)
         ([mkVector3 (Fin 0) (Fin (- 0.8)) (Fin 0)],
          [mkBranch (mkVector3 (Fin 0) (Fin (- 0.8)) (Fin 0))
             (mkVector3 (Fin 0) (Fin 1) (Fin 0)) (Fin 0.4) 0]) evenDraws 0%nat
       = Some (st, c)
       /\ treeCondition st = false.
Proof.
  split; [exact standIn_finite|]. split; [exact evenDraws_unit|].
  destruct (X6_tree_loop_ends standIn standIn_finite evenDraws evenDraws_unit 0%nat)
    as (st & c & E & _ & Hc).
  exists st, c. split; [exact E | exact Hc].
Defined.

(** ** The selector against the library *)

Lemma lookupShape_in_bounds (shapes : list (list R)) (idx : Z) :
  shapes <> [] -> (0 <= idx)%Z ->
  exists target : list R,
    Scene.lookupShape shapes idx = Some target /\ In target shapes.
Proof.
  intros Hne Hidx. unfold Scene.lookupShape.
  destruct shapes as [|s0 rest] eqn:E; [contradiction|]. rewrite <- E.
  assert (Hlen : (0 < Z.of_nat (length shapes))%Z) by (subst; simpl; lia).
  rewrite Z.rem_mod_nonneg by lia.
  pose proof (Z.mod_pos_bound idx (Z.of_nat (length shapes)) Hlen) as Hb.
  destruct (_ <? 0)%Z eqn:En; [apply Z.ltb_lt in En; lia|].
  destruct (nth_error shapes (Z.to_nat (idx mod Z.of_nat (length shapes)))) as [t|] eqn:Et.
  - exists t. split; [reflexivity|]. eapply nth_error_In. exact Et.
  - apply nth_error_None in Et. lia.
Qed.

(** C4.  The selector reduces by 65 and the library holds 62 shapes: the
    63rd open-to-fist transition of a session gives the hand shapeIndex 62,
    which is no index of the library.  The lookup of the engine, which
    reduces by the library's own length, stays in bounds for every index that
    is not negative, and shows shape 0 for index 62. *)
Theorem C4_selector_modulus_exceeds_library :
  (forall (three : Three) (fuel : nat), length (shapeGenerators fuel) = 62%nat)
  /\ App.librarySize = 65%Z
  /\ nth_error (App.transitionLog (Demo.fistCloses 63) App.initialSession) 62
     = Some (App.LeftH, 62%Z)
  /\ (forall (shapes : list (list R)) (idx : Z),
        shapes <> [] -> (0 <= idx)%Z ->
        exists target : list R,
          Scene.lookupShape shapes idx = Some target /\ In target shapes)
  /\ (forall lib : list (list num),
        length lib = 62%nat ->
        Scene.lookupShape (map asReals lib) 62 = nth_error (map asReals lib) 0).
Proof.
  split; [intros three fuel; reflexivity|].
  split; [reflexivity|].
  split; [reflexivity|].
  split; [exact lookupShape_in_bounds|].
  intros lib Hlen. unfold Scene.lookupShape.
  destruct (map asReals lib) as [|s0 rest] eqn:E.
  - apply (f_equal (@length _)) in E. rewrite length_map, Hlen in E. discriminate E.
  - rewrite <- E, length_map, Hlen. reflexivity.
Qed.

(** ** The points of a buffer *)

Lemma get_set_hit (a : list num) :
  forall (i : nat) (v : num), (i < length a)%nat -> get (set a i v) i = v.
Proof.
  unfold get.
  induction a as [|x a IH]; intros [|i] v H; simpl in *; try lia; auto.
  apply IH. lia.
Qed.

Lemma get_set_miss (a : list num) :
  forall (i j : nat) (v : num), i <> j -> get (set a i v) j = get a j.
Proof.
  unfold get.
  induction a as [|x a IH]; intros [|i] [|j] v H; simpl; auto; try lia.
Qed.

Lemma store3_length (pts : list num) (idx : nat) (a b c : num) :
  length (store3 pts idx a b c) = length pts.
Proof. unfold store3. now rewrite !set_keeps_length. Qed.

Lemma pointAt_store3_same (pts : list num) (i : nat) (a b c : num) :
  (i * 3 + 2 < length pts)%nat ->
  pointAt (store3 pts (i * 3) a b c) i = mkVector3 a b c.
Proof.
  intros H. unfold pointAt, store3. f_equal.
  - rewrite !get_set_miss by lia. apply get_set_hit. lia.
  - rewrite get_set_miss by lia. apply get_set_hit.
    rewrite set_keeps_length. lia.
  - apply get_set_hit. rewrite !set_keeps_length. lia.
Qed.

Lemma pointAt_store3_other (pts : list num) (i j : nat) (a b c : num) :
  i <> j -> pointAt (store3 pts (i * 3) a b c) j = pointAt pts j.
Proof.
  intros H. unfold pointAt, store3. now rewrite !get_set_miss by lia.
Qed.

Lemma get_Float32Array (n k : nat) : (k < n)%nat -> get (Float32Array n) k = Fin 0.
Proof.
  unfold get, Float32Array. revert k.
  induction n as [|n IH]; intros [|k] H; simpl; try lia; auto.
  apply IH. lia.
Qed.

Lemma pointAt_Float32Array (i : nat) :
  (i < PARTICLE_COUNT)%nat -> pointAt (Float32Array (PARTICLE_COUNT * 3)) i = origin.
Proof.
  intros H. unfold pointAt, origin. now rewrite !get_Float32Array by lia.
Qed.

(** Storing a point that satisfies [P] keeps a buffer of such points. *)
Lemma everyPoint_store3 (P : Vector3 -> Prop) (pts : list num) (i : nat) (a b c : num) :
  everyPoint P pts -> P (mkVector3 a b c) -> everyPoint P (store3 pts (i * 3) a b c).
Proof.
  intros [Hlen Hall] Hv. split; [now rewrite store3_length|].
  intros j Hj. destruct (Nat.eq_dec i j) as [->|Hne].
  - rewrite pointAt_store3_same by lia. exact Hv.
  - rewrite pointAt_store3_other by exact Hne. now apply Hall.
Qed.

Lemma everyPoint_Float32Array (P : Vector3 -> Prop) :
  P origin -> everyPoint P (Float32Array (PARTICLE_COUNT * 3)).
Proof.
  intros H. split; [apply repeat_length|].
  intros i Hi. now rewrite pointAt_Float32Array.
Qed.

Lemma abs_bounds (x b : R) : Rabs x <= b -> - b <= x <= b.
Proof. unfold Rabs. destruct (Rcase_abs x); lra. Qed.

Lemma div_Fin (a b : R) : b <> 0 -> div (Fin a) (Fin b) = Fin (a / b).
Proof. intros H. unfold div. destruct (Req_dec_T b 0); [contradiction | reflexivity]. Qed.

(** ** The chaos game of [generateSierpinskiCube] *)

Lemma cubeCorners_bounded : Forall (boundedRow 1) cubeCorners.
Proof.
  unfold cubeCorners.
  repeat (constructor;
          [eexists _, _, _; split; [reflexivity|];
           unfold inCube; repeat split;
           unfold Rabs; destruct (Rcase_abs _); lra|]).
  constructor.
Qed.

(** X18.  [generateSierpinskiCube] plays the chaos game inside a cube: the
    running point never leaves the cube of half-width 1/2, so every one of
    the 4000 particles it stores is a point of real coordinates within 0.75
    of the origin on each axis, whatever is drawn. *)
Theorem X18_sierpinski_stays_in_the_cube :
  forall rnd : nat -> R, unitStream rnd ->
    returns rnd generateSierpinskiCube (everyPoint (realPoint (inCube 0.75))).
Proof.
  intros rnd rnd_unit.
  unfold generateSierpinskiCube. cbv beta zeta.
  eapply returns_bind
    with (Q := fun st => everyPoint (realPoint (inCube 0.75)) (fst st)
                         /\ boundedRow 0.5 (snd st)).
  - apply returns_forLoop.
    { cbn [fst snd]. split.
      - apply everyPoint_Float32Array. exists 0, 0, 0. split; [reflexivity|].
        unfold inCube. rewrite Rabs_R0. lra.
      - exists 0, 0, 0. split; [reflexivity|]. unfold inCube. rewrite Rabs_R0. lra. }
    intros i [pts curr] _ [Hpts Hcurr]. cbn [fst snd] in *. cbv beta iota.
    eapply returns_bind; [apply returns_random; exact rnd_unit|]. intros r1 Hr1.
    eapply returns_bind.
    { apply returns_itemAt with (P := boundedRow 1);
        [assumption | lia | reflexivity | apply cubeCorners_bounded]. }
    intros target (tx & ty & tz & -> & Tx & Ty & Tz).
    destruct Hcurr as (cx & cy & cz & -> & Cx & Cy & Cz).
    cbv beta zeta. cbn [set get nth add mul].
    rewrite !div_Fin by lra. cbn [mul].
    apply abs_bounds in Tx, Ty, Tz, Cx, Cy, Cz.
    apply returns_ret. cbn [fst snd]. split.
    + apply everyPoint_store3; [exact Hpts|].
      eexists _, _, _. split; [reflexivity|].
      unfold inCube. repeat split; apply Rabs_le; lra.
    + eexists _, _, _. split; [reflexivity|].
      unfold inCube. repeat split; apply Rabs_le; lra.
  - intros [pts curr] [Hpts _]. now apply returns_ret.
Qed.

Lemma X18_sierpinski_stays_in_the_cube_witness :
  unitStream evenDraws
  /\ exists (pts : list num) (c : nat),
       generateSierpinskiCube evenDraws 0%nat = Some (pts, c)
       /\ realPoint (inCube 0.75) (pointAt pts 0).
Proof.
  split; [exact evenDraws_unit|].
  destruct (X18_sierpinski_stays_in_the_cube evenDraws evenDraws_unit 0%nat)
    as (pts & c & E & _ & H).
  exists pts, c. split; [exact E|]. apply H. unfold PARTICLE_COUNT. lia.
Defined.

(** ** Generators that fill the buffer from the front *)

Lemma filledTo_start (P : nat -> Vector3 -> Prop) :
  filledTo P 0 (Float32Array (PARTICLE_COUNT * 3)).
Proof.
  split; [apply repeat_length|]. split; [intros n Hn; lia|].
  intros n Hn. apply pointAt_Float32Array. lia.
Qed.

Lemma filledTo_store3 (P : nat -> Vector3 -> Prop) (count : nat) (pts : list num)
    (a b c : num) :
  (count < PARTICLE_COUNT)%nat ->
  filledTo P count pts -> P count (mkVector3 a b c) ->
  filledTo P (S count) (store3 pts (count * 3) a b c).
Proof.
  intros Hc (Hlen & Hdone & Hrest) Hv.
  split; [now rewrite store3_length|]. split.
  - intros n Hn. destruct (Nat.eq_dec count n) as [<-|Hne].
    + rewrite pointAt_store3_same by lia. exact Hv.
    + rewrite pointAt_store3_other by exact Hne. apply Hdone. lia.
  - intros n Hn. rewrite pointAt_store3_other by lia. apply Hrest. lia.
Qed.

Lemma lattice_digits (x y z k : nat) :
  (y < 6)%nat -> (z < 6)%nat -> (k < 18)%nat ->
  let n := (x * 648 + y * 108 + z * 18 + k)%nat in
  (n / 648 = x /\ n / 108 mod 6 = y /\ n / 18 mod 6 = z)%nat.
Proof.
  intros Hy Hz Hk n. subst n.
  assert (E1 : ((x * 648 + y * 108 + z * 18 + k) / 648 = x)%nat).
  { symmetry. apply (Nat.div_unique _ 648 x (y * 108 + z * 18 + k)); lia. }
  assert (E2 : ((x * 648 + y * 108 + z * 18 + k) / 108 = x * 6 + y)%nat).
  { symmetry. apply (Nat.div_unique _ 108 (x * 6 + y) (z * 18 + k)); lia. }
  assert (E3 : ((x * 648 + y * 108 + z * 18 + k) / 18 = x * 36 + y * 6 + z)%nat).
  { symmetry. apply (Nat.div_unique _ 18 (x * 36 + y * 6 + z) k); lia. }
  rewrite E1, E2, E3. split; [reflexivity|]. split.
  - symmetry. apply (Nat.mod_unique _ 6 x y); lia.
  - symmetry. apply (Nat.mod_unique _ 6 (x * 6 + y) z); lia.
Qed.

(** X19.  [generateFractalLattice] fills 6 x 6 x 6 x 18 = 3888 of the 4000
    particles: the n-th of them lies within 0.025, on every axis, of the
    lattice node its number gives, 18 particles to a node, and the last 112
    particles are left at the origin.  The guards on the count never fire. *)
Theorem X19_lattice_leaves_particles_at_the_origin :
  forall rnd : nat -> R, unitStream rnd ->
    returns rnd generateFractalLattice
      (filledTo (fun n => realPoint (nearBy 0.025 (latticeNode n))) 3888).
Proof.
  intros rnd rnd_unit.
  set (P := fun n => realPoint (nearBy 0.025 (latticeNode n))).
  unfold generateFractalLattice. cbv beta zeta.
  eapply returns_bind
    with (Q := fun st => snd st = 3888%nat /\ filledTo P (snd st) (fst st)).
  2:{ intros [pts count] [Hc HL]. cbn [fst snd] in *. subst count.
      now apply returns_ret. }
  eapply returns_weaken.
  { apply returns_forLoop_counted
      with (I := fun x st => snd st = (x * 648)%nat /\ filledTo P (snd st) (fst st)).
    { cbn [fst snd]. split; [reflexivity | apply filledTo_start]. }
    intros x st Hx [Hc HL].
    eapply returns_weaken.
    { apply returns_forLoop_counted
        with (I := fun y st => snd st = (x * 648 + y * 108)%nat
                               /\ filledTo P (snd st) (fst st)).
      { split; [lia | exact HL]. }
      intros y st1 Hy [Hc1 HL1].
      eapply returns_weaken.
      { apply returns_forLoop_counted
          with (I := fun z st => snd st = (x * 648 + y * 108 + z * 18)%nat
                                 /\ filledTo P (snd st) (fst st)).
        { split; [lia | exact HL1]. }
        intros z st2 Hz [Hc2 HL2].
        eapply returns_weaken.
        { apply returns_forLoop_counted
            with (I := fun k st => snd st = (x * 648 + y * 108 + z * 18 + k)%nat
                                   /\ filledTo P (snd st) (fst st)).
          { split; [lia | exact HL2]. }
          intros k [pts count] Hk [Hc3 HL3]. cbn [fst snd] in *. cbv beta iota.
          assert (Hlt : (count < PARTICLE_COUNT)%nat) by (unfold PARTICLE_COUNT; lia).
          destruct (count <? PARTICLE_COUNT)%nat eqn:E;
            [|apply Nat.ltb_ge in E; lia].
          eapply returns_bind; [apply returns_random; exact rnd_unit|].
          intros r1 (a1 & -> & Ha1). cbv beta zeta.
          eapply returns_bind; [apply returns_random; exact rnd_unit|].
          intros r2 (a2 & -> & Ha2). cbv beta zeta.
          eapply returns_bind; [apply returns_random; exact rnd_unit|].
          intros r3 (a3 & -> & Ha3). cbv beta zeta.
          apply returns_ret. cbn [fst snd]. split; [lia|].
          apply (filledTo_store3 P count pts); [exact Hlt | exact HL3|].
          unfold P. cbn [sub add neg mul ofNat].
          eexists _, _, _. split; [reflexivity|].
          destruct (lattice_digits x y z k Hy Hz Hk) as (D1 & D2 & D3).
          unfold nearBy, latticeNode. rewrite Hc3, D1, D2, D3. cbn [fst snd].
          repeat split; apply Rabs_le; lra. }
        intros st3 [Hc3 HL3]. split; [lia | exact HL3]. }
      intros st2 [Hc2 HL2]. split; [lia | exact HL2]. }
    intros st1 [Hc1 HL1]. split; [lia | exact HL1]. }
  intros st [Hc HL]. split; [lia | exact HL].
Qed.

Lemma X19_lattice_leaves_particles_at_the_origin_witness :
  unitStream evenDraws
  /\ exists (pts : list num) (c : nat),
       generateFractalLattice evenDraws 0%nat = Some (pts, c)
       /\ pointAt pts 3999 = origin.
Proof.
  split; [exact evenDraws_unit|].
  destruct (X19_lattice_leaves_particles_at_the_origin evenDraws evenDraws_unit 0%nat)
    as (pts & c & E & _ & _ & H).
  exists pts, c. split; [exact E|]. apply H. unfold PARTICLE_COUNT. lia.
Defined.

Lemma circle_point (t rad : R) :
  (cos t * rad) * (cos t * rad) + (sin t * rad) * (sin t * rad) = rad * rad.
Proof.
  pose proof (sin2_cos2 t) as H. unfold Rsqr in H.
  replace ((cos t * rad) * (cos t * rad) + (sin t * rad) * (sin t * rad))
    with ((sin t * sin t + cos t * cos t) * (rad * rad)) by ring.
  rewrite H. ring.
Qed.

(** X20.  Generators that split the 4000 particles in three parts of
    floor(4000 / 3) = 1333 leave the last particle at the origin.
    [generateMechanical] puts particle g * 1333 + p on gear g, a circle of
    radius 0.4 + 0.1 g (0.05 more on a cog) in the plane z = 0.2 (g - 1),
    and never stores particle 3999; nor does [generateCrystalline]. *)
Theorem X20_thirds_leave_one_particle_out :
  (forall rnd : nat -> R,
      returns rnd generateMechanical
        (filledTo (fun n => realPoint (onGear (n / 1333))) 3999))
  /\ (forall (three : Three) (rnd : nat -> R),
        returns rnd generateCrystalline
          (fun pts => length pts = (PARTICLE_COUNT * 3)%nat
                      /\ pointAt pts 3999 = origin)).
Proof.
  split.
  - intros rnd.
    set (P := fun n => realPoint (onGear (n / 1333))).
    unfold generateMechanical. cbv beta zeta.
    change (PARTICLE_COUNT / 3)%nat with 1333%nat.
    eapply returns_weaken.
    { apply returns_forLoop_counted
        with (I := fun g pts => filledTo P (g * 1333) pts).
      { apply filledTo_start. }
      intros g pts Hg HL.
      eapply returns_weaken.
      { apply returns_forLoop_counted
          with (I := fun p pts => filledTo P (g * 1333 + p) pts).
        { now rewrite Nat.add_0_r. }
        intros p pts1 Hp HL1. apply returns_ret.
        replace (g * 1333 + S p)%nat with (S (g * 1333 + p)) by lia.
        apply filledTo_store3; [unfold PARTICLE_COUNT; lia | exact HL1|].
        unfold P.
        replace ((g * 1333 + p) / 1333)%nat with g
          by (apply (Nat.div_unique _ 1333 g p); lia).
        assert (Hper : INR 1333 <> 0) by (apply not_0_INR; lia).
        unfold ofNat. rewrite div_Fin by exact Hper.
        cbn [mul add sub neg Math.PI Math.sin Math.cos gtb ltb].
        destruct (Rlt_dec 0 _); cbn [add mul];
          (eexists _, _, _; split; [reflexivity|]; unfold onGear;
           split; [lra|]).
        + right. rewrite circle_point. lra.
        + left. rewrite circle_point. lra. }
      intros pts1 HL1. cbv beta in HL1.
      now replace (g * 1333 + 1333)%nat with (S g * 1333)%nat in HL1 by lia. }
    intros pts HL. exact HL.
  - intros three rnd.
    unfold generateCrystalline. cbv beta zeta.
    change (PARTICLE_COUNT / 3)%nat with 1333%nat.
    apply returns_forLoop.
    { split; [apply repeat_length|]. apply pointAt_Float32Array.
      unfold PARTICLE_COUNT. lia. }
    intros l pts Hl HI.
    apply returns_forLoop; [exact HI|].
    intros p pts1 Hp [Hlen Hlast]. apply returns_ret.
    split; [now rewrite store3_length|].
    rewrite pointAt_store3_other by lia. exact Hlast.
Qed.

(** ** What [generateGyroid] returns, when it returns *)

Section Gyroid.

Variable rnd : nat -> R.
Hypothesis rnd_unit : unitStream rnd.

Lemma quarter_in_cube (r : R) :
  0 <= r < 1 -> Rabs ((r + - (0.5)) * PI * 2 * 0.25) <= PI / 4.
Proof.
  intros Hr. pose proof PI_RGT_0 as Hpi. apply Rabs_le. split; nra.
Qed.

Lemma gyroidSample_accept_point (pts : list num) (count c : nat) :
  gyroidAccepts rnd c = true -> everyPoint (realPoint onGyroid) pts ->
  exists pts' : list num,
    gyroidSample (pts, count) rnd c = Some ((pts', S count), (c + 3)%nat)
    /\ everyPoint (realPoint onGyroid) pts'.
Proof.
  intros Ha Hpts. pose proof Ha as Hval. revert Ha.
  unfold gyroidAccepts, gyroidSample, bind, MathRandom.random, ret.
  cbv beta zeta iota. rewrite !Nat.add_1_r.
  replace (c + 2)%nat with (S (S c)) by lia.
  replace (c + 3)%nat with (S (S (S c))) by lia.
  intros ->. eexists. split; [reflexivity|].
  unfold gyroidAccepts, gyroidValue in Hval.
  cbn [sub add neg mul Math.PI Math.sin Math.cos Math.abs ltb] in Hval.
  destruct (Rlt_dec _ _) as [Hlt|]; [|discriminate Hval].
  cbn [sub add neg mul Math.PI].
  apply everyPoint_store3; [exact Hpts|].
  eexists _, _, _. split; [reflexivity|]. split.
  - unfold inCube. repeat split; apply quarter_in_cube, rnd_unit.
  - rewrite !Nat.add_1_r in Hlt. replace (c + 2)%nat with (S (S c)) in Hlt by lia.
    match goal with
    | |- Rabs ?v < _ =>
        match type of Hlt with
        | Rabs ?w < _ => replace v with w; [exact Hlt|]
        end
    end.
    repeat (f_equal; try lra).
Qed.

Lemma gyroid_loop_points (fuel : nat) :
  forall (c : nat) (pts : list num) (count : nat)
         (pts' : list num) (count' c' : nat),
    everyPoint (realPoint onGyroid) pts ->
    whileLoop fuel gyroidCondition gyroidSample (pts, count) rnd c
    = Some ((pts', count'), c') ->
    everyPoint (realPoint onGyroid) pts'
    /\ (PARTICLE_COUNT <= count')%nat
    /\ exists n : nat, c' = (c + 3 * n)%nat /\ (count' <= count + n)%nat.
Proof.
  induction fuel as [|fuel IH]; intros c pts count pts' count' c' Hpts E;
    [discriminate E|].
  rewrite whileLoop_round in E. unfold gyroidCondition at 1 in E.
  destruct (count <? PARTICLE_COUNT)%nat eqn:Ec.
  - destruct (gyroidAccepts rnd c) eqn:Ea.
    + destruct (gyroidSample_accept_point pts count c Ea Hpts) as (pts1 & E1 & Hpts1).
      rewrite E1 in E.
      destruct (IH _ _ _ _ _ _ Hpts1 E) as (H1 & H2 & n & -> & Hn).
      split; [exact H1|]. split; [exact H2|]. exists (S n). split; lia.
    + rewrite (gyroidSample_reject rnd pts count c Ea) in E.
      destruct (IH _ _ _ _ _ _ Hpts E) as (H1 & H2 & n & -> & Hn).
      split; [exact H1|]. split; [exact H2|]. exists (S n). split; lia.
  - injection E as <- <- <-. apply Nat.ltb_ge in Ec.
    split; [exact Hpts|]. split; [exact Ec|]. exists 0%nat. split; lia.
Qed.

End Gyroid.

Lemma origin_onGyroid : realPoint onGyroid origin.
Proof.
  exists 0, 0, 0. split; [reflexivity|]. pose proof PI_RGT_0 as Hpi. split.
  - unfold inCube. rewrite Rabs_R0. lra.
  - rewrite !Rmult_0_l, sin_0, cos_0.
    replace (0 * 1 + 0 * 1 + 0 * 1) with 0 by ring. rewrite Rabs_R0. lra.
Qed.

(** X21.  When [generateGyroid] returns, every particle of its buffer is a
    quarter of a sample of the cube of half-width pi that passed the test
    |sin x cos y + sin y cos z + sin z cos x| < 0.1, so it lies within pi / 4
    of the origin on each axis; and the loop took three draws for each of
    the samples it tried, 4000 of them at least. *)
Theorem X21_gyroid_points_pass_the_test :
  forall (rnd : nat -> R) (fuel c : nat) (pts : list num) (c' : nat),
    unitStream rnd ->
    generateGyroid fuel rnd c = Some (pts, c') ->
    everyPoint (realPoint onGyroid) pts
    /\ exists n : nat, c' = (c + 3 * n)%nat /\ (PARTICLE_COUNT <= n)%nat.
Proof.
  intros rnd fuel c pts c' rnd_unit E.
  unfold generateGyroid, bind in E. cbv beta zeta in E.
  change (fun '(_, count) => (count <? PARTICLE_COUNT)%nat) with gyroidCondition in E.
  destruct (whileLoop fuel gyroidCondition gyroidSample
              (Float32Array (PARTICLE_COUNT * 3), 0%nat) rnd c)
    as [[[pts1 count1] c1]|] eqn:El; [|discriminate E].
  unfold ret in E. injection E as <- <-.
  destruct (gyroid_loop_points rnd rnd_unit fuel _ _ _ _ _ _
              (everyPoint_Float32Array _ origin_onGyroid) El)
    as (H1 & H2 & n & -> & Hn).
  split; [exact H1|]. exists n. split; [reflexivity | lia].
Qed.

Lemma X21_gyroid_points_pass_the_test_witness :
  unitStream evenDraws
  /\ exists (fuel : nat) (pts : list num) (c' : nat),
       generateGyroid fuel evenDraws 0%nat = Some (pts, c')
       /\ everyPoint (realPoint onGyroid) pts.
Proof.
  split; [exact evenDraws_unit|].
  destruct (generateGyroid_good evenDraws 0%nat evenDraws_fed) as [fuel0 H].
  destruct (H fuel0 (Nat.le_refl fuel0)) as (pts & c' & E & _).
  exists fuel0, pts, c'. split; [exact E|].
  exact (proj1 (X21_gyroid_points_pass_the_test evenDraws fuel0 0%nat pts c'
                  evenDraws_unit E)).
Defined.

(** ** The glyph shape *)

(** The rule of [forEach] with an invariant that knows the place in the
    array. *)
Lemma returns_forEach_counted {A S : Type} (rnd : nat -> R) (a : list A)
    (body : A -> S -> Gen S) :
  forall (s : S) (I : nat -> S -> Prop),
    I 0%nat s ->
    (forall k v s', nth_error a k = Some v -> I k s' ->
       returns rnd (body v s') (I (Datatypes.S k))) ->
    returns rnd (forEach a body s) (I (length a)).
Proof.
  induction a as [|v a IH]; intros s I Hs Hbody; simpl.
  - now apply returns_ret.
  - eapply returns_bind.
    + apply (Hbody 0%nat v s); [reflexivity | exact Hs].
    + intros s' Hs'.
      apply (IH s' (fun k => I (Datatypes.S k))); [exact Hs'|].
      intros k w s'' Hw. apply (Hbody (Datatypes.S k)). exact Hw.
Qed.

(** X22.  [generateLORDx] fills the buffer exactly: ten strokes of
    floor(4000 / 10) = 400 particles each, so that no particle is left at
    the origin and its guard on the count never fires.  Particle n is number
    n mod 400 of stroke n / 400: at that fraction of the segment, or on the
    circle of the arc, with a depth drawn from [-0.125, 0.125). *)
Theorem X22_glyph_fills_the_buffer :
  forall (three : Three) (rnd : nat -> R),
    unitStream rnd ->
    returns rnd generateLORDx (filledTo onStroke PARTICLE_COUNT).
Proof.
  intros three rnd rnd_unit.
  unfold generateLORDx. cbv beta zeta.
  change (PARTICLE_COUNT / length lordxSegments)%nat with 400%nat.
  eapply returns_bind
    with (Q := fun st => snd st = PARTICLE_COUNT /\ filledTo onStroke (snd st) (fst st)).
  2:{ intros [pts count] [Hc HL]. cbn [fst snd] in *. subst count.
      now apply returns_ret. }
  eapply returns_weaken.
  { apply returns_forEach_counted
      with (I := fun k st => snd st = (k * 400)%nat
                             /\ filledTo onStroke (snd st) (fst st)).
    { cbn [fst snd]. split; [reflexivity | apply filledTo_start]. }
    intros k seg st Hseg [Hc HL].
    assert (Hk : (k < 10)%nat).
    { change 10%nat with (length lordxSegments). apply nth_error_Some. congruence. }
    assert (Hfin : finiteSegment seg).
    { pose proof lordxSegments_finite as Hall. rewrite Forall_forall in Hall.
      apply Hall. eapply nth_error_In. exact Hseg. }
    eapply returns_weaken.
    { apply returns_forLoop_counted
        with (I := fun i st => snd st = (k * 400 + i)%nat
                               /\ filledTo onStroke (snd st) (fst st)).
      { split; [lia | exact HL]. }
      intros i [pts count] Hi [Hc1 HL1]. cbn [fst snd] in *. cbv beta iota.
      assert (Hlt : (count < PARTICLE_COUNT)%nat) by (unfold PARTICLE_COUNT; lia).
      destruct (PARTICLE_COUNT <=? count)%nat eqn:E; [apply Nat.leb_le in E; lia|].
      eapply returns_bind; [apply returns_random; exact rnd_unit|].
      intros r1 (d & -> & Hd). cbv beta zeta.
      assert (Hdiv : (count / 400 = k)%nat)
        by (subst count; symmetry; apply (Nat.div_unique _ 400 k i); lia).
      assert (Hmod : (count mod 400 = i)%nat)
        by (subst count; symmetry; apply (Nat.mod_unique _ 400 k i); lia).
      assert (Hz : exists d' : R,
                 z3 (mkVector3 (Fin 0) (Fin 0) (mul (sub (Fin d) (Fin 0.5)) (Fin 0.25)))
                 = Fin d' /\ - 0.125 <= d' < 0.125).
      { cbn [z3 sub add neg mul]. eexists. split; [reflexivity | lra]. }
      destruct Hz as (d' & Ed & Hd'). cbn [z3] in Ed.
      destruct seg as [start finish | center radius startA endA].
      - apply returns_ret. cbn [fst snd]. split; [lia|].
        apply filledTo_store3; [exact Hlt | exact HL1|].
        unfold onStroke. cbn [x3 y3 z3]. split; [now exists d'|].
        rewrite Hdiv, Hseg, Hmod. cbv zeta. split; reflexivity.
      - apply returns_ret. cbn [fst snd]. split; [lia|].
        apply filledTo_store3; [exact Hlt | exact HL1|].
        unfold onStroke. cbn [x3 y3 z3]. split; [now exists d'|].
        rewrite Hdiv, Hseg.
        destruct Hfin as (_ & _ & [a0 ->] & [a1 ->]).
        assert (Hper : INR 400 <> 0) by (apply not_0_INR; lia).
        unfold ofNat. rewrite div_Fin by exact Hper. cbn [sub add neg mul].
        eexists. split; reflexivity. }
    intros st1 [Hc1 HL1]. split; [lia | exact HL1]. }
  intros st [Hc HL]. split; [|exact HL].
  rewrite Hc. reflexivity.
Qed.

Lemma X22_glyph_fills_the_buffer_witness :
  unitStream evenDraws
  /\ exists (pts : list num) (c : nat),
       @generateLORDx standIn evenDraws 0%nat = Some (pts, c)
       /\ @onStroke standIn 3999 (pointAt pts 3999).
Proof.
  split; [exact evenDraws_unit|].
  destruct (X22_glyph_fills_the_buffer standIn evenDraws evenDraws_unit 0%nat)
    as (pts & c & E & _ & H & _).
  exists pts, c. split; [exact E|]. apply H. unfold PARTICLE_COUNT. lia.
Defined.

(** ** Sampling a mesh *)

(** X23.  [getMeshPoints] deals the vertices of a geometry out to the
    particles in turn: with count vertices, particle i is vertex
    i mod count, so that a geometry of at most 4000 vertices has each of
    them shown and one of more has those from the 4000th on left out.  Of a
    geometry with no vertex it makes a buffer of NaN. *)
Theorem X23_mesh_points_cycle_the_vertices :
  forall (three : Three) (geometry : Geometry) (rnd : nat -> R),
    (forall count : nat,
        (0 < count)%nat ->
        length (positionArray geometry) = (count * 3)%nat ->
        returns rnd (getMeshPoints geometry)
          (fun pts =>
             filledTo (fun i v => v = pointAt (positionArray geometry) (i mod count))
               PARTICLE_COUNT pts
             /\ forall v : nat, (v < count)%nat -> (v < PARTICLE_COUNT)%nat ->
                  pointAt pts v = pointAt (positionArray geometry) v))
    /\ (positionArray geometry = [] ->
        returns rnd (getMeshPoints geometry)
          (filledTo (fun _ v => v = notANumber) PARTICLE_COUNT)).
Proof.
  intros three geometry rnd. split.
  - intros count Hcount Hlen.
    unfold getMeshPoints. cbv beta zeta. rewrite Hlen, Nat.div_mul by lia.
    eapply returns_weaken.
    { apply returns_forLoop_counted
        with (I := fun n pts =>
                     filledTo (fun i v => v = pointAt (positionArray geometry) (i mod count))
                       n pts).
      { apply filledTo_start. }
      intros i pts Hi HL. apply returns_ret.
      apply filledTo_store3; [exact Hi | exact HL | reflexivity]. }
    intros pts HL. split; [exact HL|].
    intros v Hv HvN. destruct HL as (_ & Hdone & _).
    rewrite (Hdone v HvN). now rewrite Nat.mod_small.
  - intros Hempty.
    unfold getMeshPoints. cbv beta zeta. rewrite Hempty.
    apply returns_forLoop_counted
      with (I := fun n pts => filledTo (fun _ v => v = notANumber) n pts).
    { apply filledTo_start. }
    intros i pts Hi HL. apply returns_ret.
    apply filledTo_store3; [exact Hi | exact HL|].
    unfold notANumber, get. now rewrite !nth_overflow by (simpl; lia).
Qed.

Lemma X23_mesh_points_cycle_the_vertices_witness :
  (0 < 1)%nat
  /\ length (@positionArray standIn (SphereGeometry (Fin 0.7) 32 32)) = (1 * 3)%nat
  /\ exists (pts : list num) (c : nat),
       @getMeshPoints standIn (SphereGeometry (Fin 0.7) 32 32) evenDraws 0%nat
       = Some (pts, c)
       /\ pointAt pts 0
          = pointAt (@positionArray standIn (SphereGeometry (Fin 0.7) 32 32)) 0.
Proof.
  assert (H0 : (0 < 1)%nat) by lia.
  assert (Hlen : length (@positionArray standIn (SphereGeometry (Fin 0.7) 32 32))
                 = (1 * 3)%nat) by reflexivity.
  split; [exact H0|]. split; [exact Hlen|].
  destruct (proj1 (X23_mesh_points_cycle_the_vertices standIn
                     (SphereGeometry (Fin 0.7) 32 32) evenDraws) 1%nat H0 Hlen 0%nat)
    as (pts & c & E & _ & H).
  exists pts, c. split; [exact E|]. apply H; [lia | unfold PARTICLE_COUNT; lia].
Defined.

(** ** Shapes the library holds twice *)

Lemma silent_forLoop {S : Type} (n : nat) (body : nat -> S -> Gen S) :
  (forall i : nat, silent (body i)) -> silent (forLoop n body).
Proof.
  intros H. induction n as [|n [g Hg]].
  - exists (fun s => s). intros s rnd c. reflexivity.
  - destruct (H n) as [f Hf]. exists (fun s => f (g s)).
    intros s rnd c. simpl. unfold bind. rewrite Hg. apply Hf.
Qed.

Lemma silent_value {S : Type} (body : S -> Gen S) (s : S) :
  silent body -> exists v : S, alwaysReturns (body s) v.
Proof. intros [f Hf]. exists (f s). apply Hf. Qed.

Lemma sequence_nth {A : Type} (rnd : nat -> R) (ms : list (Gen A)) :
  forall (c : nat) (lib : list A) (c' : nat),
    sequence ms rnd c = Some (lib, c') ->
    forall (k : nat) (m : Gen A) (v : A),
      nth_error ms k = Some m -> alwaysReturns m v -> nth_error lib k = Some v.
Proof.
  induction ms as [|m0 ms IH]; intros c lib c' E k m v Hk Hm.
  - destruct k; discriminate Hk.
  - simpl in E. unfold bind, ret in E.
    destruct (m0 rnd c) as [[a c1]|] eqn:E0; [|discriminate E].
    destruct (sequence ms rnd c1) as [[others c2]|] eqn:E1; [|discriminate E].
    injection E as <- <-.
    destruct k as [|k].
    + injection Hk as ->. rewrite Hm in E0. now injection E0 as <- _.
    + simpl. eapply IH; eassumption.
Qed.

Section Repeats.

Context {three : Three}.

Lemma generateCrystalline_silent : exists v, alwaysReturns generateCrystalline v.
Proof.
  unfold generateCrystalline. cbv beta zeta.
  apply (silent_value (forLoop 3 _)). apply silent_forLoop. intros l.
  apply silent_forLoop. intros p.
  eexists. intros pts rnd c. reflexivity.
Qed.

Lemma generateOrbitingRings_silent : exists v, alwaysReturns generateOrbitingRings v.
Proof.
  unfold generateOrbitingRings. cbv beta zeta.
  apply (silent_value (forLoop 5 _)). apply silent_forLoop. intros r.
  apply silent_forLoop. intros p.
  eexists. intros pts rnd c. reflexivity.
Qed.

Lemma generateDoubleHelix_silent : exists v, alwaysReturns generateDoubleHelix v.
Proof.
  unfold generateDoubleHelix. cbv beta zeta.
  apply (silent_value (forLoop PARTICLE_COUNT _)). apply silent_forLoop. intros i.
  eexists. intros pts rnd c. reflexivity.
Qed.

Lemma generateMechanical_silent : exists v, alwaysReturns generateMechanical v.
Proof.
  unfold generateMechanical. cbv beta zeta.
  apply (silent_value (forLoop 3 _)). apply silent_forLoop. intros g.
  apply silent_forLoop. intros p.
  eexists. intros pts rnd c. reflexivity.
Qed.

Lemma shapes_unfold (fuel : nat) : shapes fuel = sequence (shapeGenerators fuel).
Proof. reflexivity. Qed.

End Repeats.

(** X24.  The library holds four of its shapes twice: the generators pushed
    again at places 37 to 40 take no random number, so whenever the library
    is built the buffers at 37, 38, 39 and 40 equal those at 4, 5, 7 and
    8. *)
Theorem X24_library_holds_four_shapes_twice :
  forall (three : Three) (fuel : nat) (rnd : nat -> R) (c : nat)
         (lib : list (list num)) (c' : nat),
    shapes fuel rnd c = Some (lib, c') ->
    (exists v, nth_error lib 4 = Some v /\ nth_error lib 37 = Some v)
    /\ (exists v, nth_error lib 5 = Some v /\ nth_error lib 38 = Some v)
    /\ (exists v, nth_error lib 7 = Some v /\ nth_error lib 39 = Some v)
    /\ (exists v, nth_error lib 8 = Some v /\ nth_error lib 40 = Some v).
Proof.
  intros three fuel rnd c lib c' E. rewrite shapes_unfold in E.
  pose proof (sequence_nth rnd (shapeGenerators fuel) c lib c' E) as Hnth.
  destruct generateCrystalline_silent as [v4 H4].
  destruct generateOrbitingRings_silent as [v5 H5].
  destruct generateDoubleHelix_silent as [v7 H7].
  destruct generateMechanical_silent as [v8 H8].
  split; [|split; [|split]].
  - exists v4. split; [apply (Hnth 4%nat _ v4 eq_refl H4) | apply (Hnth 37%nat _ v4 eq_refl H4)].
  - exists v5. split; [apply (Hnth 5%nat _ v5 eq_refl H5) | apply (Hnth 38%nat _ v5 eq_refl H5)].
  - exists v7. split; [apply (Hnth 7%nat _ v7 eq_refl H7) | apply (Hnth 39%nat _ v7 eq_refl H7)].
  - exists v8. split; [apply (Hnth 8%nat _ v8 eq_refl H8) | apply (Hnth 40%nat _ v8 eq_refl H8)].
Qed.

Lemma X24_library_holds_four_shapes_twice_witness :
  exists (fuel : nat) (lib : list (list num)) (c' : nat),
    @shapes standIn fuel evenDraws 0%nat = Some (lib, c')
    /\ exists v, nth_error lib 4 = Some v /\ nth_error lib 37 = Some v.
Proof.
  destruct (@shapes_good standIn standIn_finite evenDraws evenDraws_unit 0%nat
              evenDraws_fed) as [fuel0 H].
  destruct (H fuel0 (Nat.le_refl fuel0)) as (lib & c1 & _ & _ & E & _).
  exists fuel0, lib, c1. split; [exact E|].
  exact (proj1 (X24_library_holds_four_shapes_twice standIn fuel0 evenDraws 0%nat
                  lib c1 E)).
Defined.

End LibraryFacts.

(** * From the camera to the particles: the parts composed *)

Module PipelineFacts.
Import App Tracker.

(** ** The selector and the lookup *)

Lemma lookupShape_mod (lib : list (list R)) (idx : Z) :
  lib <> [] -> (0 <= idx)%Z ->
  Scene.lookupShape lib idx
  = nth_error lib (Z.to_nat (idx mod Z.of_nat (length lib))).
Proof.
  intros Hne Hidx. unfold Scene.lookupShape.
  destruct lib as [|s0 rest] eqn:E; [contradiction|]. rewrite <- E.
  assert (Hlen : (0 < Z.of_nat (length lib))%Z) by (subst; simpl; lia).
  rewrite Z.rem_mod_nonneg by lia.
  pose proof (Z.mod_pos_bound idx (Z.of_nat (length lib)) Hlen) as Hb.
  destruct (_ <? 0)%Z eqn:En; [apply Z.ltb_lt in En; lia | reflexivity].
Qed.

(** X10.  In every session the counter is not negative and either hand
    holds an index of [0, 65) that the counter has passed, so the lookup of
    the engine finds a shape in any library that is not empty.  With the
    library of 62 shapes the k-th open-to-fist transition of a session shows
    shape ((k - 1) mod 65) mod 62: of every 65 fists, three show shapes 0, 1
    and 2 a second time. *)
Theorem X10_selector_indices :
  (forall (us : list Update) (h : Hand),
      let s := run us initialSession in
      (0 <= fistCount s)%Z
      /\ (0 <= shapeIndex (handOf h (appState s)) < 65)%Z
      /\ (shapeIndex (handOf h (appState s)) <= Z.max 0 (fistCount s - 1))%Z)
  /\ (forall (us : list Update) (h : Hand) (lib : list (list R)),
        lib <> [] ->
        exists target : list R,
          Scene.lookupShape lib
            (shapeIndex (handOf h (appState (run us initialSession))))
          = Some target
          /\ In target lib)
  /\ (forall (us : list Update) (k : nat) (h : Hand) (idx : Z) (lib : list (list R)),
        (1 <= k)%nat ->
        nth_error (transitionLog us initialSession) (k - 1) = Some (h, idx) ->
        length lib = 62%nat ->
        Scene.lookupShape lib idx
        = nth_error lib (Z.to_nat (((Z.of_nat k - 1) mod 65) mod 62)))
  /\ (forall lib : list (list R),
        length lib = 62%nat ->
        Scene.lookupShape lib 62 = nth_error lib 0
        /\ Scene.lookupShape lib 63 = nth_error lib 1
        /\ Scene.lookupShape lib 64 = nth_error lib 2).
Proof.
  split; [|split; [|split]].
  - intros us h s.
    destruct (AppFacts.run_indexed us initialSession AppFacts.initial_indexed)
      as [Hc Hi].
    destruct (Hi h) as [Hr Hm]. unfold librarySize in Hr. now split.
  - intros us h lib Hne.
    destruct (AppFacts.run_indexed us initialSession AppFacts.initial_indexed)
      as [_ Hi].
    destruct (Hi h) as [Hr _].
    apply LibraryFacts.lookupShape_in_bounds; [exact Hne | lia].
  - intros us k h idx lib Hk Hnth Hlen.
    pose proof (AppFacts.transitionLog_nth us initialSession (k - 1) h idx
                  ltac:(simpl; lia) Hnth) as E.
    cbn [fistCount initialSession] in E. unfold librarySize in E.
    replace (0 + Z.of_nat (k - 1))%Z with (Z.of_nat k - 1)%Z in E by lia.
    assert (Hne : lib <> []) by (intros ->; discriminate Hlen).
    pose proof (Z.mod_pos_bound (Z.of_nat k - 1) 65 ltac:(lia)) as Hb.
    rewrite lookupShape_mod by (assumption || lia).
    rewrite Hlen, E. reflexivity.
  - intros lib Hlen.
    assert (Hne : lib <> []) by (intros ->; discriminate Hlen).
    rewrite !lookupShape_mod by (assumption || lia).
    rewrite Hlen. repeat split; reflexivity.
Qed.

Lemma X10_selector_indices_witness :
  (1 <= 63)%nat
  /\ nth_error (transitionLog (Demo.fistCloses 63) initialSession) (63 - 1)
     = Some (LeftH, 62%Z)
  /\ forall lib : list (list R),
       length lib = 62%nat ->
       Scene.lookupShape lib 62
       = nth_error lib (Z.to_nat (((Z.of_nat 63 - 1) mod 65) mod 62)).
Proof.
  assert (Hk : (1 <= 63)%nat) by lia.
  assert (Hnth : nth_error (transitionLog (Demo.fistCloses 63) initialSession) (63 - 1)
                 = Some (LeftH, 62%Z)) by (vm_compute; reflexivity).
  split; [exact Hk|]. split; [exact Hnth|].
  intros lib Hlen.
  exact (proj1 (proj2 (proj2 X10_selector_indices))
           (Demo.fistCloses 63) 63%nat LeftH 62%Z lib Hk Hnth Hlen).
Defined.

(** C1.  The selector's round robin runs through 65 places and the library
    holds 62 shapes.  Whatever the tracker delivers, the k-th open-to-fist
    transition of a session (counted from 1, both hands combined, the left
    hand first within one callback) leaves the hand with shapeIndex
    (k - 1) mod 65.  With librarySize the number of shapes of the library
    that is built, this is (k - 1) mod librarySize for the first 62
    transitions of a session and no longer for the 63rd, which gets index 62
    where (63 - 1) mod librarySize is 0.  A present hand that makes no such
    transition in a callback keeps the shapeIndex it had. *)
Theorem C1_round_robin_runs_to_65 :
  forall (three : Library.Three) (fuel : nat),
    let builtSize := Z.of_nat (length (Library.shapeGenerators fuel)) in
    builtSize = 62%Z
    /\ (forall (us : list Update) (k : nat) (h : Hand) (idx : Z),
          (1 <= k)%nat ->
          nth_error (transitionLog us initialSession) (k - 1) = Some (h, idx) ->
          idx = ((Z.of_nat k - 1) mod 65)%Z
          /\ ((k <= 62)%nat -> idx = ((Z.of_nat k - 1) mod builtSize)%Z)
          /\ (k = 63%nat ->
              idx = 62%Z /\ ((Z.of_nat k - 1) mod builtSize)%Z = 0%Z))
    /\ nth_error (transitionLog (Demo.fistCloses 63) initialSession) (63 - 1)
       = Some (LeftH, 62%Z)
    /\ (forall (s : Session) (u : Update) (h : Hand) (cur : HandState),
          sampleOf h u = Some cur ->
          isTransition (Some cur) (handOf h (appState s)) = false ->
          shapeIndex (handOf h (appState (step s u)))
          = shapeIndex (handOf h (appState s))).
Proof.
  intros three fuel builtSize.
  assert (Hsize : builtSize = 62%Z) by reflexivity.
  split; [exact Hsize|]. split; [|split].
  - intros us k h idx Hk Hnth.
    pose proof (AppFacts.transitionLog_nth us initialSession (k - 1) h idx
                  ltac:(simpl; lia) Hnth) as E.
    cbn [fistCount initialSession] in E. unfold librarySize in E.
    replace (0 + Z.of_nat (k - 1))%Z with (Z.of_nat k - 1)%Z in E by lia.
    split; [exact E|]. split.
    + intros Hle. rewrite Hsize, E.
      rewrite !Z.mod_small by lia. reflexivity.
    + intros ->. rewrite Hsize, E. split; reflexivity.
  - vm_compute. reflexivity.
  - intros s u h cur Hs Ht.
    destruct (AppFacts.step_hands s u) as (HL & HR & _).
    destruct h; cbn [handOf sampleOf] in *.
    + rewrite HL, Hs. now apply AppFacts.updateHand_carry.
    + rewrite HR, Hs. now apply AppFacts.updateHand_carry.
Qed.

(** C1 at one hand closing and opening 63 times, with the stand-in for
    three.js: the 62nd transition gets index 61 = (62 - 1) mod 62, the 63rd
    gets index 62 where (63 - 1) mod 62 = 0; and the left hand, open again
    after closing twice, keeps its index 1. *)
Lemma C1_round_robin_runs_to_65_witness :
  let builtSize := Z.of_nat (length (@Library.shapeGenerators Demo.standIn 0)) in
  ((1 <= 62)%nat
   /\ nth_error (transitionLog (Demo.fistCloses 63) initialSession) (62 - 1)
      = Some (LeftH, 61%Z)
   /\ 61%Z = ((Z.of_nat 62 - 1) mod builtSize)%Z)
  /\ ((1 <= 63)%nat
      /\ nth_error (transitionLog (Demo.fistCloses 63) initialSession) (63 - 1)
         = Some (LeftH, 62%Z)
      /\ 62%Z = ((Z.of_nat 63 - 1) mod 65)%Z
      /\ ((Z.of_nat 63 - 1) mod builtSize)%Z = 0%Z)
  /\ (let s := run Demo.closeTwice initialSession in
      let u : Update := (Some (Demo.openHand 1 0), None) in
      shapeIndex (handOf LeftH (appState s)) = 1%Z
      /\ shapeIndex (handOf LeftH (appState (step s u)))
         = shapeIndex (handOf LeftH (appState s))).
Proof.
  cbv zeta.
  assert (H62 : nth_error (transitionLog (Demo.fistCloses 63) initialSession) (62 - 1)
                = Some (LeftH, 61%Z)) by (vm_compute; reflexivity).
  assert (H63 : nth_error (transitionLog (Demo.fistCloses 63) initialSession) (63 - 1)
                = Some (LeftH, 62%Z)) by (vm_compute; reflexivity).
  destruct (C1_round_robin_runs_to_65 Demo.standIn 0) as (_ & Hlog & _ & Hkeep).
  cbv zeta in Hlog.
  destruct (Hlog (Demo.fistCloses 63) 62%nat LeftH 61%Z ltac:(lia) H62)
    as (_ & Hin & _).
  destruct (Hlog (Demo.fistCloses 63) 63%nat LeftH 62%Z ltac:(lia) H63)
    as (H65 & _ & Hout).
  split; [|split].
  - split; [lia|]. split; [exact H62|]. apply Hin. lia.
  - split; [lia|]. split; [exact H63|]. split; [exact H65|].
    exact (proj2 (Hout eq_refl)).
  - split; [reflexivity|].
    apply (Hkeep (run Demo.closeTwice initialSession)
             (Some (Demo.openHand 1 0), None) LeftH (Demo.openHand 1 0));
      reflexivity.
Defined.

(** ** The orbit under the tracker *)

Lemma updateHand_passes (cur prevHand : HandState) (c : Z) :
  let h := fst (updateHand (Some cur) prevHand c) in
  isActive h = isActive cur /\ isFist h = isFist cur
  /\ position h = position cur /\ velocity h = velocity cur.
Proof.
  unfold updateHand. destruct (isFist cur && negb (isFist prevHand)); cbn; auto.
Qed.

Lemma updateHand_active (current : option HandState) (prevHand : HandState) (c : Z)
    (B : R) :
  (forall cur, current = Some cur -> Rabs (vx (position cur)) <= B) ->
  isActive (fst (updateHand current prevHand c)) = true ->
  Rabs (vx (position (fst (updateHand current prevHand c)))) <= B.
Proof.
  intros H Ha. destruct current as [cur|].
  - destruct (updateHand_passes cur prevHand c) as (_ & _ & -> & _). now apply H.
  - discriminate Ha.
Qed.

Lemma nextOrbit_bounded (l r : HandState) (o B : R) :
  (isActive l = true -> Rabs (vx (position l)) <= B) ->
  (isActive r = true -> Rabs (vx (position r)) <= B) ->
  Rabs o <= 0.4 * B -> Rabs (nextOrbit l r o) <= 0.4 * B.
Proof.
  intros Hl Hr Ho. apply SceneFacts.Rabs_bounds in Ho.
  unfold nextOrbit.
  destruct (isActive l), (isActive r); cbn [Nat.ltb Nat.leb INR];
    try (specialize (Hl eq_refl); apply SceneFacts.Rabs_bounds in Hl);
    try (specialize (Hr eq_refl); apply SceneFacts.Rabs_bounds in Hr);
    apply Rabs_le; lra.
Qed.

Lemma step_orbit_bounded (s : Session) (u : Update) (B : R) :
  (forall cur, fst u = Some cur -> Rabs (vx (position cur)) <= B) ->
  (forall cur, snd u = Some cur -> Rabs (vx (position cur)) <= B) ->
  Rabs (cameraOrbit (appState s)) <= 0.4 * B ->
  Rabs (cameraOrbit (appState (step s u))) <= 0.4 * B.
Proof.
  intros Hl Hr Ho. rewrite AppFacts.step_orbit.
  destruct (AppFacts.step_hands s u) as (El & Er & _).
  apply nextOrbit_bounded; [| |exact Ho].
  - rewrite El. now apply updateHand_active.
  - rewrite Er. now apply updateHand_active.
Qed.

Lemma deliver_orbit_bounded (s : Session) (results : Results) :
  wristsInImage results ->
  Rabs (cameraOrbit (appState s)) <= 0.4 * 4.25 ->
  Rabs (cameraOrbit (appState (deliver s results))) <= 0.4 * 4.25.
Proof.
  intros Himg Ho. unfold deliver.
  destruct (onResults results) as [[l r]|] eqn:E; [|exact Ho].
  destruct (TrackerFacts.onResults_all
              (fun h => Rabs (vx (position h)) <= 4.25) results l r) as [Hl Hr].
  - intros hands lm h Eh Hin Es.
    destruct (Himg hands lm Eh Hin) as [Hx Hy].
    now apply (TrackerFacts.handStateOf_image lm h Es Hx Hy).
  - exact E.
  - apply step_orbit_bounded; assumption.
Qed.

(** X25.  Whatever the tracker sees, as long as the wrists it reports lie in
    the image, the orbit never leaves [-1.7, 1.7]; so the group's rotation
    about y, half the orbit, stays within 0.85 radians and its rotation
    about x, which is always a fifth of that in magnitude and never
    positive, within 0.17.  Before the group is mounted the frame callback
    leaves the rotation alone. *)
Theorem X25_orbit_stays_bounded :
  forall rs : list Results,
    Forall wristsInImage rs ->
    let a := appState (track rs initialSession) in
    Rabs (cameraOrbit a) <= 1.7
    /\ (forall rot : Group.Rotation,
          let rot' := Group.useFrame true a rot in
          Group.rotY rot' = cameraOrbit a * 0.5
          /\ Group.rotX rot' = - Rabs (Group.rotY rot') * 0.2
          /\ - 0.85 <= Group.rotY rot' <= 0.85
          /\ - 0.17 <= Group.rotX rot' <= 0)
    /\ (forall rot : Group.Rotation, Group.useFrame false a rot = rot).
Proof.
  intros rs Hall a.
  assert (Ho : Rabs (cameraOrbit a) <= 0.4 * 4.25).
  { subst a. unfold track.
    induction rs as [|results rs IH] using rev_ind.
    - cbn. rewrite Rabs_R0. lra.
    - apply Forall_app in Hall. destruct Hall as [Hrs Hres].
      inversion Hres as [|? ? Himg _]; subst.
      rewrite fold_left_app. cbn [fold_left].
      apply deliver_orbit_bounded; [exact Himg | now apply IH]. }
  split; [lra|]. split; [|reflexivity].
  intros rot rot'. subst rot'. unfold Group.useFrame. cbn [Group.rotX Group.rotY].
  pose proof (Rabs_pos (cameraOrbit a)) as Hp.
  assert (Hr : Rabs (cameraOrbit a * 0.5) = Rabs (cameraOrbit a) * 0.5).
  { rewrite Rabs_mult, (Rabs_pos_eq 0.5) by lra. reflexivity. }
  pose proof (SceneFacts.Rabs_bounds _ _ Ho) as Hb.
  split; [reflexivity|]. split; [rewrite Hr; lra|]. split; lra.
Qed.

Lemma X25_orbit_stays_bounded_witness :
  Forall wristsInImage [Demo.seen "Left" (Demo.handAt 0.2 0.5 0.05)]
  /\ Rabs (cameraOrbit (appState
        (track [Demo.seen "Left" (Demo.handAt 0.2 0.5 0.05)] initialSession))) <= 1.7.
Proof.
  assert (H : Forall wristsInImage [Demo.seen "Left" (Demo.handAt 0.2 0.5 0.05)]).
  { constructor; [|constructor].
    intros hands lm Eh Hin. cbn in Eh. injection Eh as <-.
    destruct Hin as [<-|[]]. cbn. lra. }
  split; [exact H|].
  exact (proj1 (X25_orbit_stays_bounded _ H)).
Defined.

(** ** A hand that leaves the view *)

Lemma step_absent (s : Session) (u : Update) (h : Hand) :
  sampleOf h u = None -> handOf h (appState (step s u)) = INITIAL_HAND_STATE.
Proof.
  intros E. destruct (AppFacts.step_hands s u) as (El & Er & _).
  destruct h; cbn [handOf sampleOf] in *.
  - rewrite El, E. reflexivity.
  - rewrite Er, E. reflexivity.
Qed.

(** X26.  A hand the tracker does not report is stored as the initial hand
    state, at the origin; so while it stays away its particle system is
    hidden with its buffer kept as it was, and its anchor slides toward the
    origin of the group: every frame moves it by 0.15 of its offset from the
    origin, so that no coordinate of it crosses 0 or grows in magnitude. *)
Theorem X26_absent_hand_slides_home :
  forall (s : Session) (results : Results) (u : Update) (h : Hand),
    onResults results = Some u -> sampleOf h u = None ->
    let hand := handOf h (appState (deliver s results)) in
    hand = INITIAL_HAND_STATE
    /\ forall (shapes : list (list R)) (textShape lerpSpeeds : list R)
              (fs : list Scene.Frame) (st : Scene.Particles),
         Scene.heldAt hand fs ->
         let m := Scene.meshPosition st in
         let st' := Scene.frames shapes textShape lerpSpeeds fs st in
         let m' := Scene.meshPosition st' in
         Scene.pos st' = Scene.pos st
         /\ (fs <> [] -> Scene.visible st' = false)
         /\ Scene.between (vx m) 0 (vx m')
         /\ Scene.between (vy m) 0 (vy m')
         /\ Scene.between (vz m) 0 (vz m')
         /\ Rabs (vx m') <= Rabs (vx m)
         /\ Rabs (vy m') <= Rabs (vy m)
         /\ Rabs (vz m') <= Rabs (vz m)
         /\ forall f : Scene.Frame,
              Scene.refsMounted f = true -> Scene.hand f = hand ->
              let m'' := Scene.meshPosition
                           (Scene.useFrame shapes textShape lerpSpeeds f st') in
              vx m'' = vx m' + (0 - vx m') * 0.15
              /\ vy m'' = vy m' + (0 - vy m') * 0.15
              /\ vz m'' = vz m' + (0 - vz m') * 0.15.
Proof.
  intros s results u h E Habs hand.
  assert (Eh : hand = INITIAL_HAND_STATE).
  { subst hand. unfold deliver. rewrite E. now apply step_absent. }
  split; [exact Eh|].
  intros shapes textShape lerpSpeeds fs st Hheld m st' m'.
  rewrite Eh in Hheld.
  destruct (SceneFacts.frames_absent shapes textShape lerpSpeeds
              INITIAL_HAND_STATE fs st Hheld eq_refl) as [Hp Hv].
  split; [exact Hp|]. split; [exact Hv|].
  pose proof (SceneFacts.frames_meshPosition shapes textShape lerpSpeeds
                INITIAL_HAND_STATE fs st Hheld) as Em.
  fold st' in Em. fold m' in Em. fold m in Em.
  destruct (SceneFacts.iterParticle_between (length fs) m
              (position INITIAL_HAND_STATE) 0.15 ltac:(lra)) as (Hx & Hy & Hz).
  rewrite <- Em in Hx, Hy, Hz. cbn [position INITIAL_HAND_STATE vx vy vz] in Hx, Hy, Hz.
  split; [exact Hx|]. split; [exact Hy|]. split; [exact Hz|].
  split; [|split; [|split]].
  - revert Hx. unfold Scene.between, Rmin, Rmax, Rabs.
    destruct (Rle_dec (vx m) 0), (Rcase_abs (vx m')), (Rcase_abs (vx m)); lra.
  - revert Hy. unfold Scene.between, Rmin, Rmax, Rabs.
    destruct (Rle_dec (vy m) 0), (Rcase_abs (vy m')), (Rcase_abs (vy m)); lra.
  - revert Hz. unfold Scene.between, Rmin, Rmax, Rabs.
    destruct (Rle_dec (vz m) 0), (Rcase_abs (vz m')), (Rcase_abs (vz m)); lra.
  - intros f Hm Hh m''.
    pose proof (proj1 (SceneFacts.useFrame_transform shapes textShape lerpSpeeds
                         f st' Hm)) as E'.
    fold m'' in E'. fold m' in E'. rewrite Hh, Eh in E'. rewrite E'.
    split; [reflexivity|]. split; reflexivity.
Qed.

(** X26 for a right hand seen alone: the left hand is away, and over two
    frames its system, anchored by an earlier fist, keeps its buffer, is
    hidden, and has its anchor between where it was and the origin. *)
Lemma X26_absent_hand_slides_home_witness :
  let results := Demo.seen "Right" (Demo.handAt 0.2 0.5 0.05) in
  let st := Scene.frames [] [] [] [Demo.fistFrame] Scene.initialParticles in
  let fs := [Demo.absentFrame; Demo.absentFrame] in
  let st' := Scene.frames [] [] [] fs st in
  (exists u : Update, onResults results = Some u /\ sampleOf LeftH u = None)
  /\ handOf LeftH (appState (deliver initialSession results)) = INITIAL_HAND_STATE
  /\ Scene.heldAt INITIAL_HAND_STATE fs
  /\ Scene.pos st' = Scene.pos st
  /\ Scene.visible st' = false
  /\ Scene.between (vx (Scene.meshPosition st)) 0 (vx (Scene.meshPosition st'))
  /\ Rabs (vx (Scene.meshPosition st')) <= Rabs (vx (Scene.meshPosition st)).
Proof.
  cbv zeta.
  assert (Hc : complete (Demo.handAt 0.2 0.5 0.05)) by (unfold complete; simpl; lia).
  assert (E : onResults (Demo.seen "Right" (Demo.handAt 0.2 0.5 0.05))
              = Some (None, handStateOf (Demo.handAt 0.2 0.5 0.05))).
  { unfold Demo.seen, onResults. cbn [multiHandLandmarks multiHandedness].
    rewrite TrackerFacts.forEachHand_cons.
    rewrite (TrackerFacts.handStateOf_complete _ Hc). reflexivity. }
  assert (Hheld : Scene.heldAt INITIAL_HAND_STATE [Demo.absentFrame; Demo.absentFrame])
    by (repeat constructor).
  destruct (X26_absent_hand_slides_home initialSession _ _ LeftH E eq_refl)
    as [Eh Hframes].
  rewrite Eh in Hframes.
  destruct (Hframes [] [] [] [Demo.absentFrame; Demo.absentFrame]
              (Scene.frames [] [] [] [Demo.fistFrame] Scene.initialParticles) Hheld)
    as (Hp & Hv & Hx & _ & _ & Ha & _).
  split; [eexists; split; [exact E | reflexivity]|].
  split; [exact Eh|]. split; [exact Hheld|]. split; [exact Hp|].
  split; [apply Hv; discriminate|]. split; [exact Hx | exact Ha].
Defined.

(** ** Two open hands *)

Lemma interHandDistance_sym (a b : HandState) :
  Scene.interHandDistance a b = Scene.interHandDistance b a.
Proof. unfold Scene.interHandDistance. f_equal. ring. Qed.

Lemma spread_open (a b : HandState) :
  isActive b = true -> isFist b = false ->
  Scene.spread a b = 1 + Rmin (0.5 * Scene.interHandDistance a b) 3.
Proof.
  intros Ha Hf. unfold Scene.spread. cbv zeta. rewrite Ha, Hf. cbn [negb andb].
  replace (Scene.interHandDistance a b * 0.5)
    with (0.5 * Scene.interHandDistance a b) by ring.
  replace (Rmin (0.5 * Scene.interHandDistance a b) 3.0)
    with (Rmin (0.5 * Scene.interHandDistance a b) 3) by (f_equal; lra).
  lra.
Qed.

(** X27.  Two open hands share one cloud shape.  The spread either system
    uses is the same, 1 + min(0.5 d, 3) with d the distance of the wrists
    scaled by 8.5 in x and 6 in y; and on a frame without overlay the two
    systems, each given the other's hand, step every particle toward the
    same live target, so that the two clouds differ by their anchors
    only. *)
Theorem X27_two_open_hands_share_a_cloud :
  (forall (la lb : list Landmark) (ha hb : HandState),
      handStateOf la = Some ha -> handStateOf lb = Some hb ->
      isFist ha = false -> isFist hb = false ->
      let dx := 8.5 * (lx (wristOf la) - lx (wristOf lb)) in
      let dy := 6 * (ly (wristOf la) - ly (wristOf lb)) in
      Scene.spread ha hb = 1 + Rmin (0.5 * sqrt (dx ^ 2 + dy ^ 2)) 3
      /\ Scene.spread hb ha = Scene.spread ha hb)
  /\ (forall (shapes : list (list R)) (textShape leftSpeeds rightSpeeds : list R)
             (a : AppState) (time delta : R) (stage : Group.Stage) (j : nat),
        isActive (leftHand a) = true -> isFist (leftHand a) = false ->
        isActive (rightHand a) = true -> isFist (rightHand a) = false ->
        length (Scene.pos (Group.leftParticles stage)) = (PARTICLE_COUNT * 3)%nat ->
        length (Scene.pos (Group.rightParticles stage)) = (PARTICLE_COUNT * 3)%nat ->
        (j < PARTICLE_COUNT)%nat ->
        let stage' :=
          Group.renderFrame shapes textShape leftSpeeds rightSpeeds a false
            time delta stage in
        let target :=
          Scene.ambientTarget time (Scene.spread (leftHand a) (rightHand a)) j in
        Scene.particleAt (Scene.pos (Group.leftParticles stage')) j
        = Scene.stepParticle
            (Scene.particleAt (Scene.pos (Group.leftParticles stage)) j) target 0.05
        /\ Scene.particleAt (Scene.pos (Group.rightParticles stage')) j
           = Scene.stepParticle
               (Scene.particleAt (Scene.pos (Group.rightParticles stage)) j) target 0.05).
Proof.
  split.
  - intros la lb ha hb Ea Eb Hfa Hfb dx dy.
    assert (Ca : complete la).
    { destruct (Nat.lt_ge_cases (length la) 21) as [H|H]; [|exact H].
      apply TrackerFacts.handStateOf_short in H. congruence. }
    assert (Cb : complete lb).
    { destruct (Nat.lt_ge_cases (length lb) 21) as [H|H]; [|exact H].
      apply TrackerFacts.handStateOf_short in H. congruence. }
    rewrite (TrackerFacts.handStateOf_complete la Ca) in Ea.
    rewrite (TrackerFacts.handStateOf_complete lb Cb) in Eb.
    injection Ea as <-. injection Eb as <-. cbn [isFist] in Hfa, Hfb.
    rewrite !spread_open by (reflexivity || assumption).
    rewrite (interHandDistance_sym (mkHand true (detectsFist lb) _ _ _)).
    split; [|reflexivity].
    unfold Scene.interHandDistance. cbn [position vx vy].
    subst dx dy.
    match goal with
    | |- 1 + Rmin (0.5 * sqrt ?x) 3 = 1 + Rmin (0.5 * sqrt ?y) 3 =>
        replace x with y by field
    end.
    reflexivity.
  - intros shapes textShape leftSpeeds rightSpeeds a time delta stage j
      Hla Hlf Hra Hrf Hll Hlr Hj stage' target. subst stage' target.
    unfold Group.renderFrame. cbn [Group.leftParticles Group.rightParticles].
    unfold Scene.useFrame.
    cbn [Scene.refsMounted Scene.hand Scene.otherHand Scene.isShowingText
         Scene.time Scene.delta negb].
    rewrite Hla, Hlf, Hra, Hrf. cbn [negb Scene.pos].
    rewrite !SceneFacts.ambientCloud_particle by assumption.
    rewrite (spread_open (rightHand a) (leftHand a)) by assumption.
    rewrite (spread_open (leftHand a) (rightHand a)) by assumption.
    rewrite (interHandDistance_sym (rightHand a)). split; reflexivity.
Qed.

Lemma X27_two_open_hands_share_a_cloud_witness :
  exists ha hb : HandState,
    handStateOf (Demo.handAt 0.2 0.5 0.3) = Some ha
    /\ handStateOf (Demo.handAt 0.8 0.5 0.3) = Some hb
    /\ (isFist ha = false -> isFist hb = false ->
        Scene.spread hb ha = Scene.spread ha hb).
Proof.
  assert (Ca : complete (Demo.handAt 0.2 0.5 0.3)) by (unfold complete; simpl; lia).
  assert (Cb : complete (Demo.handAt 0.8 0.5 0.3)) by (unfold complete; simpl; lia).
  eexists _, _.
  split; [apply (TrackerFacts.handStateOf_complete _ Ca)|].
  split; [apply (TrackerFacts.handStateOf_complete _ Cb)|].
  intros Hfa Hfb.
  exact (proj2 (proj1 X27_two_open_hands_share_a_cloud _ _ _ _
                  (TrackerFacts.handStateOf_complete _ Ca)
                  (TrackerFacts.handStateOf_complete _ Cb) Hfa Hfb)).
Defined.

End PipelineFacts.
